(** * Masked batch normalisation (func_active_bn.py)

    A shallow embedding of the chainer functions [BatchNormalization],
    [BatchNormalizationGrad], [FixedBatchNormalization] and
    [FixedBatchNormalizationGrad] of
    [lidar_voxelnet_detect/include/voxelnet/models/func_active_bn.py].

    Arrays are numpy arrays in C order: a dtype tag, a shape and a flat
    buffer.  Array elements are exact rationals ([Qc]): rounding, NaN and
    infinities of IEEE arithmetic are outside this model.  The two
    irrational primitives the source uses, [v ** (-0.5)] and [xp.sqrt],
    are parameters of the development.  Python exceptions are values of
    [exn]; the running statistics, which the source updates in place in
    arrays owned by the caller, live in an explicit heap. *)

From Stdlib Require Import List Arith Lia ZArith QArith Qcanon Bool.
Import ListNotations.

Set Implicit Arguments.

(** ** Exceptions and the state-and-exception monad *)

Inductive exn : Type :=
| InvalidType        (* chainer.utils.type_check.InvalidType *)
| ValueError
| IndexError
| TypeError
| ZeroDivisionError
| RuntimeError.

Inductive result (A : Type) : Type :=
| Ok (a : A)
| Raise (e : exn).

Arguments Ok {A} a.
Arguments Raise {A} e.

Definition is_ok {A} (r : result A) : bool :=
  match r with Ok _ => true | Raise _ => false end.

(** A computation reads and writes a state [S]; a raised exception keeps
    the state reached so far (Python does not roll mutations back). *)
Definition M (S A : Type) : Type := S -> result A * S.

Definition ret {S A} (a : A) : M S A := fun s => (Ok a, s).

Definition bind {S A B} (c : M S A) (k : A -> M S B) : M S B :=
  fun s => match c s with
           | (Ok a, s') => k a s'
           | (Raise e, s') => (Raise e, s')
           end.

Definition raise {S A} (e : exn) : M S A := fun s => (Raise e, s).

Definition lift {S A} (r : result A) : M S A := fun s => (r, s).

Definition get {S} : M S S := fun s => (Ok s, s).

Definition modify {S} (f : S -> S) : M S unit := fun s => (Ok tt, f s).

Declare Scope monad_scope.
Delimit Scope monad_scope with monad.
Notation "x <- c ;; k" := (bind c (fun x => k))
  (at level 61, c at next level, right associativity) : monad_scope.
Notation "c ;;; k" := (bind c (fun _ => k))
  (at level 61, right associativity) : monad_scope.

(** The same sequencing for pure fallible array operations. *)
Definition rbind {A B} (r : result A) (k : A -> result B) : result B :=
  match r with Ok a => k a | Raise e => Raise e end.

Notation "'let*' x ':=' c 'in' k" := (rbind c (fun x => k))
  (at level 10, x name, c at level 100, k at level 200).

(** ** Scalars *)

Open Scope Qc_scope.

Definition of_nat (n : nat) : Qc := Q2Qc (inject_Z (Z.of_nat n)).

Definition of_bool (b : bool) : Qc := if b then 1 else 0.

Definition Qcmax (a b : Qc) : Qc := if Qclt_le_dec a b then b else a.

Definition Qcltb (a b : Qc) : bool := if Qclt_le_dec a b then true else false.

Definition qsum (l : list Qc) : Qc := fold_right Qcplus 0 l.

(** ** numpy arrays *)

Inductive dtype : Type := float16 | float32 | float64 | int32 | int64 | bool_.

Inductive dkind : Type := kind_f | kind_i | kind_b.

Definition kind (d : dtype) : dkind :=
  match d with
  | float16 | float32 | float64 => kind_f
  | int32 | int64 => kind_i
  | bool_ => kind_b
  end.

Definition dtype_eqb (a b : dtype) : bool :=
  match a, b with
  | float16, float16 | float32, float32 | float64, float64
  | int32, int32 | int64, int64 | bool_, bool_ => true
  | _, _ => false
  end.

Definition dkind_eqb (a b : dkind) : bool :=
  match a, b with
  | kind_f, kind_f | kind_i, kind_i | kind_b, kind_b => true
  | _, _ => false
  end.

Definition shape_eqb (s t : list nat) : bool :=
  if list_eq_dec Nat.eq_dec s t then true else false.

Record ndarray (A : Type) : Type := mk_ndarray {
  dtype_of : dtype;
  shape : list nat;
  data : list A            (* C order *)
}.

Arguments mk_ndarray {A} _ _ _.

Definition ndim {A} (a : ndarray A) : nat := length (shape a).

(** Number of elements of an array of shape [s]. *)
Definition prod (s : list nat) : nat := fold_right Nat.mul 1%nat s.

Definition size {A} (a : ndarray A) : nat := prod (shape a).

(** An array is well formed when its buffer has as many elements as its
    shape says. *)
Definition wf {A} (a : ndarray A) : Prop := length (data a) = size a.

(** *** Broadcasting *)

(** [pad n s] aligns the shape [s] to the right in [n] axes. *)
Definition pad (n : nat) (s : list nat) : list nat :=
  repeat 1%nat (n - length s) ++ s.

Fixpoint compatible (src tgt : list nat) : bool :=
  match src, tgt with
  | [], [] => true
  | sd :: src', td :: tgt' =>
      ((sd =? td) || (sd =? 1))%nat && compatible src' tgt'
  | _, _ => false
  end.

(** [broadcastable src tgt]: an array of shape [src] can be broadcast to
    the shape [tgt] (numpy's rule: axes are aligned to the right, and
    each source axis has the target's length or length one). *)
Definition broadcastable (src tgt : list nat) : bool :=
  (length src <=? length tgt)%nat && compatible (pad (length tgt) src) tgt.

(** Offset in a buffer of shape [src] of the element that position [i]
    (an offset in C order in the shape [tgt]) reads after broadcasting;
    [src] and [tgt] have the same number of axes. *)
Fixpoint bidx (src tgt : list nat) (i : nat) : nat :=
  match src, tgt with
  | sd :: src', td :: tgt' =>
      ((if (sd =? 1)%nat then 0 else i / prod tgt') * prod src'
       + bidx src' tgt' (i mod prod tgt'))%nat
  | _, _ => 0%nat
  end.

Definition gather {A} (d : A) (src tgt : list nat) (buf : list A) : list A :=
  map (fun i => nth (bidx (pad (length tgt) src) tgt i) buf d)
      (seq 0 (prod tgt)).

(** [xp.broadcast_to(a, s)] *)
Definition broadcast_to {A} (d : A) (a : ndarray A) (s : list nat)
  : result (ndarray A) :=
  if broadcastable (shape a) s
  then Ok (mk_ndarray (dtype_of a) s (gather d (shape a) s (data a)))
  else Raise ValueError.

(** The common shape of two operands of an elementwise operation. *)
Fixpoint bshape_aux (s t : list nat) : option (list nat) :=
  match s, t with
  | [], [] => Some []
  | sd :: s', td :: t' =>
      match bshape_aux s' t' with
      | None => None
      | Some r =>
          if (sd =? td)%nat then Some (sd :: r)
          else if (sd =? 1)%nat then Some (td :: r)
          else if (td =? 1)%nat then Some (sd :: r)
          else None
      end
  | _, _ => None
  end.

Definition bshape (s t : list nat) : option (list nat) :=
  let n := Nat.max (length s) (length t) in
  bshape_aux (pad n s) (pad n t).

(** Elementwise binary operation with broadcasting; the result takes the
    dtype of the left operand. *)
Definition binop (f : Qc -> Qc -> Qc) (a b : ndarray Qc)
  : result (ndarray Qc) :=
  match bshape (shape a) (shape b) with
  | Some s =>
      Ok (mk_ndarray (dtype_of a) s
            (map (fun i => f (nth (bidx (pad (length s) (shape a)) s i) (data a) 0)
                             (nth (bidx (pad (length s) (shape b)) s i) (data b) 0))
                 (seq 0 (prod s))))
  | None => Raise ValueError
  end.

(** In-place elementwise operation [a op= b]: the broadcast shape has to
    be the shape of [a]. *)
Definition iop (f : Qc -> Qc -> Qc) (a b : ndarray Qc)
  : result (ndarray Qc) :=
  match bshape (shape a) (shape b) with
  | Some s => if shape_eqb s (shape a) then binop f a b else Raise ValueError
  | None => Raise ValueError
  end.

(** Operations with a Python scalar. *)
Definition amap {A B} (f : A -> B) (a : ndarray A) : ndarray B :=
  mk_ndarray (dtype_of a) (shape a) (map f (data a)).

Definition scale (c : Qc) (a : ndarray Qc) : ndarray Qc := amap (Qcmult c) a.

Definition zeros_like (a : ndarray Qc) : ndarray Qc :=
  mk_ndarray (dtype_of a) (shape a) (repeat 0 (size a)).

(** A boolean array used as an arithmetic operand. *)
Definition astype_float (dt : dtype) (m : ndarray bool) : ndarray Qc :=
  mk_ndarray dt (shape m) (map of_bool (data m)).

(** *** Three-dimensional arrays *)

Definition get3 {A} (d : A) (a : ndarray A) (i j k : nat) : A :=
  match shape a with
  | [_; n1; n2] => nth ((i * n1 + j) * n2 + k) (data a) d
  | _ => d
  end.

(** The buffer of the array of shape [(n0, n1, n2)] whose element at
    [(i, j, k)] is [f i j k]. *)
Definition build3 {A} (n0 n1 n2 : nat) (f : nat -> nat -> nat -> A) : list A :=
  flat_map (fun i =>
    flat_map (fun j => map (fun k => f i j k) (seq 0 n2)) (seq 0 n1))
    (seq 0 n0).

(** [a.transpose(0, 2, 1)]: numpy raises ValueError unless [a] has
    exactly three axes. *)
Definition transpose_0_2_1 {A} (d : A) (a : ndarray A) : result (ndarray A) :=
  match shape a with
  | [n0; n1; n2] =>
      Ok (mk_ndarray (dtype_of a) [n0; n2; n1]
            (build3 n0 n2 n1 (fun i k j => get3 d a i j k)))
  | _ => Raise ValueError
  end.

(** *** Boolean selection, reshape and reductions *)

Fixpoint select {A} (l : list A) (m : list bool) : list A :=
  match l, m with
  | x :: l', b :: m' => if b then x :: select l' m' else select l' m'
  | _, _ => []
  end.

(** [a[mask]] for a boolean [mask] of the shape of [a]: the selected
    elements in C order, as a one-dimensional array. *)
Definition bool_index (a : ndarray Qc) (mask : ndarray bool)
  : result (ndarray Qc) :=
  if shape_eqb (shape mask) (shape a)
  then let sel := select (data a) (data mask) in
       Ok (mk_ndarray (dtype_of a) [length sel] sel)
  else Raise IndexError.

(** [a.reshape(-1, c)] *)
Definition reshape_rows (a : ndarray Qc) (c : nat) : result (ndarray Qc) :=
  match c with
  | O => Raise ValueError
  | _ => if (size a mod c =? 0)%nat
         then Ok (mk_ndarray (dtype_of a) [(size a / c)%nat; c] (data a))
         else Raise ValueError
  end.

(** Column [j] of a two-dimensional array with [m] rows of [c] elements. *)
Definition column (m c : nat) (buf : list Qc) (j : nat) : list Qc :=
  map (fun i => nth (i * c + j) buf 0) (seq 0 m).

Definition rows_cols (a : ndarray Qc) : nat * nat :=
  match shape a with
  | [m; c] => (m, c)
  | _ => (0%nat, 0%nat)
  end.

(** [a.sum(axis=0)], [a.mean(axis=0)] and [a.var(axis=0)] of a
    two-dimensional array. *)
Definition sum_axis0 (a : ndarray Qc) : ndarray Qc :=
  let (m, c) := rows_cols a in
  mk_ndarray (dtype_of a) [c]
    (map (fun j => qsum (column m c (data a) j)) (seq 0 c)).

Definition mean_list (l : list Qc) : Qc := qsum l / of_nat (length l).

Definition var_list (l : list Qc) : Qc :=
  let mu := mean_list l in
  mean_list (map (fun v => (v - mu) * (v - mu)) l).

Definition mean_axis0 (a : ndarray Qc) : ndarray Qc :=
  let (m, c) := rows_cols a in
  mk_ndarray (dtype_of a) [c]
    (map (fun j => mean_list (column m c (data a) j)) (seq 0 c)).

Definition var_axis0 (a : ndarray Qc) : ndarray Qc :=
  let (m, c) := rows_cols a in
  mk_ndarray (dtype_of a) [c]
    (map (fun j => var_list (column m c (data a) j)) (seq 0 c)).

(** [a[expander]] with [expander = (None, Ellipsis) + (None,) * k]: a
    view with one axis in front and [k] axes behind. *)
Definition expand {A} (k : nat) (a : ndarray A) : ndarray A :=
  mk_ndarray (dtype_of a) (1%nat :: shape a ++ repeat 1%nat k) (data a).

(** [a.sum(axis=axes)] for any number of axes: [keep] tells for each axis
    of [a] whether it survives. *)
Definition kept (keep : list bool) (s : list nat) : list nat :=
  select s keep.

Fixpoint ridx (keep : list bool) (s : list nat) (i : nat) : nat :=
  match keep, s with
  | k :: keep', _ :: s' =>
      ((if k then i / prod s' * prod (kept keep' s') else 0)
       + ridx keep' s' (i mod prod s'))%nat
  | _, _ => 0%nat
  end.

Definition keep_mask (n : nat) (axes : list nat) : list bool :=
  map (fun ax => negb (existsb (Nat.eqb ax) axes)) (seq 0 n).

Definition sum_axes (axes : list nat) (a : ndarray Qc) : result (ndarray Qc) :=
  if forallb (fun ax => ax <? ndim a)%nat axes
  then
    let keep := keep_mask (ndim a) axes in
    let s := kept keep (shape a) in
    Ok (mk_ndarray (dtype_of a) s
          (map (fun j =>
                  qsum (select (data a)
                          (map (fun i => ridx keep (shape a) i =? j)%nat
                               (seq 0 (size a)))))
               (seq 0 (prod s))))
  else Raise ValueError.

(** ** chainer.utils.type_check *)

Record TypeInfo : Type := mk_type {
  ti_dtype : dtype;
  ti_shape : list nat
}.

Definition type_of {A} (a : ndarray A) : TypeInfo :=
  mk_type (dtype_of a) (shape a).

Definition ti_ndim (t : TypeInfo) : nat := length (ti_shape t).

(** [type_check.expect(c1, ..., cn)] raises InvalidType unless every
    condition holds. *)
Definition expect (conds : list bool) : result unit :=
  if forallb (fun c => c) conds then Ok tt else Raise InvalidType.

(** Python's [s[a:b]] on a tuple. *)
Definition slice {A} (a b : nat) (s : list A) : list A :=
  firstn (b - a) (skipn a s).

(** ** The heap of arrays that are updated in place *)

Definition loc : Type := nat.
Definition heap : Type := list (ndarray Qc).

Definition alloc {S} (upd : (heap -> heap) -> S -> S) (hp : S -> heap)
  (a : ndarray Qc) : M S loc :=
  fun s => (Ok (length (hp s)), upd (fun h => h ++ [a]) s).

Fixpoint update {A} (l : list A) (n : nat) (v : A) : list A :=
  match l, n with
  | [], _ => []
  | _ :: l', O => v :: l'
  | x :: l', S n' => x :: update l' n' v
  end.

(** ** The functions of func_active_bn.py *)

Inductive backend : Type := numpy | cupy.

Definition is_numpy (xp : backend) : bool :=
  match xp with numpy => true | cupy => false end.

Section FuncActiveBN.

(** [v ** (-0.5)] and [xp.sqrt(v)] on scalars. *)
Variable rsqrt : Qc -> Qc.
Variable sqrt : Qc -> Qc.

(** [cuda.get_array_module(x)]: where the arrays of a call live. *)
Variable xp : backend.

(** [chainer.should_use_cudnn('>=auto')] *)
Variable should_use_cudnn : bool.

(** *** _BNMode *)

Record BNMode : Type := mk_BNMode {
  is_for_conv2d : bool;
  is_for_linear : bool;
  cudnn_dim_ok : bool;
  cudnn_dtype_ok : bool
}.

Definition BNMode_init (x gamma : ndarray Qc) : BNMode :=
  let is_gamma_1d := (ndim gamma =? 1)%nat in
  let conv2d := (ndim x =? 4)%nat && is_gamma_1d in
  let linear := (ndim x =? 2)%nat && is_gamma_1d in
  mk_BNMode conv2d linear (conv2d || linear)
            (conv2d || negb (dtype_eqb (dtype_of x) float16)).

(** *** _x_hat and _apply_bn_fwd *)

Definition _x_hat (x mean inv_std : ndarray Qc) : result (ndarray Qc) :=
  let* x_mu := binop Qcminus x mean in
  iop Qcmult x_mu inv_std.

Definition _apply_bn_fwd (x mean inv_std gamma beta : ndarray Qc)
  : result (ndarray Qc) :=
  if is_numpy xp then
    let* x_hat := _x_hat x mean inv_std in
    let* y := binop Qcmult gamma x_hat in
    iop Qcplus y beta
  else
    (* the kernel 'y = gamma * (x - mean) * inv_std + beta' *)
    let* d := binop Qcminus x mean in
    let* gd := binop Qcmult gamma d in
    let* n := binop Qcmult gd inv_std in
    binop Qcplus n beta.

(** *** BatchNormalization *)

Record BatchNormalization : Type := mk_BN {
  running_mean : option loc;
  running_var : option loc;
  active_len : nat;
  mask : option (ndarray bool);
  orig_mask : option (ndarray bool);
  eps : Qc;
  decay : Qc;
  mean : option (ndarray Qc);
  inv_std : option (ndarray Qc);
  mode : option BNMode;
  expander : nat;            (* the number of trailing None of the expander *)
  axis : list nat;
  retained : option (ndarray Qc * ndarray Qc)
}.

Definition cudnn_min_eps : Qc := Q2Qc (1 # 100000).

Definition BatchNormalization_init (eps : Qc) (mean var : option loc)
  (decay : Qc) (active_len : nat) (mask : option (ndarray bool))
  : result BatchNormalization :=
  if should_use_cudnn && Qcltb eps cudnn_min_eps
  then Raise RuntimeError
  else Ok (mk_BN mean var active_len mask mask eps decay
                 None None None 0 [] None).

Definition BatchNormalization_check_type_forward (in_types : list TypeInfo)
  : result unit :=
  let* _ := expect [(length in_types =? 3)%nat] in
  match in_types with
  | [x_type; gamma_type; beta_type] =>
      let M := ti_ndim gamma_type in
      expect [
        dkind_eqb (kind (ti_dtype x_type)) kind_f;
        (ti_ndim gamma_type + 1 <=? ti_ndim x_type)%nat;
        shape_eqb (slice 1 (1 + M) (ti_shape x_type)) (ti_shape gamma_type);
        dtype_eqb (ti_dtype gamma_type) (ti_dtype x_type);
        dtype_eqb (ti_dtype beta_type) (ti_dtype x_type);
        shape_eqb (ti_shape gamma_type) (ti_shape beta_type)
      ]
  | _ => Raise InvalidType
  end.

(** The state of a call: the function object and the heap. *)
Definition BNState : Type := (BatchNormalization * heap)%type.

Definition upd_self (f : BatchNormalization -> BatchNormalization)
  : M BNState unit := modify (fun s => (f (fst s), snd s)).

Definition upd_heap (f : heap -> heap) (s : BNState) : BNState :=
  (fst s, f (snd s)).

Definition set_running_mean v (o : BatchNormalization) :=
  mk_BN v (running_var o) (active_len o) (mask o) (orig_mask o) (eps o)
        (decay o) (mean o) (inv_std o) (mode o) (expander o) (axis o)
        (retained o).

Definition set_running_var v (o : BatchNormalization) :=
  mk_BN (running_mean o) v (active_len o) (mask o) (orig_mask o) (eps o)
        (decay o) (mean o) (inv_std o) (mode o) (expander o) (axis o)
        (retained o).

Definition set_mask v (o : BatchNormalization) :=
  mk_BN (running_mean o) (running_var o) (active_len o) v (orig_mask o)
        (eps o) (decay o) (mean o) (inv_std o) (mode o) (expander o)
        (axis o) (retained o).

Definition set_mean v (o : BatchNormalization) :=
  mk_BN (running_mean o) (running_var o) (active_len o) (mask o)
        (orig_mask o) (eps o) (decay o) v (inv_std o) (mode o) (expander o)
        (axis o) (retained o).

Definition set_inv_std v (o : BatchNormalization) :=
  mk_BN (running_mean o) (running_var o) (active_len o) (mask o)
        (orig_mask o) (eps o) (decay o) (mean o) v (mode o) (expander o)
        (axis o) (retained o).

Definition set_plan md ex ax (o : BatchNormalization) :=
  mk_BN (running_mean o) (running_var o) (active_len o) (mask o)
        (orig_mask o) (eps o) (decay o) (mean o) (inv_std o) md ex ax
        (retained o).

Definition set_retained v (o : BatchNormalization) :=
  mk_BN (running_mean o) (running_var o) (active_len o) (mask o)
        (orig_mask o) (eps o) (decay o) (mean o) (inv_std o) (mode o)
        (expander o) (axis o) v.

(** [arr op= v] on the array an attribute refers to; the attribute being
    None is Python's TypeError. *)
Definition inplace (attr : option loc)
  (f : ndarray Qc -> result (ndarray Qc)) : M BNState unit :=
  fun s =>
    match attr with
    | None => (Raise TypeError, s)
    | Some l =>
        match nth_error (snd s) l with
        | None => (Raise RuntimeError, s)      (* no such object *)
        | Some a =>
            match f a with
            | Ok a' => (Ok tt, (fst s, update (snd s) l a'))
            | Raise e => (Raise e, s)
            end
        end
    end.

(** [tuple(range(a, b))] *)
Definition range (a b : nat) : list nat := seq a (b - a).

(** The size of the batch a statistic is taken over, [n // d] on Python
    integers. *)
Definition floordiv (n d : nat) : result nat :=
  match d with O => Raise ZeroDivisionError | _ => Ok (n / d)%nat end.

Definition option_result {A B} (o : option A) (e : exn)
  (f : A -> result B) : result B :=
  match o with Some a => f a | None => Raise e end.

(** An operation on the mask attribute; a mask that was never given
    (None) is carried along as numpy carries an object array. *)
Definition on_mask (f : ndarray bool -> result (ndarray bool))
  (m : option (ndarray bool)) : result (option (ndarray bool)) :=
  match m with
  | Some a => let* a' := f a in Ok (Some a')
  | None => Ok None
  end.

(** [a[mask].reshape(-1, c)]: the selected elements as rows of [c]. *)
Definition masked_rows (a : ndarray Qc) (mask : option (ndarray bool))
  (c : nat) : result (ndarray Qc) :=
  let* m := option_result mask IndexError Ok in
  let* sel := bool_index a m in
  reshape_rows sel c.

Open Scope monad_scope.

Definition BatchNormalization_forward
  (inputs : ndarray Qc * ndarray Qc * ndarray Qc)
  : M BNState (ndarray Qc) :=
  let '(x, gamma, beta) := inputs in
  upd_self (set_retained (Some (x, gamma))) ;;;
  self <- get ;;
  (match running_mean (fst self) with
   | None =>
       l <- alloc upd_heap snd (zeros_like gamma) ;;
       upd_self (set_running_mean (Some l)) ;;;
       l' <- alloc upd_heap snd (zeros_like gamma) ;;
       upd_self (set_running_var (Some l'))
   | Some _ => ret tt
   end) ;;;
  let head_ndim := (ndim gamma + 1)%nat in
  let expander := (ndim x - head_ndim)%nat in
  upd_self (set_plan (Some (BNMode_init x gamma)) expander
                     (0%nat :: range head_ndim (ndim x))) ;;;
  let gamma := expand expander gamma in
  let beta := expand expander beta in
  (* the mask: broadcast, transposed like x, broadcast again *)
  m1 <- lift (on_mask (fun m => broadcast_to false m (shape x))
                      (mask (fst self))) ;;
  upd_self (set_mask m1) ;;;
  active_x <- lift (transpose_0_2_1 0 x) ;;
  m2 <- lift (on_mask (transpose_0_2_1 false) m1) ;;
  upd_self (set_mask m2) ;;;
  m3 <- lift (on_mask (fun m => broadcast_to false m (shape active_x))
                      m2) ;;
  upd_self (set_mask m3) ;;;
  active_x <- lift (masked_rows active_x m3
                                (nth 2 (shape active_x) 0%nat)) ;;
  let mean := mean_axis0 active_x in
  upd_self (set_mean (Some mean)) ;;;
  self <- get ;;
  let var := amap (fun v => v + eps (fst self)) (var_axis0 active_x) in
  let inv_std := amap rsqrt var in
  upd_self (set_inv_std (Some inv_std)) ;;;
  y <- lift (_apply_bn_fwd x (expand expander mean) (expand expander inv_std)
                           gamma beta) ;;
  (* Update running statistics *)
  m <- lift (floordiv (size active_x) (size gamma)) ;;
  let adjust := of_nat m / Qcmax (of_nat m - 1) 1 in
  self <- get ;;
  let decay := decay (fst self) in
  inplace (running_mean (fst self)) (fun a => Ok (scale decay a)) ;;;
  inplace (running_mean (fst self))
          (fun a => iop Qcplus a (scale (1 - decay) mean)) ;;;
  inplace (running_var (fst self)) (fun a => Ok (scale decay a)) ;;;
  inplace (running_var (fst self))
          (fun a => iop Qcplus a (scale ((1 - decay) * adjust) var)) ;;;
  m <- lift (option_result (orig_mask (fst self)) TypeError Ok) ;;
  y <- lift (iop Qcmult y (astype_float (dtype_of y) m)) ;;
  ret y.

(** [FunctionNode.apply]: chainer checks the types of the inputs with
    [check_type_forward] and then runs [forward]. *)
Definition BatchNormalization_apply
  (inputs : ndarray Qc * ndarray Qc * ndarray Qc)
  : M BNState (ndarray Qc) :=
  let '(x, gamma, beta) := inputs in
  lift (BatchNormalization_check_type_forward
          [type_of x; type_of gamma; type_of beta]) ;;;
  BatchNormalization_forward inputs.

(** *** BatchNormalizationGrad *)

Record BatchNormalizationGrad : Type := mk_BNGrad {
  g_eps : Qc;
  g_mode : option BNMode;
  g_expander : nat;
  g_axis : list nat;
  g_mean : option (ndarray Qc);
  g_inv_std : option (ndarray Qc);
  g_active_len : nat;
  g_mask : option (ndarray bool);
  g_orig_mask : option (ndarray bool)
}.

Definition BatchNormalizationGrad_init eps mode expander axis mean inv_std
  active_len orig_mask mask : BatchNormalizationGrad :=
  mk_BNGrad eps mode expander axis mean inv_std active_len mask orig_mask.

(** [1. / n] for a Python integer [n] *)
Definition float_inv (n : nat) : result Qc :=
  match n with O => Raise ZeroDivisionError | _ => Ok (1 / of_nat n) end.

Definition BatchNormalizationGrad_forward (self : BatchNormalizationGrad)
  (inputs : ndarray Qc * ndarray Qc * ndarray Qc)
  : result (ndarray Qc * ndarray Qc * ndarray Qc) :=
  let '(x, gamma, gy) := inputs in
  let* active_gy := transpose_0_2_1 0 gy in
  let* active_gy :=
    masked_rows active_gy (g_mask self) (nth 2 (shape active_gy) 0%nat) in
  let expander := g_expander self in
  let* m := floordiv (size active_gy) (size gamma) in
  let* inv_m := float_inv m in
  let gbeta := sum_axis0 active_gy in
  let* mean := option_result (g_mean self) TypeError Ok in
  let* inv_std := option_result (g_inv_std self) TypeError Ok in
  let* x_hat := _x_hat x (expand expander mean) (expand expander inv_std) in
  let* x_hat_t := transpose_0_2_1 0 x_hat in
  let* active_x_hat :=
    masked_rows x_hat_t (g_mask self) (nth 1 (shape active_gy) 0%nat) in
  let* gyx := binop Qcmult active_gy active_x_hat in
  let ggamma := sum_axis0 gyx in
  let* gx :=
    if is_numpy xp then
      let* gs := binop Qcmult gamma inv_std in
      let* t1 := binop Qcmult x_hat (expand expander ggamma) in
      let* t2 := binop Qcplus t1 (expand expander gbeta) in
      let* t3 := binop Qcminus gy (scale inv_m t2) in
      binop Qcmult (expand expander gs) t3
    else
      (* the kernel
         'gx = (gamma * inv_std) * (gy - (x_hat * ggamma + gbeta) * inv_m)' *)
      let* gs := binop Qcmult (expand expander gamma)
                              (expand expander inv_std) in
      let* t1 := binop Qcmult x_hat (expand expander ggamma) in
      let* t2 := binop Qcplus t1 (expand expander gbeta) in
      let* t3 := binop Qcminus gy (scale inv_m t2) in
      binop Qcmult gs t3 in
  let* m := option_result (g_orig_mask self) TypeError Ok in
  let* gx := iop Qcmult gx (astype_float (dtype_of gx) m) in
  Ok (gx, ggamma, gbeta).

Definition BatchNormalization_backward (self : BatchNormalization)
  (gy : ndarray Qc) : result (ndarray Qc * ndarray Qc * ndarray Qc) :=
  option_result (retained self) RuntimeError (fun xg =>
    let f := BatchNormalizationGrad_init
               (eps self) (mode self) (expander self) (axis self)
               (mean self) (inv_std self) (active_len self)
               (orig_mask self) (mask self) in
    BatchNormalizationGrad_forward f (fst xg, snd xg, gy)).

(** *** FixedBatchNormalization *)

Record FixedBatchNormalization : Type := mk_FBN {
  f_eps : Qc;
  f_inv_std : option (ndarray Qc);
  f_inv_var : option (ndarray Qc);
  f_expander : nat;
  f_axis : list nat;
  f_retained : option (ndarray Qc * ndarray Qc * ndarray Qc * ndarray Qc)
}.

Definition FixedBatchNormalization_init (eps : Qc) : FixedBatchNormalization :=
  mk_FBN eps None None 0 [] None.

Definition FixedBatchNormalization_check_type_forward
  (in_types : list TypeInfo) : result unit :=
  let* _ := expect [(length in_types =? 5)%nat] in
  match in_types with
  | [x_type; gamma_type; beta_type; mean_type; var_type] =>
      let M := ti_ndim gamma_type in
      expect [
        dkind_eqb (kind (ti_dtype x_type)) kind_f;
        (ti_ndim gamma_type + 1 <=? ti_ndim x_type)%nat;
        shape_eqb (slice 1 (1 + M) (ti_shape x_type)) (ti_shape gamma_type);
        dtype_eqb (ti_dtype gamma_type) (ti_dtype x_type);
        dtype_eqb (ti_dtype beta_type) (ti_dtype x_type);
        shape_eqb (ti_shape gamma_type) (ti_shape beta_type);
        dtype_eqb (ti_dtype mean_type) (ti_dtype x_type);
        shape_eqb (ti_shape mean_type) (ti_shape gamma_type);
        dtype_eqb (ti_dtype var_type) (ti_dtype x_type);
        shape_eqb (ti_shape var_type) (ti_shape gamma_type)
      ]
  | _ => Raise InvalidType
  end.

Definition inputs5 : Type :=
  (ndarray Qc * ndarray Qc * ndarray Qc * ndarray Qc * ndarray Qc)%type.

Definition FixedBatchNormalization_forward (inputs : inputs5)
  : M FixedBatchNormalization (ndarray Qc) :=
  let '(x, gamma, beta, mean, var) := inputs in
  self <- get ;;
  let head_ndim := (ndim gamma + 1)%nat in
  let expander := (ndim x - head_ndim)%nat in
  let axis := (0%nat :: range head_ndim (ndim x)) in
  let gamma' := expand expander gamma in
  let beta := expand expander beta in
  let var' := amap (fun v => v + f_eps self) var in
  let inv_var := amap Qcinv var' in
  let inv_std := amap sqrt inv_var in
  modify (fun o => mk_FBN (f_eps o) (Some inv_std) (Some inv_var)
                          expander axis (Some (x, gamma, mean, var))) ;;;
  y <- lift (_apply_bn_fwd x (expand expander mean) (expand expander inv_std)
                           gamma' beta) ;;
  ret y.

Definition FixedBatchNormalization_apply (inputs : inputs5)
  : M FixedBatchNormalization (ndarray Qc) :=
  let '(x, gamma, beta, mean, var) := inputs in
  lift (FixedBatchNormalization_check_type_forward
          [type_of x; type_of gamma; type_of beta; type_of mean;
           type_of var]) ;;;
  FixedBatchNormalization_forward inputs.

(** *** FixedBatchNormalizationGrad *)

Record FixedBatchNormalizationGrad : Type := mk_FBNGrad {
  fg_eps : Qc;
  fg_expander : nat;
  fg_axis : list nat;
  fg_inv_std : option (ndarray Qc);     (* may be None *)
  fg_inv_var : option (ndarray Qc);     (* may be None *)
  fg_gamma_over_std : option (ndarray Qc)
}.

Definition FixedBatchNormalizationGrad_init eps expander axis inv_std inv_var
  : FixedBatchNormalizationGrad :=
  mk_FBNGrad eps expander axis inv_std inv_var None.

Definition outputs5 : Type :=
  (ndarray Qc * ndarray Qc * ndarray Qc * ndarray Qc * ndarray Qc)%type.

Definition neg_half : Qc := Q2Qc (-1 # 2).

Definition FixedBatchNormalizationGrad_forward (inputs : inputs5)
  : M FixedBatchNormalizationGrad outputs5 :=
  let '(x, gamma, mean, var, gy) := inputs in
  self <- get ;;
  let expander := fg_expander self in
  (match fg_inv_std self, fg_inv_var self with
   | Some _, Some _ => ret tt
   | _, _ =>
       let inv_var := amap Qcinv (amap (fun v => v + fg_eps self) var) in
       modify (fun o => mk_FBNGrad (fg_eps o) (fg_expander o) (fg_axis o)
                          (Some (amap sqrt inv_var)) (Some inv_var)
                          (fg_gamma_over_std o))
   end) ;;;
  self <- get ;;
  inv_std <- lift (option_result (fg_inv_std self) TypeError Ok) ;;
  inv_var <- lift (option_result (fg_inv_var self) TypeError Ok) ;;
  gamma_over_std <- lift (binop Qcmult gamma inv_std) ;;
  modify (fun o => mk_FBNGrad (fg_eps o) (fg_expander o) (fg_axis o)
                     (fg_inv_std o) (fg_inv_var o) (Some gamma_over_std)) ;;;
  x_hat <- lift (_x_hat x (expand expander mean) (expand expander inv_std)) ;;
  gx <- lift (binop Qcmult (expand expander gamma_over_std) gy) ;;
  gbeta <- lift (sum_axes (fg_axis self) gy) ;;
  xg <- lift (binop Qcmult x_hat gy) ;;
  ggamma <- lift (sum_axes (fg_axis self) xg) ;;
  gmean <- lift (binop Qcmult (amap Qcopp gamma_over_std) gbeta) ;;
  t <- lift (binop Qcmult (scale neg_half gamma) inv_var) ;;
  gvar <- lift (binop Qcmult t ggamma) ;;
  ret (gx, ggamma, gbeta, gmean, gvar).

Definition FixedBatchNormalization_backward (self : FixedBatchNormalization)
  (gy : ndarray Qc) : result outputs5 :=
  option_result (f_retained self) RuntimeError (fun r =>
    let '(x, gamma, mean, var) := r in
    let f := FixedBatchNormalizationGrad_init
               (f_eps self) (f_expander self) (f_axis self)
               (f_inv_std self) (f_inv_var self) in
    fst (FixedBatchNormalizationGrad_forward (x, gamma, mean, var, gy) f)).

(** *** batch_normalization and fixed_batch_normalization *)

Record kwargs : Type := mk_kwargs {
  kw_train : bool;          (* a 'train' argument was passed *)
  kw_eps : Qc;
  kw_running_mean : option loc;
  kw_running_var : option loc;
  kw_decay : Qc;
  kw_active_len : nat;
  kw_mask : option (ndarray bool)
}.

Definition default_eps : Qc := Q2Qc (2 # 100000).
Definition default_decay : Qc := Q2Qc (9 # 10).

Definition default_kwargs : kwargs :=
  mk_kwargs false default_eps None None default_decay 0 None.

(** The function returns the output; the heap it leaves is what the
    caller sees of the running statistics. *)
Definition batch_normalization (x gamma beta : ndarray Qc) (kw : kwargs)
  (h : heap) : result (ndarray Qc) * heap :=
  if kw_train kw then (Raise TypeError, h)
  else
    match BatchNormalization_init (kw_eps kw) (kw_running_mean kw)
            (kw_running_var kw) (kw_decay kw) (kw_active_len kw)
            (kw_mask kw) with
    | Raise e => (Raise e, h)
    | Ok f => let (r, s) := BatchNormalization_apply (x, gamma, beta) (f, h) in
              (r, snd s)
    end.

Definition fixed_batch_normalization (x gamma beta mean var : ndarray Qc)
  (eps : Qc) : result (ndarray Qc) :=
  fst (FixedBatchNormalization_apply (x, gamma, beta, mean, var)
         (FixedBatchNormalization_init eps)).

End FuncActiveBN.

(** ** Vocabulary of the statements *)

(** The invariants of the inputs that the claims name. *)
Definition masked_types_ok (x gamma beta : ndarray Qc) : Prop :=
  shape gamma = shape beta /\
  (ndim gamma + 1 <= ndim x)%nat /\
  dtype_of gamma = dtype_of x /\
  dtype_of beta = dtype_of x.

Definition fixed_types_ok (x gamma beta mean var : ndarray Qc) : Prop :=
  masked_types_ok x gamma beta /\
  dtype_of mean = dtype_of x /\
  dtype_of var = dtype_of x.

(** The Bessel correction [m / max(m - 1., 1.)] of the source. *)
Definition adjust (m : nat) : Qc := of_nat m / Qcmax (of_nat m - 1) 1.

(** The running statistics the call works on: the caller's arrays, or
    two fresh zero-filled arrays when running_mean is None. *)
Definition running_init (f : BatchNormalization) (h : heap)
  (gamma : ndarray Qc) (rm rv : option loc) (h1 : heap) : Prop :=
  match running_mean f with
  | None => rm = Some (length h) /\ rv = Some (S (length h)) /\
            h1 = h ++ [zeros_like gamma; zeros_like gamma]
  | Some l => rm = Some l /\ rv = running_var f /\ h1 = h
  end.

(** The four in-place updates of the running statistics. *)
Definition running_update (h1 : heap) (rm rv : option loc) (decay : Qc)
  (mean var : ndarray Qc) (m : nat) (h' : heap) : Prop :=
  exists lm lv r0 r1 v0 v1,
    rm = Some lm /\ rv = Some lv /\
    nth_error h1 lm = Some r0 /\
    iop Qcplus (scale decay r0) (scale (1 - decay) mean) = Ok r1 /\
    nth_error (update h1 lm r1) lv = Some v0 /\
    iop Qcplus (scale decay v0) (scale ((1 - decay) * adjust m) var) = Ok v1 /\
    h' = update (update h1 lm r1) lv v1.

(** The values [F b l] at the positions [(b, l)] of one channel, batch
    by batch, and those at the positions an activity map [act] marks:
    the reference the statistics are compared with, computed by plain
    filtering. *)
Definition positions {A} (B L : nat) (F : nat -> nat -> A) : list A :=
  flat_map (fun b => map (F b) (seq 0 L)) (seq 0 B).

Definition active {A} (B L : nat) (act : nat -> nat -> bool)
  (F : nat -> nat -> A) : list A :=
  select (positions B L F) (positions B L act).

(** The active elements of channel [c] of a three-dimensional array [x]
    under the broadcast mask [bm]. *)
Definition active_elements (x : ndarray Qc) (bm : ndarray bool)
  (B L c : nat) : list Qc :=
  active B L (fun b l => get3 false bm b c l) (fun b l => get3 0 x b c l).

(** The mask does not depend on the channel. *)
Definition channel_uniform (bm : ndarray bool) (B C L : nat) : Prop :=
  forall b c c' l, (b < B)%nat -> (c < C)%nat -> (c' < C)%nat -> (l < L)%nat ->
    get3 false bm b c l = get3 false bm b c' l.

(** The normal form of a selection: position by position, the piece
    [G b l] where [p b l] holds. *)
Definition pick {A} (B L : nat) (p : nat -> nat -> bool)
  (G : nat -> nat -> list A) : list A :=
  flat_map (fun b => flat_map (fun l => if p b l then G b l else [])
                              (seq 0 L)) (seq 0 B).

(** The number of active positions of channel [c]. *)
Definition n_active (bm : ndarray bool) (B L c : nat) : nat :=
  length (active B L (fun b l => get3 false bm b c l) (fun _ _ => tt)).

(** The normalised input [(x - mean) * inv_std] at a position. *)
Definition x_hat_at (x mean_ inv : ndarray Qc) (b c l : nat) : Qc :=
  (get3 0 x b c l - nth c (data mean_) 0) * nth c (data inv) 0.

(** The product of the axes of [x] behind the channel axes, and the
    channel (an offset in gamma) of the element of [x] at offset [i]. *)
Definition spatial_size (x gamma : ndarray Qc) : nat :=
  prod (skipn (1 + ndim gamma) (shape x)).

Definition channel_of (x gamma : ndarray Qc) (i : nat) : nat :=
  ((i mod (size gamma * spatial_size x gamma)) / spatial_size x gamma)%nat.

(** The sum over the elements of channel [j] of a buffer laid out like
    [x]: the reduction over axis 0 and the axes behind the channel
    axes. *)
Definition channel_sum (x gamma : ndarray Qc) (v : list Qc) (j : nat) : Qc :=
  qsum (select v (map (fun i => channel_of x gamma i =? j)%nat
                      (seq 0 (size x)))).

(** What a FixedBatchNormalizationGrad object may hold of the forward
    call: nothing, or the two arrays the forward call computed. *)
Definition cache_ok (f : FixedBatchNormalizationGrad) (var : ndarray Qc)
  (sqrt : Qc -> Qc) : Prop :=
  match fg_inv_std f, fg_inv_var f with
  | Some s, Some v =>
      v = amap Qcinv (amap (fun a => a + fg_eps f) var) /\ s = amap sqrt v
  | _, _ => True
  end.

(** ** The claims that fail on the code, as the specification words them *)

(** The statistics of a call whose mask marks exactly [k] positions of
    every channel, without any condition on how the mask varies from a
    channel to the next. *)
Definition statistics_claim (rsqrt : Qc -> Qc) (xp : backend)
  (x gamma beta : ndarray Qc) (f : BatchNormalization) (h : heap) : Prop :=
  forall y f' h' B C L mk bm k,
    shape x = [B; C; L] ->
    mask f = Some mk ->
    BatchNormalization_forward rsqrt xp (x, gamma, beta) (f, h)
    = (Ok y, (f', h')) ->
    broadcast_to false mk (shape x) = Ok bm ->
    (forall c, (c < C)%nat -> length (active_elements x bm B L c) = k) ->
    (0 < k)%nat ->
    exists mean_ var,
      mean f' = Some mean_ /\ inv_std f' = Some (amap rsqrt var) /\
      forall c, (c < C)%nat ->
        nth c (data mean_) 0 = mean_list (active_elements x bm B L c) /\
        nth c (data var) 0 = var_list (active_elements x bm B L c) + eps f.

(** The sums of the backward computation, under the same reading. *)
Definition backward_sums_claim (rsqrt : Qc -> Qc) (xp : backend)
  (x gamma beta gy : ndarray Qc) (f : BatchNormalization) (h : heap) : Prop :=
  forall y f' h' B C L mk bm,
    shape x = [B; C; L] -> shape gamma = [C] -> shape gy = [B; C; L] ->
    mask f = Some mk -> orig_mask f = Some mk ->
    BatchNormalization_forward rsqrt xp (x, gamma, beta) (f, h)
    = (Ok y, (f', h')) ->
    broadcast_to false mk (shape x) = Ok bm ->
    exists mean_ inv gx ggamma gbeta,
      mean f' = Some mean_ /\ inv_std f' = Some inv /\
      BatchNormalization_backward xp f' gy = Ok (gx, ggamma, gbeta) /\
      forall c, (c < C)%nat ->
        nth c (data gbeta) 0 = qsum (active_elements gy bm B L c) /\
        nth c (data ggamma) 0
        = qsum (active B L (fun b l => get3 false bm b c l)
                  (fun b l => get3 0 gy b c l * x_hat_at x mean_ inv b c l)).

(** A decay outside [0, 1), or exactly one of running_mean and
    running_var, makes the call fail and leaves the heap as it was. *)
Definition config_error_claim (rsqrt : Qc -> Qc) (xp : backend)
  (should_use_cudnn : bool) (x gamma beta : ndarray Qc) (kw : kwargs)
  (h : heap) : Prop :=
  ~ (0 <= kw_decay kw /\ kw_decay kw < 1) \/
  (kw_running_mean kw = None <-> kw_running_var kw <> None) ->
  exists e,
    batch_normalization rsqrt xp should_use_cudnn x gamma beta kw h
    = (Raise e, h).

(** ** Decision procedures for the side conditions *)

Definition channel_uniformb (bm : ndarray bool) (B C L : nat) : bool :=
  forallb (fun b =>
    forallb (fun c =>
      forallb (fun c' =>
        forallb (fun l =>
          Bool.eqb (get3 false bm b c l) (get3 false bm b c' l))
          (seq 0 L)) (seq 0 C)) (seq 0 C)) (seq 0 B).

(** The value of a computation that returned, [d] otherwise. *)
Definition value {A} (d : A) (r : result A) : A :=
  match r with Ok a => a | Raise _ => d end.

Definition Qc_eqb (a b : Qc) : bool := Qeq_bool a b.

(** ** Sample inputs *)

Definition floats (l : list Z) : list Qc :=
  map (fun z => Q2Qc (inject_Z z)) l.

Definition empty : ndarray Qc := mk_ndarray float32 [0%nat] [].

(** One batch, two channels, three positions. *)
Definition sample_x : ndarray Qc :=
  mk_ndarray float32 [1; 2; 3]%nat (floats [1; 2; 3; 4; 5; 6]%Z).

Definition sample_gy : ndarray Qc :=
  mk_ndarray float32 [1; 2; 3]%nat (floats [1; 0; 2; 1; 3; 1]%Z).

Definition sample_gamma : ndarray Qc :=
  mk_ndarray float32 [2%nat] (floats [2; 3]%Z).

Definition sample_beta : ndarray Qc :=
  mk_ndarray float32 [2%nat] (floats [1; -1]%Z).

(** The first two positions are active, in every channel. *)
Definition row_mask : ndarray bool :=
  mk_ndarray bool_ [1; 1; 3]%nat [true; true; false].

Definition row_mask_full : ndarray bool :=
  mk_ndarray bool_ [1; 2; 3]%nat [true; true; false; true; true; false].

(** Two active positions in each channel, not the same ones. *)
Definition mixed_mask : ndarray bool :=
  mk_ndarray bool_ [1; 2; 3]%nat [true; true; false; false; true; true].

Definition sample_bn (m : ndarray bool) (rm rv : option loc)
  : BatchNormalization :=
  mk_BN rm rv 0 (Some m) (Some m) default_eps default_decay
        None None None 0 [] None.

Definition sample_running_mean : ndarray Qc :=
  mk_ndarray float32 [2%nat] (floats [0; 0]%Z).

Definition sample_running_var : ndarray Qc :=
  mk_ndarray float32 [2%nat] (floats [1; 1]%Z).

Definition sample_heap : heap := [sample_running_mean; sample_running_var].

(** The sample call of the masked forward computation, with the
    reciprocal standing for [v ** (-0.5)]: its result, output, function
    object and heap. *)
Abbreviation sample_run m rm rv h :=
  (BatchNormalization_forward Qcinv numpy
     (sample_x, sample_gamma, sample_beta) (sample_bn m rm rv, h)).

Abbreviation sample_y m rm rv h := (value empty (fst (sample_run m rm rv h))).

Abbreviation sample_after m rm rv h := (fst (snd (sample_run m rm rv h))).

Abbreviation sample_heap_after m rm rv h := (snd (snd (sample_run m rm rv h))).

(** Inputs of the fixed variant: a zero mean and a unit variance. *)
Definition sample_mean : ndarray Qc :=
  mk_ndarray float32 [2%nat] (floats [0; 0]%Z).

Definition sample_var : ndarray Qc :=
  mk_ndarray float32 [2%nat] (floats [1; 1]%Z).

(** The identity stands for [xp.sqrt]: it maps 1 to 1. *)
Definition sample_sqrt (v : Qc) : Qc := v.

(** Inputs the type checks refuse, and inputs without the three axes
    of the masked computation. *)
Definition long_beta : ndarray Qc :=
  mk_ndarray float32 [3%nat] (floats [1; -1; 0]%Z).

Definition double_var : ndarray Qc :=
  mk_ndarray float64 [2%nat] (floats [1; 1]%Z).

Definition flat_x : ndarray Qc :=
  mk_ndarray float32 [2; 3]%nat (floats [1; 2; 3; 4; 5; 6]%Z).

Definition sample_grad : BatchNormalizationGrad :=
  BatchNormalizationGrad_init default_eps None 0 [] None None 0
    (Some row_mask) (Some row_mask).

(** The keyword arguments of a call with decay = 2 and a running_var
    without a running_mean. *)
Definition odd_kwargs : kwargs :=
  mk_kwargs false default_eps None (Some 0%nat) (Q2Qc 2) 0 (Some row_mask).

(** ** The cuDNN helpers *)

(** [libcudnn.CUDNN_BATCHNORM_SPATIAL] and
    [libcudnn.CUDNN_BATCHNORM_PER_ACTIVATION] *)
Inductive cudnn_mode : Type :=
| CUDNN_BATCHNORM_SPATIAL
| CUDNN_BATCHNORM_PER_ACTIVATION.

(** [_BNMode.get_cudnn_mode]: [assert self.cudnn_dim_ok] failing
    (an AssertionError) is [None]. *)
Definition BNMode_get_cudnn_mode (self : BNMode) : option cudnn_mode :=
  if cudnn_dim_ok self then
    if is_for_conv2d self then Some CUDNN_BATCHNORM_SPATIAL
    else Some CUDNN_BATCHNORM_PER_ACTIVATION
  else None.

(** [_BNMode.can_use_cudnn(xp)]; [cudnn_5000] is
    [chainer.should_use_cudnn('>=auto', 5000)]. *)
Definition BNMode_can_use_cudnn (cudnn_5000 : bool) (xp : backend)
  (self : BNMode) : bool :=
  negb (is_numpy xp) && cudnn_5000 && cudnn_dim_ok self
  && cudnn_dtype_ok self.

Definition _get_mode {A} (x gamma : ndarray A) : cudnn_mode :=
  if ((ndim x =? 4) && (ndim gamma =? 1))%nat
  then CUDNN_BATCHNORM_SPATIAL
  else CUDNN_BATCHNORM_PER_ACTIVATION.

(** [_as4darray(arr)].  [arr.reshape(arr.shape[0], -1, 1, 1)] raises
    ValueError when the first axis is empty: numpy cannot infer the
    axis marked -1 then. *)
Definition _as4darray {A} (arr : ndarray A) : result (ndarray A) :=
  match shape arr with
  | [] => Ok (mk_ndarray (dtype_of arr) [1; 1; 1; 1]%nat (data arr))
  | [_; _; _; _] => Ok arr
  | n0 :: rest =>
      if (n0 =? 0)%nat then Raise ValueError
      else Ok (mk_ndarray (dtype_of arr) [n0; prod rest; 1; 1]%nat
                          (data arr))
  end.

(** More sample inputs: a mask without an active position and one that
    marks a single element; the sample x with other values at the
    masked third position, and the sample gy likewise; an integer x; the sample gamma with four
    axes; a gradient object that holds statistics. *)
Definition empty_mask : ndarray bool :=
  mk_ndarray bool_ [1; 1; 3]%nat [false; false; false].

Definition empty_mask_full : ndarray bool :=
  mk_ndarray bool_ [1; 2; 3]%nat [false; false; false; false; false; false].

Definition lone_mask : ndarray bool :=
  mk_ndarray bool_ [1; 2; 3]%nat [true; false; false; false; false; false].

Definition sample_x_padded : ndarray Qc :=
  mk_ndarray float32 [1; 2; 3]%nat (floats [1; 2; 99; 4; 5; -7]%Z).

Definition sample_gy_padded : ndarray Qc :=
  mk_ndarray float32 [1; 2; 3]%nat (floats [1; 0; 50; 1; 3; -4]%Z).

Definition int_x : ndarray Qc :=
  mk_ndarray int32 [1; 2; 3]%nat (floats [1; 2; 3; 4; 5; 6]%Z).

Definition sample_gamma_4d : ndarray Qc :=
  mk_ndarray float32 [2; 1; 1; 1]%nat (data sample_gamma).


(** The sample calls of the fixed variant. *)
Abbreviation fixed_run :=
  (FixedBatchNormalization_apply sample_sqrt numpy
     (sample_x, sample_gamma, sample_beta, sample_mean, sample_var)
     (FixedBatchNormalization_init 0)).

Abbreviation fixed_grads :=
  (value (empty, empty, empty, empty, empty)
     (fst (FixedBatchNormalizationGrad_forward sample_sqrt
             (sample_x, sample_gamma, sample_mean, sample_var, sample_gy)
             (FixedBatchNormalizationGrad_init 0 1 [0; 2]%nat None None)))).

(** * Proofs *)

Section Proofs.

Variable rsqrt : Qc -> Qc.
Variable sqrt : Qc -> Qc.
Variable xp : backend.
Variable should_use_cudnn : bool.

(** ** Lists and offsets *)

Lemma nth_map_seq {A} (f : nat -> A) (n i : nat) (d : A) :
  (i < n)%nat -> nth i (map f (seq 0 n)) d = f i.
Proof.
  intros Hi.
  rewrite (nth_indep _ d (f 0%nat)) by (rewrite length_map, length_seq; exact Hi).
  rewrite map_nth, seq_nth by exact Hi.
  reflexivity.
Qed.

Lemma map_nth_seq {A} (l : list A) (d : A) :
  map (fun i => nth i l d) (seq 0 (length l)) = l.
Proof.
  induction l as [|a l IH]; simpl; [reflexivity|].
  f_equal. rewrite <- seq_shift, map_map. exact IH.
Qed.

Lemma pad_same (s : list nat) : pad (length s) s = s.
Proof. unfold pad. rewrite Nat.sub_diag. reflexivity. Qed.

Lemma shape_eqb_refl (s : list nat) : shape_eqb s s = true.
Proof. unfold shape_eqb. destruct (list_eq_dec Nat.eq_dec s s); congruence. Qed.

Lemma shape_eqb_eq (s t : list nat) : shape_eqb s t = true -> s = t.
Proof. unfold shape_eqb. destruct (list_eq_dec Nat.eq_dec s t); congruence. Qed.

Lemma prod_app (s t : list nat) : prod (s ++ t) = (prod s * prod t)%nat.
Proof.
  induction s as [|d s IH]; simpl; [lia|]. rewrite IH. lia.
Qed.

Lemma prod_ones (k : nat) : prod (repeat 1%nat k) = 1%nat.
Proof. induction k as [|k IH]; simpl; [reflexivity|]. rewrite IH. reflexivity. Qed.

(** Reading an array of its own shape through [bidx] is the identity. *)
Lemma bidx_same (s : list nat) : forall i, (i < prod s)%nat -> bidx s s i = i.
Proof.
  induction s as [|d s IH]; intros i Hi; simpl in *.
  - lia.
  - assert (Hp : (0 < prod s)%nat) by (destruct (prod s); lia).
    rewrite IH by (apply Nat.mod_upper_bound; lia).
    destruct (Nat.eqb_spec d 1) as [->|Hd].
    + rewrite Nat.mod_small by lia. lia.
    + pose proof (Nat.div_mod_eq i (prod s)). lia.
Qed.

Lemma compatible_length (t s : list nat) :
  compatible t s = true -> length t = length s.
Proof.
  revert s; induction t as [|a t IH]; intros [|b s] H; simpl in *;
    try discriminate; [reflexivity|].
  apply andb_true_iff in H as [_ H]. f_equal. apply IH, H.
Qed.

Lemma compatible_refl (s : list nat) : compatible s s = true.
Proof.
  induction s as [|d s IH]; simpl; [reflexivity|].
  rewrite Nat.eqb_refl, IH. reflexivity.
Qed.

Lemma bshape_aux_compat (t s : list nat) :
  compatible t s = true ->
  bshape_aux s t = Some s /\ bshape_aux t s = Some s.
Proof.
  revert s; induction t as [|a t IH]; intros [|b s] H;
    cbn [bshape_aux compatible] in *; try discriminate; [split; reflexivity|].
  apply andb_true_iff in H as [Hd H].
  destruct (IH _ H) as [-> ->].
  apply orb_true_iff in Hd as [Hd|Hd]; apply Nat.eqb_eq in Hd; subst.
  - rewrite Nat.eqb_refl. split; reflexivity.
  - rewrite Nat.eqb_refl.
    destruct (Nat.eqb_spec b 1) as [->|Hb]; [split; reflexivity|].
    destruct (Nat.eqb_spec 1 b); [lia|]. split; reflexivity.
Qed.

Lemma bshape_compat_r (s t : list nat) :
  compatible t s = true -> bshape s t = Some s.
Proof.
  intros H. unfold bshape. rewrite (compatible_length _ _ H), Nat.max_id.
  rewrite pad_same. rewrite <- (compatible_length _ _ H), pad_same.
  apply bshape_aux_compat, H.
Qed.

Lemma bshape_compat_l (s t : list nat) :
  compatible t s = true -> bshape t s = Some s.
Proof.
  intros H. unfold bshape. rewrite (compatible_length _ _ H), Nat.max_id.
  rewrite pad_same. rewrite <- (compatible_length _ _ H), pad_same.
  apply bshape_aux_compat, H.
Qed.

(** An elementwise operation whose right operand is broadcast to the
    shape of the left one. *)
Lemma binop_r (f : Qc -> Qc -> Qc) (a b : ndarray Qc) :
  compatible (shape b) (shape a) = true ->
  binop f a b =
  Ok (mk_ndarray (dtype_of a) (shape a)
        (map (fun i => f (nth i (data a) 0)
                         (nth (bidx (shape b) (shape a) i) (data b) 0))
             (seq 0 (size a)))).
Proof.
  intros H. unfold binop. rewrite (bshape_compat_r _ _ H).
  do 2 f_equal. apply map_ext_in. intros i Hi. apply in_seq in Hi.
  rewrite pad_same. rewrite <- (compatible_length _ _ H), pad_same.
  rewrite bidx_same by (unfold size in Hi; lia). reflexivity.
Qed.

Lemma binop_l (f : Qc -> Qc -> Qc) (a b : ndarray Qc) :
  compatible (shape a) (shape b) = true ->
  binop f a b =
  Ok (mk_ndarray (dtype_of a) (shape b)
        (map (fun i => f (nth (bidx (shape a) (shape b) i) (data a) 0)
                         (nth i (data b) 0))
             (seq 0 (size b)))).
Proof.
  intros H. unfold binop. rewrite (bshape_compat_l _ _ H).
  do 2 f_equal. apply map_ext_in. intros i Hi. apply in_seq in Hi.
  rewrite pad_same. rewrite <- (compatible_length _ _ H), pad_same.
  rewrite bidx_same by (unfold size in Hi; lia). reflexivity.
Qed.

Lemma iop_r (f : Qc -> Qc -> Qc) (a b : ndarray Qc) :
  compatible (shape b) (shape a) = true ->
  iop f a b =
  Ok (mk_ndarray (dtype_of a) (shape a)
        (map (fun i => f (nth i (data a) 0)
                         (nth (bidx (shape b) (shape a) i) (data b) 0))
             (seq 0 (size a)))).
Proof.
  intros H. unfold iop. rewrite (bshape_compat_r _ _ H), shape_eqb_refl.
  apply binop_r, H.
Qed.

(** Whatever the operands, a successful elementwise operation has one
    value per position of its shape, and an in-place one keeps the shape
    of its target. *)
Lemma binop_data (f : Qc -> Qc -> Qc) (a b r : ndarray Qc) :
  binop f a b = Ok r ->
  data r =
  map (fun i => f (nth (bidx (pad (ndim r) (shape a)) (shape r) i) (data a) 0)
                  (nth (bidx (pad (ndim r) (shape b)) (shape r) i) (data b) 0))
      (seq 0 (size r)).
Proof.
  unfold binop. destruct (bshape (shape a) (shape b)) as [s|]; [|discriminate].
  intros [= <-]. reflexivity.
Qed.

Lemma iop_shape (f : Qc -> Qc -> Qc) (a b r : ndarray Qc) :
  iop f a b = Ok r -> shape r = shape a.
Proof.
  unfold iop, binop.
  destruct (bshape (shape a) (shape b)) as [s|]; [|discriminate].
  destruct (shape_eqb s (shape a)) eqn:E; [|discriminate].
  intros [= <-]. simpl. apply shape_eqb_eq, E.
Qed.

(** ** Type checks *)

Lemma expect_false (conds : list bool) :
  In false conds -> expect conds = Raise InvalidType.
Proof.
  intros H. unfold expect.
  destruct (forallb (fun c => c) conds) eqn:E; [|reflexivity].
  rewrite forallb_forall in E. specialize (E _ H). discriminate.
Qed.

Lemma dtype_eqb_neq (a b : dtype) : a <> b -> dtype_eqb a b = false.
Proof. destruct a, b; simpl; congruence. Qed.

Lemma dtype_eqb_eq (a b : dtype) : dtype_eqb a b = true -> a = b.
Proof. destruct a, b; simpl; congruence. Qed.

Lemma shape_eqb_neq (s t : list nat) : s <> t -> shape_eqb s t = false.
Proof. unfold shape_eqb. destruct (list_eq_dec Nat.eq_dec s t); congruence. Qed.

Lemma masked_check_rejects (x gamma beta : ndarray Qc) :
  ~ masked_types_ok x gamma beta ->
  BatchNormalization_check_type_forward
    [type_of x; type_of gamma; type_of beta] = Raise InvalidType.
Proof.
  intros H. unfold BatchNormalization_check_type_forward.
  cbn [length Nat.eqb expect forallb andb rbind].
  apply expect_false. unfold ti_ndim. cbn [type_of ti_dtype ti_shape].
  destruct (list_eq_dec Nat.eq_dec (shape gamma) (shape beta)) as [Hs|Hs].
  2:{ rewrite (shape_eqb_neq Hs). simpl. tauto. }
  destruct (le_lt_dec (ndim gamma + 1) (ndim x)) as [Hn|Hn].
  2:{ apply Nat.leb_gt in Hn. unfold ndim in Hn. rewrite Hn. simpl. tauto. }
  destruct (dtype_eqb (dtype_of gamma) (dtype_of x)) eqn:Eg.
  2:{ simpl. tauto. }
  destruct (dtype_eqb (dtype_of beta) (dtype_of x)) eqn:Eb.
  2:{ simpl. tauto. }
  exfalso. apply H. unfold masked_types_ok.
  auto using dtype_eqb_eq.
Qed.

Lemma fixed_check_rejects (x gamma beta mean var : ndarray Qc) :
  ~ fixed_types_ok x gamma beta mean var ->
  FixedBatchNormalization_check_type_forward
    [type_of x; type_of gamma; type_of beta; type_of mean; type_of var]
  = Raise InvalidType.
Proof.
  intros H. unfold FixedBatchNormalization_check_type_forward.
  cbn [length Nat.eqb expect forallb andb rbind].
  apply expect_false. unfold ti_ndim. cbn [type_of ti_dtype ti_shape].
  destruct (list_eq_dec Nat.eq_dec (shape gamma) (shape beta)) as [Hs|Hs].
  2:{ rewrite (shape_eqb_neq Hs). simpl. tauto. }
  destruct (le_lt_dec (ndim gamma + 1) (ndim x)) as [Hn|Hn].
  2:{ apply Nat.leb_gt in Hn. unfold ndim in Hn. rewrite Hn. simpl. tauto. }
  destruct (dtype_eqb (dtype_of gamma) (dtype_of x)) eqn:Eg.
  2:{ simpl. tauto. }
  destruct (dtype_eqb (dtype_of beta) (dtype_of x)) eqn:Eb.
  2:{ simpl. tauto. }
  destruct (dtype_eqb (dtype_of mean) (dtype_of x)) eqn:Em.
  2:{ simpl. tauto. }
  destruct (dtype_eqb (dtype_of var) (dtype_of x)) eqn:Ev.
  2:{ simpl. tauto. }
  exfalso. apply H. unfold fixed_types_ok, masked_types_ok.
  auto 10 using dtype_eqb_eq.
Qed.

(** C7. A forward call of either variant whose inputs violate an input
    invariant (the shapes of gamma and beta differ, x has fewer than
    gamma.ndim + 1 axes, or the dtype of gamma or beta, or for the fixed
    variant of mean or var, is not the dtype of x) raises InvalidType,
    chainer's shape error, and leaves the function object and the heap as
    they were: nothing has been computed or mutated. *)
Theorem C7_invalid_inputs_raise_before_computation :
  (forall x gamma beta (s : BNState),
      ~ masked_types_ok x gamma beta ->
      BatchNormalization_apply rsqrt xp (x, gamma, beta) s
      = (Raise InvalidType, s)) /\
  (forall x gamma beta mean var (s : FixedBatchNormalization),
      ~ fixed_types_ok x gamma beta mean var ->
      FixedBatchNormalization_apply sqrt xp (x, gamma, beta, mean, var) s
      = (Raise InvalidType, s)).
Proof.
  split.
  - intros x gamma beta s H.
    unfold BatchNormalization_apply, bind, lift.
    rewrite (masked_check_rejects H). reflexivity.
  - intros x gamma beta mean var s H.
    unfold FixedBatchNormalization_apply, bind, lift.
    rewrite (fixed_check_rejects H). reflexivity.
Qed.

(** ** Arrays that do not have three axes *)

Lemma transpose_not_3d {A} (d : A) (a : ndarray A) :
  ndim a <> 3%nat -> transpose_0_2_1 d a = Raise ValueError.
Proof.
  unfold transpose_0_2_1, ndim.
  destruct (shape a) as [|n0 [|n1 [|n2 [|n3 s]]]]; simpl; intros H;
    try reflexivity.
  congruence.
Qed.

Lemma broadcast_to_error {A} (d : A) (a : ndarray A) (s : list nat) :
  forall e, broadcast_to d a s = Raise e -> e = ValueError.
Proof.
  unfold broadcast_to. destruct (broadcastable (shape a) s); congruence.
Qed.

(** C9. The type check accepts an x with any number of axes from
    gamma.ndim + 1 on, but the masked forward transposes the axes
    (0, 2, 1) of x: for every x whose number of axes is not three the
    forward call raises ValueError and returns no output, whatever the
    other inputs are; the backward computation raises it likewise for a
    gy that does not have three axes. *)
Theorem C9_masked_forward_needs_three_axes :
  (forall x gamma beta (s : BNState),
      ndim x <> 3%nat ->
      fst (BatchNormalization_forward rsqrt xp (x, gamma, beta) s)
      = Raise ValueError) /\
  (forall self x gamma gy,
      ndim gy <> 3%nat ->
      BatchNormalizationGrad_forward xp self (x, gamma, gy)
      = Raise ValueError).
Proof.
  split.
  - intros x gamma beta [f h] Hx.
    unfold BatchNormalization_forward, bind, upd_self, modify, get, lift, ret,
      alloc.
    cbn [fst snd set_retained running_mean mask].
    rewrite (transpose_not_3d 0 x Hx).
    destruct (running_mean f); cbn [fst snd set_running_mean set_running_var
      set_plan mask upd_heap];
      (destruct (mask f) as [m|]; cbn [on_mask rbind];
       [ destruct (broadcast_to false m (shape x)) eqn:E; cbn [rbind fst];
         [reflexivity | f_equal; eapply broadcast_to_error, E]
       | reflexivity ]).
  - intros self x gamma gy Hg.
    unfold BatchNormalizationGrad_forward.
    rewrite (transpose_not_3d 0 gy Hg). reflexivity.
Qed.

(** ** Three-dimensional arrays *)

Lemma length_flat_map_const {A B} (f : A -> list B) (l : list A) (n : nat) :
  (forall x, length (f x) = n) -> length (flat_map f l) = (length l * n)%nat.
Proof.
  intros H. induction l as [|x l IH]; simpl; [reflexivity|].
  rewrite length_app, H, IH. reflexivity.
Qed.

Lemma length_build3 {A} (n0 n1 n2 : nat) (f : nat -> nat -> nat -> A) :
  length (build3 n0 n1 n2 f) = (n0 * (n1 * (n2 * 1)))%nat.
Proof.
  unfold build3.
  rewrite (length_flat_map_const _ _ (n := (n1 * (n2 * 1))%nat)).
  - rewrite length_seq. reflexivity.
  - intros i. rewrite (length_flat_map_const _ _ (n := (n2 * 1)%nat)).
    + rewrite length_seq. reflexivity.
    + intros j. rewrite length_map, length_seq. lia.
Qed.

Lemma transpose_3d {A} (d : A) (a : ndarray A) (n0 n1 n2 : nat) :
  shape a = [n0; n1; n2] ->
  transpose_0_2_1 d a =
  Ok (mk_ndarray (dtype_of a) [n0; n2; n1]
        (build3 n0 n2 n1 (fun i k j => get3 d a i j k))).
Proof. intros H. unfold transpose_0_2_1. rewrite H. reflexivity. Qed.

Lemma gather_same {A} (d : A) (s : list nat) (buf : list A) :
  length buf = prod s -> gather d s s buf = buf.
Proof.
  intros H. unfold gather. rewrite pad_same.
  transitivity (map (fun i => nth i buf d) (seq 0 (length buf)));
    [|apply map_nth_seq].
  rewrite H. apply map_ext_in. intros i Hi. apply in_seq in Hi.
  rewrite bidx_same by lia. reflexivity.
Qed.

Lemma broadcastable_refl (s : list nat) : broadcastable s s = true.
Proof.
  unfold broadcastable. rewrite Nat.leb_refl, pad_same, compatible_refl.
  reflexivity.
Qed.

Lemma broadcast_to_same {A} (d : A) (a : ndarray A) :
  wf a -> broadcast_to d a (shape a) = Ok a.
Proof.
  intros H. unfold broadcast_to. rewrite broadcastable_refl.
  rewrite gather_same by exact H. destruct a; reflexivity.
Qed.

Lemma size_expand {A} (k : nat) (a : ndarray A) : size (expand k a) = size a.
Proof.
  unfold size, expand. cbn [shape prod fold_right].
  fold (prod (shape a ++ repeat 1%nat k)).
  rewrite prod_app, prod_ones. fold (prod (shape a)). lia.
Qed.

(** ** The heap *)

Lemma nth_error_update_eq {A} (l : list A) (n : nat) (a v : A) :
  nth_error l n = Some a -> nth_error (update l n v) n = Some v.
Proof.
  revert n; induction l as [|x l IH]; intros [|n] H; simpl in *;
    try discriminate; [reflexivity|]. apply IH, H.
Qed.

Lemma nth_error_update_neq {A} (l : list A) (n m : nat) (v : A) :
  n <> m -> nth_error (update l n v) m = nth_error l m.
Proof.
  revert n m; induction l as [|x l IH]; intros [|n] [|m] H; simpl;
    try reflexivity; try congruence.
  apply IH. congruence.
Qed.

Lemma update_update {A} (l : list A) (n : nat) (v w : A) :
  update (update l n v) n w = update l n w.
Proof.
  revert n; induction l as [|x l IH]; intros [|n]; simpl; try reflexivity.
  f_equal. apply IH.
Qed.

Lemma length_update {A} (l : list A) (n : nat) (v : A) :
  length (update l n v) = length l.
Proof.
  revert n; induction l as [|x l IH]; intros [|n]; simpl; try reflexivity.
  f_equal. apply IH.
Qed.

Lemma inplace_ok (attr : option loc) g (fs : BatchNormalization) (hs : heap)
  (u : unit) (s' : BNState) :
  inplace attr g (fs, hs) = (Ok u, s') ->
  exists l a a', attr = Some l /\ nth_error hs l = Some a /\ g a = Ok a'
                 /\ s' = (fs, update hs l a').
Proof.
  unfold inplace. destruct attr as [l|]; [|discriminate]. cbn [fst snd].
  destruct (nth_error hs l) as [a|] eqn:En; [|discriminate].
  destruct (g a) as [a'|] eqn:E; [|discriminate].
  intros [= _ <-]. exists l, a, a'. repeat split; assumption.
Qed.

(** ** What a successful masked forward call has done *)

Ltac step H :=
  cbv beta iota in H;
  match type of H with
  | (let (_, _) := ?c in _) = _ =>
      let E := fresh "E" in
      destruct c as [[?|?] ?] eqn:E; [|discriminate H]
  | match ?c with Ok _ => _ | Raise _ => _ end = _ =>
      let E := fresh "E" in
      destruct c eqn:E; [|discriminate H]
  end.

Lemma on_mask_some (g : ndarray bool -> result (ndarray bool)) m r :
  on_mask g (Some m) = Ok r -> exists m', g m = Ok m' /\ r = Some m'.
Proof.
  unfold on_mask, rbind. destruct (g m) as [m'|]; [|discriminate].
  intros [= <-]. eauto.
Qed.

Lemma forward_inv x gamma beta f h y f' h' B C L mk :
  shape x = [B; C; L] ->
  mask f = Some mk ->
  BatchNormalization_forward rsqrt xp (x, gamma, beta) (f, h)
  = (Ok y, (f', h')) ->
  exists bm xT mT ax y0 m h1 om,
    let mean_ := mean_axis0 ax in
    let var := amap (fun v => v + eps f) (var_axis0 ax) in
    let e := (ndim x - (ndim gamma + 1))%nat in
    broadcast_to false mk [B; C; L] = Ok bm /\
    transpose_0_2_1 0 x = Ok xT /\
    transpose_0_2_1 false bm = Ok mT /\
    masked_rows xT (Some mT) C = Ok ax /\
    mean f' = Some mean_ /\
    inv_std f' = Some (amap rsqrt var) /\
    mask f' = Some mT /\
    orig_mask f' = orig_mask f /\
    retained f' = Some (x, gamma) /\
    expander f' = e /\
    _apply_bn_fwd xp x (expand e mean_) (expand e (amap rsqrt var))
                  (expand e gamma) (expand e beta) = Ok y0 /\
    floordiv (size ax) (size gamma) = Ok m /\
    running_init f h gamma (running_mean f') (running_var f') h1 /\
    running_update h1 (running_mean f') (running_var f') (decay f)
                   mean_ var m h' /\
    orig_mask f = Some om /\
    iop Qcmult y0 (astype_float (dtype_of y0) om) = Ok y.
Proof.
  intros Hx Hm H.
  unfold BatchNormalization_forward in H.
  unfold bind, upd_self, modify, get, lift, ret in H.
  cbn [fst snd running_mean set_retained mask] in H.
  rewrite Hm, Hx in H.
  (* the running statistics *)
  match type of H with
  | (let (_, _) := ?c in _) = _ =>
      assert (Hinit : exists rm rv h1 f1,
        running_init f h gamma rm rv h1 /\
        f1 = set_running_var rv (set_running_mean rm
               (set_retained (Some (x, gamma)) f)) /\
        c = (Ok tt, (f1, h1)))
  end.
  { unfold running_init. destruct f as [rm0 rv0 al0 m0 om0 e0 d0 mn0 is0 md0 ex0 ax0 rt0].
    cbn [running_mean running_var]. destruct rm0 as [l|].
    - exists (Some l), rv0, h. eexists. split; [auto|]. split; reflexivity.
    - exists (Some (length h)), (Some (S (length h))),
        (h ++ [zeros_like gamma; zeros_like gamma]). eexists.
      split; [auto|]. split; [reflexivity|].
      unfold alloc, upd_heap. cbn [fst snd]. rewrite length_app.
      cbn [length]. rewrite Nat.add_1_r, <- app_assoc. reflexivity. }
  destruct Hinit as (rm & rv & h1 & f1 & Hinit & Hf1 & Heq).
  rewrite Heq in H. clear Heq. cbn [fst snd] in H.
  step H. apply on_mask_some in E as (bm & Ebm & ->).
  step H. rename a into xT, E into ExT.
  step H. apply on_mask_some in E as (mT & EmT & ->).
  pose proof ExT as ExT'. rewrite (transpose_3d 0 x Hx) in ExT'.
  injection ExT' as ExT'.
  assert (Hbm : shape bm = [B; C; L]).
  { unfold broadcast_to in Ebm.
    destruct (broadcastable (shape mk) [B; C; L]); [|discriminate].
    injection Ebm as <-. reflexivity. }
  pose proof EmT as EmT'. rewrite (transpose_3d false bm Hbm) in EmT'.
  injection EmT' as EmT'.
  step H. apply on_mask_some in E as (m3 & Em3 & ->).
  assert (m3 = mT).
  { assert (Hs : shape xT = shape mT) by (subst xT mT; reflexivity).
    rewrite Hs, broadcast_to_same in Em3; [congruence|].
    subst mT. unfold wf, size. cbn [data shape prod fold_right].
    apply length_build3. }
  subst m3.
  assert (HC : nth 2 (shape xT) 0%nat = C) by (subst xT; reflexivity).
  rewrite HC in H.
  step H. rename a into ax, E into Eax.
  cbn [eps set_mean set_mask set_plan] in H.
  step H. rename a into y0, E into Ey0.
  rewrite size_expand in H.
  step H. rename a into m, E into Em.
  cbn [running_mean running_var decay eps set_inv_std set_mean set_mask
       set_plan orig_mask] in H.
  step H. destruct a. apply inplace_ok in E as (lm & r0 & r0' & Hlm & Hr0 & Hr0' & ->).
  step H. destruct a. apply inplace_ok in E as (lm' & r0b & r1 & Hlm' & Hr0b & Hr1 & ->).
  step H. destruct a. apply inplace_ok in E as (lv & v0 & v0' & Hlv & Hv0 & Hv0' & ->).
  step H. destruct a. apply inplace_ok in E as (lv' & v0b & v1 & Hlv' & Hv0b & Hv1 & ->).
  cbn [fst snd orig_mask set_inv_std set_mean set_mask set_plan] in H.
  step H. rename a into om.
  step H.
  injection H as <- <- <-.
  assert (lm' = lm) by congruence. assert (lv' = lv) by congruence. subst lm' lv'.
  injection Hr0' as <-. injection Hv0' as <-.
  rewrite (nth_error_update_eq _ _ _ Hr0) in Hr0b. injection Hr0b as <-.
  rewrite (nth_error_update_eq _ _ _ Hv0) in Hv0b. injection Hv0b as <-.
  rewrite update_update in Hv0. rewrite !update_update.
  assert (Hfields : eps f1 = eps f /\ decay f1 = decay f /\
                    orig_mask f1 = orig_mask f /\ running_mean f1 = rm /\
                    running_var f1 = rv).
  { subst f1. repeat split. }
  destruct Hfields as (He & Hd & Ho & Hrm & Hrv).
  rewrite He, Hd, Ho, Hrm, Hrv in *.
  exists bm, xT, mT, ax, y0, m, h1, om. cbn zeta.
  cbn [mean inv_std mask orig_mask retained expander running_mean running_var
       set_inv_std set_mean set_mask set_plan].
  rewrite Ho, Hrm, Hrv.
  assert (Hret : retained f1 = Some (x, gamma)) by (subst f1; reflexivity).
  repeat (split; [first [assumption|reflexivity]|]).
  split.
  { exists lm, lv, r0, r1, v0, v1. repeat (split; [assumption|]).
    reflexivity. }
  split; [|assumption].
  destruct (orig_mask f); [injection E as ->; reflexivity|discriminate].
Qed.

(** ** Elementwise operations on a successful call *)

Lemma iop_data (f : Qc -> Qc -> Qc) (a b r : ndarray Qc) :
  iop f a b = Ok r ->
  shape r = shape a /\
  data r = map (fun i => f (nth i (data a) 0)
                           (nth (bidx (pad (ndim a) (shape b)) (shape a) i)
                                (data b) 0))
               (seq 0 (size a)).
Proof.
  intros H. pose proof (iop_shape _ _ _ H) as Hs. split; [exact Hs|].
  unfold iop in H.
  destruct (bshape (shape a) (shape b)) as [s|]; [|discriminate].
  destruct (shape_eqb s (shape a)); [|discriminate].
  rewrite (binop_data _ _ _ H). unfold size, ndim. rewrite Hs.
  apply map_ext_in. intros i Hi. apply in_seq in Hi.
  rewrite pad_same.
  assert (Hlt : (i < prod (shape a))%nat) by lia.
  rewrite (bidx_same (shape a) Hlt). reflexivity.
Qed.

Lemma nth_of_bool (l : list bool) (j : nat) :
  nth j (map of_bool l) 0 = of_bool (nth j l false).
Proof. apply (map_nth of_bool l false j). Qed.

Lemma offset3_lt (B C L b c l : nat) :
  (b < B -> c < C -> l < L -> (b * C + c) * L + l < B * (C * (L * 1)))%nat.
Proof.
  intros Hb Hc Hl.
  assert (H1 : (b * C + c + 1 <= B * C)%nat).
  { apply Nat.le_trans with ((b + 1) * C)%nat; [lia|].
    apply Nat.mul_le_mono_r. lia. }
  assert (H2 : ((b * C + c + 1) * L <= B * C * L)%nat)
    by (apply Nat.mul_le_mono_r; exact H1).
  lia.
Qed.

(** The normalisation with channel-shaped parameters: every operand other
    than x has the shape [t], which broadcasts to the shape of x. *)
Lemma apply_bn_fwd_compat (x mean_ inv gamma beta : ndarray Qc) (t : list nat) :
  shape mean_ = t -> shape inv = t -> shape gamma = t -> shape beta = t ->
  compatible t (shape x) = true ->
  exists y,
    _apply_bn_fwd xp x mean_ inv gamma beta = Ok y /\
    shape y = shape x /\
    dtype_of y = dtype_of gamma /\
    forall i, (i < size x)%nat ->
      let j := bidx t (shape x) i in
      nth i (data y) 0 =
      nth j (data gamma) 0
      * ((nth i (data x) 0 - nth j (data mean_) 0) * nth j (data inv) 0)
      + nth j (data beta) 0.
Proof.
  intros Hm Hi Hg Hb Hc.
  unfold _apply_bn_fwd, _x_hat.
  destruct xp; cbn [is_numpy].
  - rewrite binop_r by (rewrite Hm; exact Hc). cbn [rbind].
    rewrite iop_r by (cbn [shape]; rewrite Hi; exact Hc). cbn [rbind].
    rewrite binop_l by (cbn [shape]; rewrite Hg; exact Hc). cbn [rbind].
    rewrite iop_r by (cbn [shape]; rewrite Hb; exact Hc).
    eexists. split; [reflexivity|]. cbn [shape dtype_of data size].
    split; [reflexivity|]. split; [reflexivity|].
    intros i Hlt. cbv zeta. unfold size in *.
    rewrite Hm, Hi, Hg, Hb.
    rewrite nth_map_seq by exact Hlt.
    rewrite nth_map_seq by exact Hlt.
    rewrite nth_map_seq by exact Hlt.
    rewrite nth_map_seq by exact Hlt.
    reflexivity.
  - rewrite binop_r by (rewrite Hm; exact Hc). cbn [rbind].
    rewrite binop_l by (cbn [shape]; rewrite Hg; exact Hc). cbn [rbind].
    rewrite binop_r by (cbn [shape]; rewrite Hi; exact Hc). cbn [rbind].
    rewrite binop_r by (cbn [shape]; rewrite Hb; exact Hc).
    eexists. split; [reflexivity|]. cbn [shape dtype_of data size].
    split; [reflexivity|]. split; [reflexivity|].
    intros i Hlt. cbv zeta. unfold size in *.
    rewrite Hm, Hi, Hg, Hb. cbn [shape data].
    rewrite nth_map_seq by exact Hlt.
    rewrite nth_map_seq by exact Hlt.
    rewrite nth_map_seq by exact Hlt.
    rewrite nth_map_seq by exact Hlt.
    ring.
Qed.

Lemma masked_rows_shape a m c r :
  masked_rows a m c = Ok r ->
  exists n, shape r = [n; c] /\ c <> 0%nat /\ (size r = n * c)%nat.
Proof.
  unfold masked_rows, option_result, rbind, bool_index, reshape_rows.
  destruct m as [m|]; [|discriminate].
  destruct (shape_eqb (shape m) (shape a)); [|discriminate].
  destruct c as [|c]; [discriminate|].
  match goal with |- context [if ?b then _ else _] => destruct b; [|discriminate] end.
  intros [= <-]. eexists. cbn [shape]. split; [reflexivity|].
  split; [discriminate|]. unfold size. cbn [shape prod fold_right]. lia.
Qed.

Lemma shape_mean_axis0 a n c : shape a = [n; c] -> shape (mean_axis0 a) = [c].
Proof. intros H. unfold mean_axis0, rows_cols. rewrite H. reflexivity. Qed.

Lemma shape_var_axis0 a n c : shape a = [n; c] -> shape (var_axis0 a) = [c].
Proof. intros H. unfold var_axis0, rows_cols. rewrite H. reflexivity. Qed.

Lemma shape_sum_axis0 a n c : shape a = [n; c] -> shape (sum_axis0 a) = [c].
Proof. intros H. unfold sum_axis0, rows_cols. rewrite H. reflexivity. Qed.

Lemma compatible_channel (B C L : nat) :
  compatible [1; C; 1]%nat [B; C; L] = true.
Proof.
  cbn [compatible]. rewrite !Nat.eqb_refl, ?orb_true_r. reflexivity.
Qed.



(** ** Boolean selection on arrays built position by position *)

Lemma select_app {A} (l1 l2 : list A) (m1 m2 : list bool) :
  length l1 = length m1 ->
  select (l1 ++ l2) (m1 ++ m2) = select l1 m1 ++ select l2 m2.
Proof.
  revert m1; induction l1 as [|x l1 IH]; intros [|b m1] H; simpl in *;
    try discriminate; [reflexivity|].
  injection H as H. rewrite (IH _ H). destruct b; reflexivity.
Qed.

Lemma select_flat_map {A I} (f : I -> list A) (g : I -> list bool)
  (l : list I) :
  (forall i, length (f i) = length (g i)) ->
  select (flat_map f l) (flat_map g l)
  = flat_map (fun i => select (f i) (g i)) l.
Proof.
  intros H. induction l as [|i l IH]; simpl; [reflexivity|].
  rewrite select_app by apply H. rewrite IH. reflexivity.
Qed.

Lemma select_map_const {A I} (f : I -> A) (b : bool) (l : list I) :
  select (map f l) (map (fun _ => b) l) = if b then map f l else [].
Proof.
  induction l as [|i l IH]; simpl; [destruct b; reflexivity|].
  rewrite IH. destruct b; reflexivity.
Qed.

Lemma select_map_map {A I} (f : I -> A) (p : I -> bool) (l : list I) :
  select (map f l) (map p l) = flat_map (fun i => if p i then [f i] else []) l.
Proof.
  induction l as [|i l IH]; simpl; [reflexivity|].
  rewrite IH. destruct (p i); reflexivity.
Qed.

Lemma concat_flat_map' {A I} (f : I -> list (list A)) (l : list I) :
  concat (flat_map f l) = flat_map (fun i => concat (f i)) l.
Proof.
  induction l as [|i l IH]; simpl; [reflexivity|].
  rewrite concat_app, IH. reflexivity.
Qed.

Lemma map_flat_map' {A A' I} (g : A -> A') (f : I -> list A) (l : list I) :
  map g (flat_map f l) = flat_map (fun i => map g (f i)) l.
Proof.
  induction l as [|i l IH]; simpl; [reflexivity|].
  rewrite map_app, IH. reflexivity.
Qed.

Lemma flat_map_ext_in' {A I} (f g : I -> list A) (l : list I) :
  (forall i, In i l -> f i = g i) -> flat_map f l = flat_map g l.
Proof.
  induction l as [|i l IH]; intros H; simpl; [reflexivity|].
  rewrite H by (left; reflexivity). rewrite IH; [reflexivity|].
  intros j Hj. apply H. right. exact Hj.
Qed.

Lemma active_pick {A} (B L : nat) (p : nat -> nat -> bool)
  (F : nat -> nat -> A) :
  active B L p F = pick B L p (fun b l => [F b l]).
Proof.
  unfold active, positions, pick.
  rewrite select_flat_map by (intros; rewrite !length_map; reflexivity).
  apply flat_map_ext. intros b. apply select_map_map.
Qed.

Lemma select_build3_uniform {A} (B L C : nat) (F : nat -> nat -> nat -> A)
  (p : nat -> nat -> bool) :
  select (build3 B L C F) (build3 B L C (fun b l _ => p b l))
  = pick B L p (fun b l => map (F b l) (seq 0 C)).
Proof.
  unfold build3, pick.
  rewrite select_flat_map.
  - apply flat_map_ext. intros b. rewrite select_flat_map.
    + apply flat_map_ext. intros l. apply select_map_const.
    + intros l. rewrite !length_map. reflexivity.
  - intros b.
    rewrite (length_flat_map_const _ _ (n := C)),
            (length_flat_map_const _ _ (n := C)); [reflexivity| |];
      intros l; rewrite length_map, length_seq; reflexivity.
Qed.

Lemma concat_pick {A} (B L : nat) (p : nat -> nat -> bool)
  (G : nat -> nat -> list A) :
  concat (pick B L p (fun b l => [G b l])) = pick B L p G.
Proof.
  unfold pick. rewrite concat_flat_map'. apply flat_map_ext. intros b.
  rewrite concat_flat_map'. apply flat_map_ext. intros l.
  destruct (p b l); simpl; [apply app_nil_r|reflexivity].
Qed.

Lemma map_pick {A A'} (g : A -> A') (B L : nat) (p : nat -> nat -> bool)
  (F : nat -> nat -> A) :
  map g (pick B L p (fun b l => [F b l]))
  = pick B L p (fun b l => [g (F b l)]).
Proof.
  unfold pick. rewrite map_flat_map'. apply flat_map_ext. intros b.
  rewrite map_flat_map'. apply flat_map_ext. intros l.
  destruct (p b l); reflexivity.
Qed.

Lemma pick_ext {A} (B L : nat) (p q : nat -> nat -> bool)
  (F G : nat -> nat -> list A) :
  (forall b l, (b < B)%nat -> (l < L)%nat -> p b l = q b l) ->
  (forall b l, (b < B)%nat -> (l < L)%nat -> F b l = G b l) ->
  pick B L p F = pick B L q G.
Proof.
  intros Hp HF. unfold pick.
  apply flat_map_ext_in'. intros b Hb. apply in_seq in Hb.
  apply flat_map_ext_in'. intros l Hl. apply in_seq in Hl.
  rewrite Hp, HF by lia. reflexivity.
Qed.

Lemma pick_rows_length {A} (B L C : nat) (p : nat -> nat -> bool)
  (F : nat -> nat -> nat -> A) :
  Forall (fun r => length r = C)
         (pick B L p (fun b l => [map (F b l) (seq 0 C)])).
Proof.
  unfold pick. apply Forall_flat_map, Forall_forall. intros b _.
  apply Forall_flat_map, Forall_forall. intros l _.
  destruct (p b l); constructor; [|constructor].
  rewrite length_map, length_seq. reflexivity.
Qed.

(** ** The rows of active elements *)

Lemma build3_ext {A} (n0 n1 n2 : nat) (f g : nat -> nat -> nat -> A) :
  (forall i j k, (i < n0)%nat -> (j < n1)%nat -> (k < n2)%nat ->
                 f i j k = g i j k) ->
  build3 n0 n1 n2 f = build3 n0 n1 n2 g.
Proof.
  intros H. unfold build3.
  apply flat_map_ext_in'. intros i Hi. apply in_seq in Hi.
  apply flat_map_ext_in'. intros j Hj. apply in_seq in Hj.
  apply map_ext_in. intros k Hk. apply in_seq in Hk.
  apply H; lia.
Qed.

Lemma length_concat_rows {A} (C : nat) (rows : list (list A)) :
  Forall (fun r => length r = C) rows ->
  length (concat rows) = (length rows * C)%nat.
Proof.
  induction 1 as [|r rows Hr _ IH]; simpl; [reflexivity|].
  rewrite length_app, Hr, IH. reflexivity.
Qed.

Lemma nth_concat_rows {A} (d : A) (C : nat) (rows : list (list A)) :
  Forall (fun r => length r = C) rows ->
  forall i j, (j < C)%nat ->
    nth (i * C + j) (concat rows) d = nth j (nth i rows []) d.
Proof.
  induction 1 as [|r rows Hr _ IH]; intros i j Hj.
  - simpl. destruct (i * C + j)%nat, i, j; reflexivity.
  - destruct i as [|i]; simpl.
    + rewrite app_nth1 by lia. reflexivity.
    + rewrite app_nth2 by lia. rewrite Hr.
      replace (C + i * C + j - C)%nat with (i * C + j)%nat by lia.
      apply IH, Hj.
Qed.

Lemma map_nth_seq_gen {A A'} (g : A -> A') (d : A) (l : list A) :
  map (fun i => g (nth i l d)) (seq 0 (length l)) = map g l.
Proof.
  transitivity (map g (map (fun i => nth i l d) (seq 0 (length l)))).
  - rewrite map_map. reflexivity.
  - rewrite map_nth_seq. reflexivity.
Qed.

Lemma column_concat (C : nat) (rows : list (list Qc)) (j : nat) :
  Forall (fun r => length r = C) rows -> (j < C)%nat ->
  column (length rows) C (concat rows) j = map (fun r => nth j r 0) rows.
Proof.
  intros H Hj. unfold column.
  rewrite <- (map_nth_seq_gen (fun r => nth j r 0) [] rows).
  apply map_ext. intros i. apply nth_concat_rows; assumption.
Qed.

(** With a mask that is the same for every channel, the selected
    elements are whole rows: one row of C values for each active
    position. *)
Lemma masked_rows_uniform (a : ndarray Qc) (mT : ndarray bool)
  (B L C : nat) (F : nat -> nat -> nat -> Qc) (p : nat -> nat -> bool) :
  shape a = [B; L; C] -> data a = build3 B L C F ->
  shape mT = [B; L; C] -> data mT = build3 B L C (fun b l _ => p b l) ->
  C <> 0%nat ->
  masked_rows a (Some mT) C
  = Ok (mk_ndarray (dtype_of a)
          [length (pick B L p (fun b l => [map (F b l) (seq 0 C)])); C]
          (concat (pick B L p (fun b l => [map (F b l) (seq 0 C)])))).
Proof.
  intros Hsa Hda Hsm Hdm HC.
  unfold masked_rows, option_result, bool_index. cbn [rbind].
  rewrite Hsm, Hsa, shape_eqb_refl. cbn [rbind].
  rewrite Hda, Hdm, select_build3_uniform, <- concat_pick.
  set (rows := pick B L p (fun b l => [map (F b l) (seq 0 C)])).
  assert (Hrows : Forall (fun r => length r = C) rows)
    by apply pick_rows_length.
  unfold reshape_rows, size. cbn [shape prod fold_right].
  rewrite (length_concat_rows Hrows), Nat.mul_1_r.
  destruct C as [|c]; [congruence|].
  rewrite Nat.Div0.mod_mul, Nat.eqb_refl, Nat.div_mul by discriminate.
  reflexivity.
Qed.

(** Column [j] of those rows holds the active elements of channel [j]. *)
Lemma column_pick (B L C : nat) (F : nat -> nat -> nat -> Qc)
  (p : nat -> nat -> bool) (j : nat) :
  (j < C)%nat ->
  column (length (pick B L p (fun b l => [map (F b l) (seq 0 C)]))) C
         (concat (pick B L p (fun b l => [map (F b l) (seq 0 C)]))) j
  = active B L p (fun b l => F b l j).
Proof.
  intros Hj. rewrite column_concat by (apply pick_rows_length || exact Hj).
  rewrite map_pick, active_pick. apply pick_ext; [reflexivity|].
  intros b l _ _. f_equal. apply nth_map_seq. exact Hj.
Qed.

Lemma length_active {A A'} (B L : nat) (p : nat -> nat -> bool)
  (F : nat -> nat -> A) (G : nat -> nat -> A') :
  length (active B L p F) = length (active B L p G).
Proof.
  rewrite !active_pick.
  rewrite <- (length_map (fun _ => tt) (pick B L p (fun b l => [F b l]))).
  rewrite <- (length_map (fun _ => tt) (pick B L p (fun b l => [G b l]))).
  rewrite !map_pick. reflexivity.
Qed.

(** ** The batch statistics *)

Lemma broadcast_to_shape {A} (d : A) (a r : ndarray A) (s : list nat) :
  broadcast_to d a s = Ok r -> shape r = s.
Proof.
  unfold broadcast_to. destruct (broadcastable (shape a) s); [|discriminate].
  intros [= <-]. reflexivity.
Qed.

(** The rows the forward call reduces over, for a mask that does not
    depend on the channel. *)
Lemma forward_rows_uniform (a : ndarray Qc) (bm : ndarray bool)
  (aT ax : ndarray Qc) (mT : ndarray bool) (B C L : nat) :
  shape a = [B; C; L] -> shape bm = [B; C; L] ->
  channel_uniform bm B C L ->
  transpose_0_2_1 0 a = Ok aT ->
  transpose_0_2_1 false bm = Ok mT ->
  masked_rows aT (Some mT) C = Ok ax ->
  shape ax = [length (active B L (fun b l => get3 false bm b 0 l)
                             (fun b l => get3 0 a b 0 l)); C] /\
  C <> 0%nat /\
  forall c, (c < C)%nat ->
    column (length (active B L (fun b l => get3 false bm b 0 l)
                           (fun b l => get3 0 a b 0 l))) C (data ax) c
    = active B L (fun b l => get3 false bm b c l)
                 (fun b l => get3 0 a b c l).
Proof.
  intros Ha Hbm Hu HaT HmT Hax.
  rewrite (transpose_3d 0 a Ha) in HaT. injection HaT as <-.
  rewrite (transpose_3d false bm Hbm) in HmT. injection HmT as <-.
  edestruct masked_rows_shape as (n & _ & HC & _); [exact Hax|].
  set (p := fun b l => get3 false bm b 0%nat l).
  set (F := fun b l c => get3 0 a b c l).
  rewrite (@masked_rows_uniform _ _ B L C F p) in Hax;
    try reflexivity; try exact HC.
  2:{ cbn [data]. apply build3_ext. intros b l c Hb Hl Hc.
      unfold p. apply Hu; lia. }
  injection Hax as <-. cbn [shape data].
  assert (Hlen : length (pick B L p (fun b l => [map (F b l) (seq 0 C)]))
                 = length (active B L p (fun b l => get3 0 a b 0%nat l))).
  { rewrite active_pick.
    rewrite <- (length_map (fun _ => tt)
                  (pick B L p (fun b l => [map (F b l) (seq 0 C)]))).
    rewrite <- (length_map (fun _ => tt)
                  (pick B L p (fun b l => [get3 0 a b 0%nat l]))).
    rewrite !map_pick. reflexivity. }
  split; [rewrite Hlen; reflexivity|]. split; [exact HC|].
  intros c Hc. rewrite <- Hlen. rewrite column_pick by exact Hc.
  rewrite !active_pick. apply pick_ext; [|reflexivity].
  intros b l Hb Hl. unfold p. apply Hu; lia.
Qed.

(** C2, for a mask that is the same in every channel.  When the
    broadcast mask does not depend on the channel, the per-channel mean the forward call computes is the plain
    arithmetic mean of the active elements of that channel, and the
    per-channel variance it computes is their plain population variance
    plus eps; inactive elements contribute to neither. *)
Theorem C2_statistics_over_active_elements
  x gamma beta f h y f' h' B C L mk bm :
  shape x = [B; C; L] ->
  mask f = Some mk ->
  BatchNormalization_forward rsqrt xp (x, gamma, beta) (f, h)
  = (Ok y, (f', h')) ->
  broadcast_to false mk (shape x) = Ok bm ->
  channel_uniform bm B C L ->
  exists mean_ var,
    mean f' = Some mean_ /\ inv_std f' = Some (amap rsqrt var) /\
    shape mean_ = [C] /\ shape var = [C] /\
    forall c, (c < C)%nat ->
      (0 < length (active_elements x bm B L c))%nat ->
      nth c (data mean_) 0 = mean_list (active_elements x bm B L c) /\
      nth c (data var) 0 = var_list (active_elements x bm B L c) + eps f.
Proof.
  intros Hx Hm H Hbm Hu.
  edestruct forward_inv
    as (bm' & xT & mT & ax & y0 & m & h1 & om & Hinv);
    [exact Hx | exact Hm | exact H |].
  cbv zeta in Hinv.
  destruct Hinv as (Hbm' & HxT & HmT & Hax & Hmean & Hinv & _).
  rewrite Hx in Hbm. rewrite Hbm in Hbm'. injection Hbm' as <-.
  pose proof (broadcast_to_shape _ _ _ Hbm) as Hsb.
  edestruct forward_rows_uniform as (Hsax & HC & Hcol);
    [exact Hx | exact Hsb | exact Hu | exact HxT | exact HmT | exact Hax |].
  exists (mean_axis0 ax), (amap (fun v => v + eps f) (var_axis0 ax)).
  split; [exact Hmean|]. split; [exact Hinv|].
  split; [eapply shape_mean_axis0; exact Hsax|].
  split; [cbn [amap shape]; eapply shape_var_axis0; exact Hsax|].
  intros c Hc _. unfold active_elements.
  unfold mean_axis0, var_axis0, rows_cols, amap. rewrite Hsax.
  cbn [data shape dtype_of]. rewrite map_map.
  rewrite !nth_map_seq by exact Hc. rewrite (Hcol c Hc).
  split; reflexivity.
Qed.

(** ** Counting active elements *)

Lemma length_select {A} (l : list A) (m : list bool) :
  length l = length m -> length (select l m) = length (filter (fun b => b) m).
Proof.
  revert m; induction l as [|x l IH]; intros [|b m] H; simpl in *;
    try discriminate; [reflexivity|].
  injection H as H. destruct b; simpl; rewrite (IH _ H); reflexivity.
Qed.

Lemma list_sum_map_add {I} (f g : I -> nat) (l : list I) :
  list_sum (map (fun i => (f i + g i)%nat) l)
  = (list_sum (map f l) + list_sum (map g l))%nat.
Proof. induction l as [|i l IH]; simpl; [reflexivity|]. rewrite IH. lia. Qed.

Lemma list_sum_map_const {I} (k : nat) (l : list I) :
  list_sum (map (fun _ => k) l) = (length l * k)%nat.
Proof. induction l as [|i l IH]; simpl; [reflexivity|]. rewrite IH. lia. Qed.

Lemma count_rows {Ib Il Ic} (M : Ib -> Il -> Ic -> bool)
  (lb : list Ib) (ll : list Il) (lc : list Ic) :
  length (filter (fun b => b)
            (flat_map (fun b => flat_map (fun l => map (M b l) lc) ll) lb))
  = list_sum (map (fun c =>
       length (filter (fun b => b)
                 (flat_map (fun b => map (fun l => M b l c) ll) lb))) lc).
Proof.
  assert (H1 : forall b l,
    length (filter (fun x => x) (map (M b l) lc))
    = list_sum (map (fun c => if M b l c then 1 else 0)%nat lc)).
  { intros b l. induction lc as [|c lc IH]; simpl; [reflexivity|].
    destruct (M b l c); simpl; rewrite IH; reflexivity. }
  assert (H2 : forall b,
    length (filter (fun x => x) (flat_map (fun l => map (M b l) lc) ll))
    = list_sum (map (fun c =>
        length (filter (fun x => x) (map (fun l => M b l c) ll))) lc)).
  { intros b. induction ll as [|l ll IH]; simpl.
    - rewrite list_sum_map_const. lia.
    - rewrite filter_app, length_app, IH, H1, <- list_sum_map_add.
      f_equal. apply map_ext. intros c. destruct (M b l c); reflexivity. }
  induction lb as [|b lb IH]; simpl.
  - rewrite list_sum_map_const. lia.
  - rewrite filter_app, length_app, IH, H2, <- list_sum_map_add.
    f_equal. apply map_ext. intros c. rewrite filter_app, length_app.
    reflexivity.
Qed.

Lemma length_active_count {A} (B L : nat) (p : nat -> nat -> bool)
  (F : nat -> nat -> A) :
  length (active B L p F)
  = length (filter (fun b => b) (positions B L p)).
Proof.
  unfold active, positions. apply length_select.
  rewrite !(length_flat_map_const _ _ (n := L)); [reflexivity| |];
    intros b; rewrite length_map, length_seq; reflexivity.
Qed.



(** ** The running statistics *)

Lemma nth_scale (c : Qc) (l : list Qc) (i : nat) :
  nth i (map (Qcmult c) l) 0 = c * nth i l 0.
Proof.
  destruct (Nat.lt_ge_cases i (length l)) as [Hi|Hi].
  - rewrite (nth_indep _ 0 (c * 0)) by (rewrite length_map; exact Hi).
    apply (map_nth (Qcmult c)).
  - rewrite !nth_overflow by (rewrite ?length_map; exact Hi).
    symmetry. apply Qcmult_0_r.
Qed.

(** One update [r = decay * r + w * s] of a channel-shaped array. *)
Lemma running_step (d w : Qc) (r s r' : ndarray Qc) (C : nat) :
  shape r = [C] -> shape s = [C] ->
  iop Qcplus (scale d r) (scale w s) = Ok r' ->
  shape r' = [C] /\
  forall c, (c < C)%nat ->
    nth c (data r') 0 = d * nth c (data r) 0 + w * nth c (data s) 0.
Proof.
  intros Hr Hs H.
  edestruct iop_data as (Hsh & Hd); [exact H|].
  cbn [scale amap shape data] in Hsh, Hd. unfold size, ndim in Hd.
  cbn [scale amap shape] in Hd. rewrite Hr, Hs in Hd.
  cbn [length pad repeat Nat.sub app prod fold_right] in Hd.
  split; [congruence|].
  intros c Hc. rewrite Hd.
  rewrite nth_map_seq by lia.
  rewrite (@bidx_same [C] c) by (cbn [prod fold_right]; lia).
  rewrite !nth_scale. reflexivity.
Qed.




(** ** Calls that succeed *)

Lemma bshape_broadcastable (s t : list nat) :
  broadcastable t s = true -> bshape s t = Some s.
Proof.
  unfold broadcastable. intros H. apply andb_true_iff in H as [Hl Hc].
  apply Nat.leb_le in Hl. unfold bshape.
  rewrite Nat.max_l by exact Hl. rewrite pad_same.
  apply bshape_aux_compat, Hc.
Qed.

Lemma iop_broadcastable (f : Qc -> Qc -> Qc) (a b : ndarray Qc) :
  broadcastable (shape b) (shape a) = true ->
  exists r, iop f a b = Ok r.
Proof.
  intros H. unfold iop, binop.
  rewrite (bshape_broadcastable _ _ H), shape_eqb_refl.
  eexists. reflexivity.
Qed.

(** The forward call run step by step from the results of its steps,
    when running_mean is None. *)
Lemma forward_complete x gamma beta f h B C L mk om bm xT mT ax y0 m r1 v1 y :
  shape x = [B; C; L] ->
  mask f = Some mk -> orig_mask f = Some om ->
  running_mean f = None ->
  broadcast_to false mk [B; C; L] = Ok bm ->
  transpose_0_2_1 0 x = Ok xT ->
  transpose_0_2_1 false bm = Ok mT ->
  masked_rows xT (Some mT) C = Ok ax ->
  _apply_bn_fwd xp x
    (expand (ndim x - (ndim gamma + 1)) (mean_axis0 ax))
    (expand (ndim x - (ndim gamma + 1))
       (amap rsqrt (amap (fun v => v + eps f) (var_axis0 ax))))
    (expand (ndim x - (ndim gamma + 1)) gamma)
    (expand (ndim x - (ndim gamma + 1)) beta) = Ok y0 ->
  floordiv (size ax) (size gamma) = Ok m ->
  iop Qcplus (scale (decay f) (zeros_like gamma))
      (scale (1 - decay f) (mean_axis0 ax)) = Ok r1 ->
  iop Qcplus (scale (decay f) (zeros_like gamma))
      (scale ((1 - decay f) * adjust m)
             (amap (fun v => v + eps f) (var_axis0 ax))) = Ok v1 ->
  iop Qcmult y0 (astype_float (dtype_of y0) om) = Ok y ->
  fst (BatchNormalization_forward rsqrt xp (x, gamma, beta) (f, h)) = Ok y.
Proof.
  intros Hx Hm Hom Hrm Hbm HxT HmT Hax Hy0 Hfd Hr1 Hv1 Hy.
  assert (Hsb : shape bm = [B; C; L]) by (eapply broadcast_to_shape, Hbm).
  pose proof HxT as HxT'. rewrite (transpose_3d 0 x Hx) in HxT'.
  injection HxT' as HxT'.
  pose proof HmT as HmT'. rewrite (transpose_3d false bm Hsb) in HmT'.
  injection HmT' as HmT'.
  assert (Hm3 : broadcast_to false mT (shape xT) = Ok mT).
  { assert (Hs : shape xT = shape mT) by (subst xT mT; reflexivity).
    rewrite Hs. apply broadcast_to_same.
    subst mT. unfold wf, size. cbn [data shape prod fold_right].
    apply length_build3. }
  assert (HC : nth 2 (shape xT) 0%nat = C) by (subst xT; reflexivity).
  destruct f as [rm0 rv0 al0 m0 om0 e0 d0 mn0 is0 md0 ex0 ax0 rt0].
  cbn [mask orig_mask running_mean eps decay] in *. subst rm0 m0 om0.
  unfold BatchNormalization_forward.
  unfold bind, upd_self, modify, get, lift, ret, alloc, upd_heap.
  cbn [fst snd running_mean set_retained set_running_mean set_running_var
       set_plan mask].
  rewrite Hx. cbn [on_mask rbind]. rewrite Hbm. cbn [rbind].
  rewrite HxT. cbn [on_mask rbind]. rewrite HmT. cbn [on_mask rbind].
  rewrite Hm3. cbn [rbind]. rewrite HC, Hax.
  cbn [fst snd set_mask set_mean set_inv_std set_plan set_running_var
       set_running_mean set_retained eps decay running_mean
       running_var orig_mask].
  rewrite Hy0. rewrite size_expand, Hfd.
  unfold inplace. cbn [fst snd].
  set (z := zeros_like gamma) in *.
  set (H1 := (h ++ [z]) ++ [z]).
  assert (N1 : nth_error H1 (length h) = Some z).
  { unfold H1. rewrite nth_error_app1 by (rewrite length_app; cbn; lia).
    rewrite nth_error_app2 by lia. rewrite Nat.sub_diag. reflexivity. }
  assert (N2 : forall r,
             nth_error (update H1 (length h) r) (length (h ++ [z])) = Some z).
  { intros r. rewrite length_app. cbn [length].
    rewrite nth_error_update_neq by lia. unfold H1.
    rewrite nth_error_app2 by (rewrite length_app; cbn [length]; lia).
    rewrite length_app. cbn [length]. rewrite Nat.sub_diag. reflexivity. }
  rewrite N1. cbv beta iota. cbn [fst snd].
  erewrite nth_error_update_eq by exact N1.
  fold (adjust m). rewrite Hr1. cbv beta iota. cbn [fst snd].
  rewrite update_update, N2. cbv beta iota. cbn [fst snd].
  erewrite nth_error_update_eq by apply N2.
  rewrite Hv1. cbv beta iota. cbn [fst snd option_result].
  rewrite Hy. reflexivity.
Qed.

Lemma dtype_eqb_refl (d : dtype) : dtype_eqb d d = true.
Proof. destruct d; reflexivity. Qed.

Lemma floordiv_ok (n d : nat) : d <> 0%nat -> floordiv n d = Ok (n / d)%nat.
Proof. destruct d; [congruence|reflexivity]. Qed.

(** A masked forward call on the supported layout, with a mask that does
    not depend on the channel and without running statistics, returns
    an output. *)
Lemma forward_succeeds x gamma beta f h B C L mk bm :
  shape x = [B; C; L] -> shape gamma = [C] -> shape beta = [C] ->
  C <> 0%nat ->
  mask f = Some mk -> orig_mask f = Some mk ->
  running_mean f = None ->
  broadcast_to false mk [B; C; L] = Ok bm ->
  channel_uniform bm B C L ->
  exists y,
    fst (BatchNormalization_forward rsqrt xp (x, gamma, beta) (f, h)) = Ok y.
Proof.
  intros Hx Hg Hb HC Hm Hom Hrm Hbm Hu.
  assert (Hsb : shape bm = [B; C; L]) by (eapply broadcast_to_shape, Hbm).
  pose proof (transpose_3d 0 x Hx) as HxT.
  pose proof (transpose_3d false bm Hsb) as HmT.
  set (xT := mk_ndarray (dtype_of x) [B; L; C]
               (build3 B L C (fun i k j => get3 0 x i j k))) in *.
  set (mT := mk_ndarray (dtype_of bm) [B; L; C]
               (build3 B L C (fun i k j => get3 false bm i j k))) in *.
  assert (Hax : exists ax n, masked_rows xT (Some mT) C = Ok ax
                             /\ shape ax = [n; C]).
  { eexists. eexists. split.
    - apply (@masked_rows_uniform xT mT B L C
               (fun b l c => get3 0 x b c l)
               (fun b l => get3 false bm b 0%nat l));
        try reflexivity; try exact HC.
      cbn [data mT]. apply build3_ext. intros b l c Hb' Hl Hc.
      apply Hu; lia.
    - reflexivity. }
  destruct Hax as (ax & n & Hax & Hsax).
  assert (He : (ndim x - (ndim gamma + 1) = 1)%nat)
    by (unfold ndim; rewrite Hx, Hg; reflexivity).
  destruct (@apply_bn_fwd_compat x
              (expand 1 (mean_axis0 ax))
              (expand 1 (amap rsqrt (amap (fun v => v + eps f) (var_axis0 ax))))
              (expand 1 gamma) (expand 1 beta) [1; C; 1]%nat)
    as (y0 & Hy0 & Hs0 & _ & _).
  { cbn [shape expand]. erewrite shape_mean_axis0 by exact Hsax. reflexivity. }
  { cbn [shape expand amap]. erewrite shape_var_axis0 by exact Hsax.
    reflexivity. }
  { cbn [shape expand]. rewrite Hg. reflexivity. }
  { cbn [shape expand]. rewrite Hb. reflexivity. }
  { rewrite Hx. apply compatible_channel. }
  assert (Hbc : broadcastable [C] [C] = true) by apply broadcastable_refl.
  destruct (@iop_broadcastable Qcplus (scale (decay f) (zeros_like gamma))
              (scale (1 - decay f) (mean_axis0 ax))) as (r1 & Hr1).
  { cbn [scale amap shape zeros_like]. rewrite Hg.
    erewrite shape_mean_axis0 by exact Hsax. exact Hbc. }
  destruct (@iop_broadcastable Qcplus (scale (decay f) (zeros_like gamma))
              (scale ((1 - decay f) * adjust (size ax / size gamma))
                     (amap (fun v => v + eps f) (var_axis0 ax))))
    as (v1 & Hv1).
  { cbn [scale amap shape zeros_like]. rewrite Hg.
    erewrite shape_var_axis0 by exact Hsax. exact Hbc. }
  destruct (@iop_broadcastable Qcmult y0 (astype_float (dtype_of y0) mk))
    as (y & Hy).
  { cbn [astype_float shape]. rewrite Hs0, Hx.
    unfold broadcast_to in Hbm.
    destruct (broadcastable (shape mk) [B; C; L]); [reflexivity|discriminate]. }
  exists y.
  eapply forward_complete with (m := (size ax / size gamma)%nat);
    try eassumption.
  - rewrite He. exact Hy0.
  - apply floordiv_ok. unfold size. rewrite Hg. cbn [prod fold_right]. lia.
Qed.

(** C8, as the code behaves.  masked_batch_norm checks neither decay
    nor the pairing of running_mean and running_var.  The one configuration
    error is the RuntimeError for eps < 1e-5 when cuDNN is in use, raised
    before anything is computed or mutated; otherwise a call without
    running_mean on a valid input returns an output for every value of
    decay, in [0,1) or not, and whether or not running_var is supplied. *)
Theorem C8_decay_and_running_pair_not_validated
  x gamma beta kw h B C L mk bm :
  shape x = [B; C; L] -> shape gamma = [C] -> shape beta = [C] ->
  C <> 0%nat ->
  kind (dtype_of x) = kind_f ->
  dtype_of gamma = dtype_of x -> dtype_of beta = dtype_of x ->
  kw_train kw = false ->
  kw_mask kw = Some mk ->
  kw_running_mean kw = None ->
  broadcast_to false mk [B; C; L] = Ok bm ->
  channel_uniform bm B C L ->
  if should_use_cudnn && Qcltb (kw_eps kw) cudnn_min_eps
  then batch_normalization rsqrt xp should_use_cudnn x gamma beta kw h
       = (Raise RuntimeError, h)
  else exists y,
       fst (batch_normalization rsqrt xp should_use_cudnn x gamma beta kw h)
       = Ok y.
Proof.
  intros Hx Hg Hb HC Hk Hdg Hdb Htr Hmk Hrm Hbm Hu.
  unfold batch_normalization, BatchNormalization_init. rewrite Htr.
  destruct (should_use_cudnn && Qcltb (kw_eps kw) cudnn_min_eps);
    [reflexivity|].
  set (f := mk_BN (kw_running_mean kw) (kw_running_var kw) (kw_active_len kw)
                  (kw_mask kw) (kw_mask kw) (kw_eps kw) (kw_decay kw)
                  None None None 0 [] None).
  destruct (@forward_succeeds x gamma beta f h B C L mk bm) as (y & Hy);
    try assumption.
  exists y.
  unfold BatchNormalization_apply, bind, lift.
  unfold BatchNormalization_check_type_forward.
  cbn [length Nat.eqb expect forallb andb rbind].
  unfold ti_ndim. cbn [type_of ti_dtype ti_shape].
  rewrite Hx, Hg, Hb, Hk, Hdg, Hdb.
  cbn [length Nat.add Nat.leb slice Nat.sub skipn firstn dkind_eqb].
  rewrite !shape_eqb_refl, !dtype_eqb_refl.
  cbn [expect forallb andb].
  destruct (BatchNormalization_forward rsqrt xp (x, gamma, beta) (f, h))
    as [r s]. exact Hy.
Qed.

(** ** Elementwise operations on the supported layout *)

Lemma get3_nth {A} (d : A) (a : ndarray A) (B C L b c l : nat) :
  shape a = [B; C; L] ->
  get3 d a b c l = nth ((b * C + c) * L + l) (data a) d.
Proof. intros H. unfold get3. rewrite H. reflexivity. Qed.

Lemma offset3_decompose (C L b c l : nat) :
  (c < C)%nat -> (l < L)%nat ->
  (((b * C + c) * L + l) mod (C * (L * 1)) = c * L + l)%nat /\
  ((c * L + l) / (L * 1) = c)%nat /\ ((c * L + l) mod (L * 1) = l)%nat.
Proof.
  intros Hc Hl. rewrite !Nat.mul_1_r.
  assert (H1 : (c * L + l < C * L)%nat).
  { apply Nat.lt_le_trans with ((c + 1) * L)%nat; [lia|].
    apply Nat.mul_le_mono_r. lia. }
  split; [|split].
  - replace ((b * C + c) * L + l)%nat with ((c * L + l) + b * (C * L))%nat
      by lia.
    rewrite Nat.Div0.mod_add. apply Nat.mod_small, H1.
  - rewrite Nat.add_comm, Nat.div_add by lia.
    rewrite Nat.div_small by exact Hl. reflexivity.
  - rewrite Nat.add_comm, Nat.Div0.mod_add. apply Nat.mod_small, Hl.
Qed.

(** A channel-shaped array viewed through the expander is read at the
    channel of the position. *)
Lemma bidx_channel3 (B C L b c l : nat) :
  (c < C)%nat -> (l < L)%nat ->
  bidx [1; C; 1]%nat [B; C; L] ((b * C + c) * L + l) = c.
Proof.
  intros Hc Hl.
  destruct (offset3_decompose b Hc Hl) as (H1 & H2 & H3).
  cbn [bidx prod fold_right Nat.eqb]. rewrite H1, H2.
  destruct (Nat.eqb_spec C 1); lia.
Qed.

Lemma chan_binop_r (f : Qc -> Qc -> Qc) (a q : ndarray Qc) (B C L : nat) :
  shape a = [B; C; L] -> shape q = [1; C; 1]%nat ->
  exists r, binop f a q = Ok r /\ shape r = [B; C; L] /\
    dtype_of r = dtype_of a /\
    forall b c l, (b < B)%nat -> (c < C)%nat -> (l < L)%nat ->
      get3 0 r b c l = f (get3 0 a b c l) (nth c (data q) 0).
Proof.
  intros Ha Hq.
  assert (Hc : compatible (shape q) (shape a) = true)
    by (rewrite Hq, Ha; apply compatible_channel).
  rewrite (binop_r _ _ _ Hc). eexists. split; [reflexivity|].
  cbn [shape dtype_of]. split; [exact Ha|]. split; [reflexivity|].
  intros b c l Hb Hc' Hl.
  rewrite (get3_nth _ _ _ _ _ Ha). unfold get3. cbn [shape data].
  rewrite Ha. unfold size. rewrite Ha.
  rewrite nth_map_seq by (apply offset3_lt; assumption).
  rewrite Hq, bidx_channel3 by assumption. reflexivity.
Qed.

Lemma chan_binop_l (f : Qc -> Qc -> Qc) (q a : ndarray Qc) (B C L : nat) :
  shape a = [B; C; L] -> shape q = [1; C; 1]%nat ->
  exists r, binop f q a = Ok r /\ shape r = [B; C; L] /\
    forall b c l, (b < B)%nat -> (c < C)%nat -> (l < L)%nat ->
      get3 0 r b c l = f (nth c (data q) 0) (get3 0 a b c l).
Proof.
  intros Ha Hq.
  assert (Hc : compatible (shape q) (shape a) = true)
    by (rewrite Hq, Ha; apply compatible_channel).
  rewrite (binop_l _ _ _ Hc). eexists. split; [reflexivity|].
  cbn [shape dtype_of]. split; [exact Ha|].
  intros b c l Hb Hc' Hl.
  rewrite (get3_nth _ _ _ _ _ Ha). unfold get3. cbn [shape data].
  rewrite Ha. unfold size. rewrite Ha.
  rewrite nth_map_seq by (apply offset3_lt; assumption).
  rewrite Hq, bidx_channel3 by assumption. reflexivity.
Qed.

Lemma chan_iop_r (f : Qc -> Qc -> Qc) (a q : ndarray Qc) (B C L : nat) :
  shape a = [B; C; L] -> shape q = [1; C; 1]%nat ->
  exists r, iop f a q = Ok r /\ shape r = [B; C; L] /\
    dtype_of r = dtype_of a /\
    forall b c l, (b < B)%nat -> (c < C)%nat -> (l < L)%nat ->
      get3 0 r b c l = f (get3 0 a b c l) (nth c (data q) 0).
Proof.
  intros Ha Hq.
  assert (Hc : compatible (shape q) (shape a) = true)
    by (rewrite Hq, Ha; apply compatible_channel).
  rewrite (iop_r _ _ _ Hc), <- (binop_r _ _ _ Hc).
  apply chan_binop_r; assumption.
Qed.

Lemma shape_expand1 {A} (p : ndarray A) (C : nat) :
  shape p = [C] -> shape (expand 1 p) = [1; C; 1]%nat.
Proof. intros H. cbn [expand shape]. rewrite H. reflexivity. Qed.

Lemma same_binop (f : Qc -> Qc -> Qc) (a a' : ndarray Qc) (s : list nat) :
  shape a = s -> shape a' = s ->
  exists r, binop f a a' = Ok r /\ shape r = s /\
    dtype_of r = dtype_of a /\
    forall i, (i < prod s)%nat ->
      nth i (data r) 0 = f (nth i (data a) 0) (nth i (data a') 0).
Proof.
  intros Ha Ha'.
  assert (Hc : compatible (shape a') (shape a) = true)
    by (rewrite Ha, Ha'; apply compatible_refl).
  rewrite (binop_r _ _ _ Hc). eexists. split; [reflexivity|].
  cbn [shape dtype_of data]. split; [exact Ha|]. split; [reflexivity|].
  intros i Hi. unfold size. rewrite Ha, Ha'.
  rewrite nth_map_seq by exact Hi. rewrite bidx_same by exact Hi.
  reflexivity.
Qed.

Lemma same_binop3 (f : Qc -> Qc -> Qc) (a a' : ndarray Qc) (B C L : nat) :
  shape a = [B; C; L] -> shape a' = [B; C; L] ->
  exists r, binop f a a' = Ok r /\ shape r = [B; C; L] /\
    forall b c l, (b < B)%nat -> (c < C)%nat -> (l < L)%nat ->
      get3 0 r b c l = f (get3 0 a b c l) (get3 0 a' b c l).
Proof.
  intros Ha Ha'.
  destruct (same_binop f a a' Ha Ha') as (r & Hr & Hs & _ & Hv).
  exists r. split; [exact Hr|]. split; [exact Hs|].
  intros b c l Hb Hc Hl.
  rewrite (get3_nth _ _ _ _ _ Hs), (get3_nth _ _ _ _ _ Ha),
          (get3_nth _ _ _ _ _ Ha').
  apply Hv. apply offset3_lt; assumption.
Qed.

Lemma get3_scale (w : Qc) (a : ndarray Qc) (b c l : nat) :
  get3 0 (scale w a) b c l = w * get3 0 a b c l.
Proof.
  unfold get3, scale, amap. cbn [shape data].
  destruct (shape a) as [|n0 [|n1 [|n2 [|n3 s]]]];
    try (symmetry; apply Qcmult_0_r).
  apply nth_scale.
Qed.

(** The multiplication by the raw mask. *)
Lemma mask_mul (a : ndarray Qc) (dt : dtype) (mk bm : ndarray bool)
  (B C L : nat) :
  shape a = [B; C; L] ->
  broadcast_to false mk [B; C; L] = Ok bm ->
  exists r, iop Qcmult a (astype_float dt mk) = Ok r /\
    shape r = [B; C; L] /\
    forall b c l, (b < B)%nat -> (c < C)%nat -> (l < L)%nat ->
      get3 0 r b c l = get3 0 a b c l * of_bool (get3 false bm b c l).
Proof.
  intros Ha Hbm.
  unfold broadcast_to in Hbm.
  destruct (broadcastable (shape mk) [B; C; L]) eqn:Hbc; [|discriminate].
  injection Hbm as <-.
  destruct (@iop_broadcastable Qcmult a (astype_float dt mk)) as (r & Hr).
  { cbn [astype_float shape]. rewrite Ha. exact Hbc. }
  exists r. split; [exact Hr|].
  edestruct iop_data as (Hs & Hd); [exact Hr|].
  split; [congruence|].
  intros b c l Hb Hc Hl.
  assert (Hsr : shape r = [B; C; L]) by congruence.
  rewrite (get3_nth _ _ _ _ _ Hsr), (get3_nth _ _ _ _ _ Ha).
  unfold get3. cbn [shape data]. unfold gather. cbn [length].
  pose proof (offset3_lt Hb Hc Hl) as Hlt.
  rewrite nth_map_seq by exact Hlt.
  rewrite Hd. unfold size, ndim. rewrite Ha. cbn [length].
  rewrite nth_map_seq by exact Hlt.
  cbn [astype_float shape data]. rewrite nth_of_bool. reflexivity.
Qed.

(** ** Reductions over the active rows *)

Lemma active_ext {A} (B L : nat) (p q : nat -> nat -> bool)
  (F G : nat -> nat -> A) :
  (forall b l, (b < B)%nat -> (l < L)%nat -> p b l = q b l) ->
  (forall b l, (b < B)%nat -> (l < L)%nat -> F b l = G b l) ->
  active B L p F = active B L q G.
Proof.
  intros Hp HF. rewrite !active_pick. apply pick_ext; [exact Hp|].
  intros b l Hb Hl. rewrite HF by assumption. reflexivity.
Qed.

Lemma map_active {A A'} (g : A -> A') (B L : nat) (p : nat -> nat -> bool)
  (F : nat -> nat -> A) :
  map g (active B L p F) = active B L p (fun b l => g (F b l)).
Proof. rewrite !active_pick. apply map_pick. Qed.

Lemma active_mul (B L : nat) (p : nat -> nat -> bool)
  (F G : nat -> nat -> Qc) :
  map (fun i => nth i (active B L p F) 0 * nth i (active B L p G) 0)
      (seq 0 (length (active B L p F)))
  = active B L p (fun b l => F b l * G b l).
Proof.
  set (FG := active B L p (fun b l => (F b l, G b l))).
  assert (HF : active B L p F = map fst FG)
    by (unfold FG; rewrite map_active; reflexivity).
  assert (HG : active B L p G = map snd FG)
    by (unfold FG; rewrite map_active; reflexivity).
  rewrite HF, HG, length_map.
  transitivity (map (fun pr => fst pr * snd pr) FG).
  - rewrite <- (map_nth_seq_gen (fun pr => fst pr * snd pr) (0, 0) FG).
    apply map_ext. intros i.
    rewrite <- (map_nth fst FG (0, 0) i), <- (map_nth snd FG (0, 0) i).
    reflexivity.
  - unfold FG. rewrite map_active. reflexivity.
Qed.

Lemma nth_sum_axis0 (a : ndarray Qc) (n C c : nat) :
  shape a = [n; C] -> (c < C)%nat ->
  nth c (data (sum_axis0 a)) 0 = qsum (column n C (data a) c).
Proof.
  intros Ha Hc. unfold sum_axis0, rows_cols. rewrite Ha. cbn [data].
  rewrite nth_map_seq by exact Hc. reflexivity.
Qed.

(** The rows selected from a three-dimensional array under a mask that
    does not depend on the channel. *)
Lemma rows_uniform_ok (a : ndarray Qc) (bm mT : ndarray bool) (B C L : nat) :
  shape a = [B; C; L] -> shape bm = [B; C; L] ->
  channel_uniform bm B C L -> C <> 0%nat ->
  transpose_0_2_1 false bm = Ok mT ->
  exists aT ax,
    transpose_0_2_1 0 a = Ok aT /\
    nth 2 (shape aT) 0%nat = C /\
    masked_rows aT (Some mT) C = Ok ax /\
    shape ax = [n_active bm B L 0; C] /\
    forall c, (c < C)%nat ->
      column (n_active bm B L 0) C (data ax) c
      = active B L (fun b l => get3 false bm b c l)
                   (fun b l => get3 0 a b c l).
Proof.
  intros Ha Hbm Hu HC HmT.
  pose proof (transpose_3d 0 a Ha) as HaT.
  pose proof HmT as HmT'.
  rewrite (transpose_3d false bm Hbm) in HmT'. injection HmT' as HmT'.
  set (aT := mk_ndarray (dtype_of a) [B; L; C]
               (build3 B L C (fun i k j => get3 0 a i j k))) in *.
  exists aT. eexists. split; [exact HaT|]. split; [reflexivity|].
  assert (Hax : masked_rows aT (Some mT) C
          = Ok (mk_ndarray (dtype_of aT)
                  [length (pick B L (fun b l => get3 false bm b 0%nat l)
                     (fun b l => [map (fun c => get3 0 a b c l) (seq 0 C)])); C]
                  (concat (pick B L (fun b l => get3 false bm b 0%nat l)
                     (fun b l => [map (fun c => get3 0 a b c l) (seq 0 C)]))))).
  { apply (@masked_rows_uniform aT mT B L C
             (fun b l c => get3 0 a b c l)
             (fun b l => get3 false bm b 0%nat l));
      try reflexivity; try exact HC.
    - subst mT. reflexivity.
    - subst mT. cbn [data]. apply build3_ext. intros b l c Hb Hl Hc.
      apply Hu; lia. }
  split; [exact Hax|].
  edestruct forward_rows_uniform as (Hs & _ & Hcol);
    [exact Ha | exact Hbm | exact Hu | exact HaT | exact HmT | exact Hax |].
  assert (Hn : length (active B L (fun b l => get3 false bm b 0%nat l)
                              (fun b l => get3 0 a b 0%nat l))
               = n_active bm B L 0) by apply length_active.
  rewrite Hn in Hs, Hcol. split; [exact Hs|exact Hcol].
Qed.

(** ** The masked backward computation *)

Lemma column_nth (n C : nat) (buf : list Qc) (j i : nat) :
  (i < n)%nat -> nth i (column n C buf j) 0 = nth (i * C + j) buf 0.
Proof.
  intros Hi. unfold column.
  exact (@nth_map_seq _ (fun i0 => nth (i0 * C + j) buf 0) n i 0 Hi).
Qed.

Lemma grad_forward_spec self x gamma gy mean_ inv mk bm mT B C L :
  shape x = [B; C; L] -> shape gy = [B; C; L] -> shape gamma = [C] ->
  shape mean_ = [C] -> shape inv = [C] ->
  g_expander self = 1%nat ->
  g_mean self = Some mean_ -> g_inv_std self = Some inv ->
  g_mask self = Some mT -> g_orig_mask self = Some mk ->
  broadcast_to false mk [B; C; L] = Ok bm ->
  transpose_0_2_1 false bm = Ok mT ->
  channel_uniform bm B C L ->
  C <> 0%nat -> n_active bm B L 0 <> 0%nat ->
  exists gx ggamma gbeta,
    BatchNormalizationGrad_forward xp self (x, gamma, gy)
    = Ok (gx, ggamma, gbeta) /\
    shape gx = [B; C; L] /\ shape ggamma = [C] /\ shape gbeta = [C] /\
    forall c, (c < C)%nat ->
      nth c (data gbeta) 0 = qsum (active_elements gy bm B L c) /\
      nth c (data ggamma) 0
      = qsum (active B L (fun b l => get3 false bm b c l)
                (fun b l => get3 0 gy b c l * x_hat_at x mean_ inv b c l)) /\
      forall b l, (b < B)%nat -> (l < L)%nat ->
        get3 0 gx b c l
        = (nth c (data gamma) 0 * nth c (data inv) 0)
          * (get3 0 gy b c l
             - (x_hat_at x mean_ inv b c l * nth c (data ggamma) 0
                + nth c (data gbeta) 0)
               * (1 / of_nat (n_active bm B L 0)))
          * of_bool (get3 false bm b c l).
Proof.
  intros Hx Hgy Hg Hms His Hexp Hmean Hinv Hmask Homask Hbm HmT Hu HC Hn.
  assert (Hsb : shape bm = [B; C; L]) by (eapply broadcast_to_shape, Hbm).
  set (n := n_active bm B L 0) in *.
  unfold BatchNormalizationGrad_forward.
  (* the active rows of gy *)
  destruct (rows_uniform_ok gy Hgy Hsb Hu HC HmT)
    as (gyT & agy & HgyT & HC2 & Hagy & Hsagy & Hcolgy).
  rewrite HgyT. cbn [rbind]. rewrite Hmask, HC2, Hagy. cbn [rbind].
  rewrite Hexp.
  assert (Hfd : floordiv (size agy) (size gamma) = Ok n).
  { rewrite floordiv_ok
      by (unfold size; rewrite Hg; cbn [prod fold_right]; lia).
    unfold size. rewrite Hsagy, Hg. cbn [prod fold_right].
    rewrite Nat.div_mul by lia. reflexivity. }
  rewrite Hfd. cbn [rbind].
  assert (Hfi : float_inv n = Ok (1 / of_nat n))
    by (unfold float_inv; destruct n; [congruence|reflexivity]).
  rewrite Hfi. cbn [rbind]. rewrite Hmean, Hinv. cbn [option_result rbind].
  (* x_hat *)
  unfold _x_hat.
  destruct (chan_binop_r Qcminus x (expand 1 mean_) Hx (shape_expand1 _ Hms))
    as (xm & E1 & S1 & _ & V1).
  rewrite E1. cbn [rbind].
  destruct (chan_iop_r Qcmult xm (expand 1 inv) S1 (shape_expand1 _ His))
    as (xh & E2 & S2 & _ & V2).
  rewrite E2. cbn [rbind].
  assert (Vxh : forall b c l, (b < B)%nat -> (c < C)%nat -> (l < L)%nat ->
             get3 0 xh b c l = x_hat_at x mean_ inv b c l).
  { intros b c l Hb Hc Hl. rewrite V2, V1 by assumption. reflexivity. }
  (* the active rows of x_hat *)
  destruct (rows_uniform_ok xh S2 Hsb Hu HC HmT)
    as (xhT & axh & HxhT & _ & Haxh & Hsaxh & Hcolxh).
  rewrite HxhT. cbn [rbind]. rewrite Hsagy. cbn [nth]. rewrite Haxh.
  cbn [rbind].
  destruct (same_binop Qcmult agy axh Hsagy Hsaxh)
    as (pr & E3 & S3 & _ & V3).
  rewrite E3. cbn [rbind].
  set (gbeta := sum_axis0 agy). set (ggamma := sum_axis0 pr).
  assert (Hsgb : shape gbeta = [C]) by (eapply shape_sum_axis0, Hsagy).
  assert (Hsgg : shape ggamma = [C]) by (eapply shape_sum_axis0, S3).
  (* the gradient with respect to x, before masking *)
  assert (Hgx0 : exists gx0,
    (if is_numpy xp
     then
       let* gs := binop Qcmult gamma inv in
       let* t1 := binop Qcmult xh (expand 1 ggamma) in
       let* t2 := binop Qcplus t1 (expand 1 gbeta) in
       let* t3 := binop Qcminus gy (scale (1 / of_nat n) t2) in
       binop Qcmult (expand 1 gs) t3
     else
       let* gs := binop Qcmult (expand 1 gamma) (expand 1 inv) in
       let* t1 := binop Qcmult xh (expand 1 ggamma) in
       let* t2 := binop Qcplus t1 (expand 1 gbeta) in
       let* t3 := binop Qcminus gy (scale (1 / of_nat n) t2) in
       binop Qcmult gs t3) = Ok gx0 /\
    shape gx0 = [B; C; L] /\
    forall b c l, (b < B)%nat -> (c < C)%nat -> (l < L)%nat ->
      get3 0 gx0 b c l
      = (nth c (data gamma) 0 * nth c (data inv) 0)
        * (get3 0 gy b c l
           - (1 / of_nat n)
             * (get3 0 xh b c l * nth c (data ggamma) 0
                + nth c (data gbeta) 0))).
  { destruct (chan_binop_r Qcmult xh (expand 1 ggamma) S2
                (shape_expand1 _ Hsgg)) as (t1 & Et1 & St1 & _ & Vt1).
    destruct (chan_binop_r Qcplus t1 (expand 1 gbeta) St1
                (shape_expand1 _ Hsgb)) as (t2 & Et2 & St2 & _ & Vt2).
    assert (Sst2 : shape (scale (1 / of_nat n) t2) = [B; C; L]) by exact St2.
    destruct (same_binop3 Qcminus gy (scale (1 / of_nat n) t2) Hgy Sst2)
      as (t3 & Et3 & St3 & Vt3).
    destruct xp; cbn [is_numpy].
    - destruct (same_binop Qcmult gamma inv Hg His)
        as (gs & Egs & Sgs & _ & Vgs).
      rewrite Egs. cbn [rbind]. rewrite Et1. cbn [rbind]. rewrite Et2.
      cbn [rbind]. rewrite Et3. cbn [rbind].
      destruct (chan_binop_l Qcmult (expand 1 gs) t3 St3
                  (shape_expand1 _ Sgs)) as (g0 & Eg0 & Sg0 & Vg0).
      exists g0. split; [exact Eg0|]. split; [exact Sg0|].
      intros b c l Hb Hc Hl.
      rewrite Vg0, Vt3, get3_scale, Vt2, Vt1 by assumption.
      cbn [expand data].
      rewrite Vgs by (cbn [prod fold_right]; lia). reflexivity.
    - destruct (same_binop Qcmult (expand 1 gamma) (expand 1 inv)
                  (shape_expand1 _ Hg) (shape_expand1 _ His))
        as (gs & Egs & Sgs & _ & Vgs).
      rewrite Egs. cbn [rbind]. rewrite Et1. cbn [rbind]. rewrite Et2.
      cbn [rbind]. rewrite Et3. cbn [rbind].
      destruct (chan_binop_l Qcmult gs t3 St3 Sgs) as (g0 & Eg0 & Sg0 & Vg0).
      exists g0. split; [exact Eg0|]. split; [exact Sg0|].
      intros b c l Hb Hc Hl.
      rewrite Vg0, Vt3, get3_scale, Vt2, Vt1 by assumption.
      rewrite Vgs by (cbn [prod fold_right]; lia). reflexivity. }
  destruct Hgx0 as (gx0 & Egx0 & Sgx0 & Vgx0).
  rewrite Egx0. cbn [rbind]. rewrite Homask. cbn [option_result rbind].
  destruct (@mask_mul gx0 (dtype_of gx0) mk bm B C L Sgx0 Hbm) as (gx & Egx & Sgx & Vgx).
  rewrite Egx. cbn [rbind].
  exists gx, ggamma, gbeta. split; [reflexivity|].
  split; [exact Sgx|]. split; [exact Hsgg|]. split; [exact Hsgb|].
  intros c Hc.
  assert (Hgb : nth c (data gbeta) 0 = qsum (active_elements gy bm B L c)).
  { unfold gbeta. rewrite (nth_sum_axis0 _ Hsagy Hc), (Hcolgy c Hc).
    reflexivity. }
  assert (Hgg : nth c (data ggamma) 0
    = qsum (active B L (fun b l => get3 false bm b c l)
              (fun b l => get3 0 gy b c l * x_hat_at x mean_ inv b c l))).
  { unfold ggamma. rewrite (nth_sum_axis0 _ S3 Hc). f_equal.
    assert (Hlen : length (active B L (fun b l => get3 false bm b c l)
                             (fun b l => get3 0 gy b c l)) = n).
    { rewrite <- (Hcolgy c Hc). unfold column.
      rewrite length_map, length_seq. reflexivity. }
    transitivity
      (map (fun i =>
              nth i (active B L (fun b l => get3 false bm b c l)
                       (fun b l => get3 0 gy b c l)) 0
              * nth i (active B L (fun b l => get3 false bm b c l)
                         (fun b l => get3 0 xh b c l)) 0)
           (seq 0 n)).
    - unfold column at 1. apply map_ext_in. intros i Hi. apply in_seq in Hi.
      rewrite V3.
      2:{ cbn [prod fold_right].
          apply Nat.lt_le_trans with ((i + 1) * C)%nat; [lia|].
          rewrite Nat.mul_1_r. apply Nat.mul_le_mono_r. lia. }
      rewrite <- (Hcolgy c Hc), <- (Hcolxh c Hc).
      rewrite !column_nth by lia. reflexivity.
    - rewrite <- Hlen at 1. rewrite active_mul.
      apply active_ext; [reflexivity|].
      intros b l Hb Hl. rewrite Vxh by assumption. reflexivity. }
  split; [exact Hgb|]. split; [exact Hgg|].
  intros b l Hb Hl.
  rewrite Vgx, Vgx0, Vxh by assumption. ring.
Qed.

(** C3, for a mask that is the same in every channel.  After a
    successful forward call with a mask that does not depend on the
    channel, the backward computation returns,
    for every channel: gbeta, the sum of gy over the active elements;
    ggamma, the sum over the active elements of gy * x_hat with
    x_hat = (x - mean) * inverse_std from the cached statistics; and gx,
    which at an active position is
    (gamma * inverse_std) * (gy - (x_hat * ggamma + gbeta) * inv_m) with
    inv_m = 1 / (number of active elements of a channel), and at an
    inactive position is exactly 0. *)
Theorem C3_masked_backward_gradients
  x gamma beta gy f h y f' h' B C L mk bm :
  shape x = [B; C; L] -> shape gamma = [C] -> shape gy = [B; C; L] ->
  mask f = Some mk -> orig_mask f = Some mk ->
  BatchNormalization_forward rsqrt xp (x, gamma, beta) (f, h)
  = (Ok y, (f', h')) ->
  broadcast_to false mk (shape x) = Ok bm ->
  channel_uniform bm B C L ->
  (0 < n_active bm B L 0)%nat ->
  exists mean_ inv gx ggamma gbeta,
    mean f' = Some mean_ /\ inv_std f' = Some inv /\
    BatchNormalization_backward xp f' gy = Ok (gx, ggamma, gbeta) /\
    shape gx = shape x /\ shape ggamma = [C] /\ shape gbeta = [C] /\
    forall c, (c < C)%nat ->
      nth c (data gbeta) 0 = qsum (active_elements gy bm B L c) /\
      nth c (data ggamma) 0
      = qsum (active B L (fun b l => get3 false bm b c l)
                (fun b l => get3 0 gy b c l * x_hat_at x mean_ inv b c l)) /\
      forall b l, (b < B)%nat -> (l < L)%nat ->
        (get3 false bm b c l = true ->
         get3 0 gx b c l
         = (nth c (data gamma) 0 * nth c (data inv) 0)
           * (get3 0 gy b c l
              - (x_hat_at x mean_ inv b c l * nth c (data ggamma) 0
                 + nth c (data gbeta) 0)
                * (1 / of_nat (n_active bm B L 0)))) /\
        (get3 false bm b c l = false -> get3 0 gx b c l = 0).
Proof.
  intros Hx Hg Hgy Hm Hom H Hbm Hu Hn.
  edestruct forward_inv
    as (bm' & xT & mT & ax & y0 & m & h1 & om & Hinv);
    [exact Hx | exact Hm | exact H |].
  cbv zeta in Hinv.
  destruct Hinv as (Hbm' & HxT & HmT & Hax & Hmean & Hinv & Hmask & Homask
                    & Hret & Hexp & _).
  rewrite Hx in Hbm. rewrite Hbm in Hbm'. injection Hbm' as <-.
  edestruct masked_rows_shape as (n & Hsax & HC & _); [exact Hax|].
  assert (He : expander f' = 1%nat)
    by (rewrite Hexp; unfold ndim; rewrite Hx, Hg; reflexivity).
  set (mean_ := mean_axis0 ax) in *.
  set (inv := amap rsqrt (amap (fun v => v + eps f) (var_axis0 ax))) in *.
  assert (Hms : shape mean_ = [C]) by (eapply shape_mean_axis0, Hsax).
  assert (His : shape inv = [C])
    by (unfold inv; cbn [amap shape]; eapply shape_var_axis0, Hsax).
  set (g := BatchNormalizationGrad_init
              (eps f') (mode f') (expander f') (axis f')
              (mean f') (inv_std f') (active_len f')
              (orig_mask f') (mask f')).
  destruct (@grad_forward_spec g x gamma gy mean_ inv mk bm mT B C L)
    as (gx & ggamma & gbeta & Hgrad & Sgx & Sgg & Sgb & Hv);
    try assumption;
    try solve [ exact He | exact Hmean | exact Hinv | exact Hmask
              | unfold g; cbn [BatchNormalizationGrad_init g_orig_mask];
                congruence
              | lia ].
  exists mean_, inv, gx, ggamma, gbeta.
  split; [exact Hmean|]. split; [exact Hinv|].
  split.
  { unfold BatchNormalization_backward. rewrite Hret.
    cbn [option_result fst snd]. exact Hgrad. }
  split; [congruence|]. split; [exact Sgg|]. split; [exact Sgb|].
  intros c Hc. destruct (Hv c Hc) as (Hgb & Hgg & Hgx).
  split; [exact Hgb|]. split; [exact Hgg|].
  intros b l Hb Hl. rewrite (Hgx b l Hb Hl).
  split; intros ->; cbn [of_bool]; ring.
Qed.

(** ** Channel-shaped arrays viewed through the expander, any rank *)

Lemma bidx_ones (sp : list nat) (j : nat) :
  bidx (repeat 1%nat (length sp)) sp j = 0%nat.
Proof.
  revert j; induction sp as [|d sp IH]; intros j; [reflexivity|].
  cbn [length repeat bidx Nat.eqb]. rewrite IH. lia.
Qed.

Lemma bidx_expand (g sp : list nat) :
  forall j, (j < prod g * prod sp)%nat ->
    bidx (g ++ repeat 1%nat (length sp)) (g ++ sp) j = (j / prod sp)%nat.
Proof.
  induction g as [|d g IH]; intros j Hj.
  - cbn [app]. rewrite bidx_ones. cbn [prod fold_right] in Hj.
    rewrite Nat.div_small by lia. reflexivity.
  - cbn [app bidx]. rewrite !prod_app, prod_ones.
    cbn [prod fold_right] in Hj. fold (prod g) in Hj.
    assert (HS : (0 < prod sp)%nat) by (destruct (prod sp); lia).
    assert (HP : (0 < prod g)%nat) by (destruct (prod g); lia).
    rewrite IH by (apply Nat.mod_upper_bound; lia).
    pose proof (Nat.div_mod_eq j (prod g * prod sp)) as Hdm.
    set (q := (j / (prod g * prod sp))%nat) in *.
    set (r := (j mod (prod g * prod sp))%nat) in *.
    assert (Hjs : (j / prod sp = q * prod g + r / prod sp)%nat).
    { rewrite Hdm.
      replace (prod g * prod sp * q + r)%nat
        with (q * prod g * prod sp + r)%nat by lia.
      rewrite Nat.div_add_l by lia. reflexivity. }
    destruct (Nat.eqb_spec d 1) as [->|Hd].
    + assert (q = 0%nat) by (unfold q; apply Nat.div_small; lia). lia.
    + lia.
Qed.

Lemma bidx_channel (n : nat) (g sp : list nat) (i : nat) :
  (i < n * (prod g * prod sp))%nat ->
  bidx (1%nat :: g ++ repeat 1%nat (length sp)) (n :: g ++ sp) i
  = ((i mod (prod g * prod sp)) / prod sp)%nat
  /\ ((i mod (prod g * prod sp)) / prod sp < prod g)%nat.
Proof.
  intros Hi.
  assert (HGS : (0 < prod g * prod sp)%nat)
    by (destruct (prod g * prod sp)%nat; lia).
  assert (Hm : (i mod (prod g * prod sp) < prod g * prod sp)%nat)
    by (apply Nat.mod_upper_bound; lia).
  split.
  - cbn [bidx Nat.eqb]. rewrite !prod_app.
    rewrite bidx_expand by exact Hm. lia.
  - apply Nat.Div0.div_lt_upper_bound. lia.
Qed.

Lemma compatible_expand (n : nat) (g sp : list nat) :
  compatible (1%nat :: g ++ repeat 1%nat (length sp)) (n :: g ++ sp) = true.
Proof.
  cbn [compatible]. rewrite orb_true_r. cbn [andb].
  induction g as [|d g IH]; cbn [app].
  - induction sp as [|d sp IH]; [reflexivity|].
    cbn [length repeat compatible]. rewrite orb_true_r. exact IH.
  - cbn [compatible]. rewrite Nat.eqb_refl. exact IH.
Qed.

Lemma nth_map_lt {A A'} (f : A -> A') (l : list A) (d : A) (d' : A') (j : nat) :
  (j < length l)%nat -> nth j (map f l) d' = f (nth j l d).
Proof.
  intros H. rewrite (nth_indep _ d' (f d)) by (rewrite length_map; exact H).
  apply map_nth.
Qed.

(** ** The type check of the fixed variant *)

Lemma expect_ok (conds : list bool) :
  expect conds = Ok tt -> forall c, In c conds -> c = true.
Proof.
  unfold expect. destruct (forallb (fun c => c) conds) eqn:E; [|discriminate].
  intros _ c Hc. rewrite forallb_forall in E. apply E, Hc.
Qed.

Lemma slice_channel (s g : list nat) :
  slice 1 (1 + length g) s = g -> (length g + 1 <= length s)%nat ->
  exists n sp, s = n :: g ++ sp /\ length sp = (length s - (length g + 1))%nat.
Proof.
  unfold slice. destruct s as [|n s]; cbn [length]; [lia|].
  replace (1 + length g - 1)%nat with (length g) by lia. cbn [skipn].
  intros H Hl. exists n, (skipn (length g) s). split.
  - f_equal. rewrite <- H at 1. symmetry. apply firstn_skipn.
  - rewrite length_skipn. lia.
Qed.

Lemma fixed_check_shapes (x gamma beta mean_ var : ndarray Qc) :
  FixedBatchNormalization_check_type_forward
    [type_of x; type_of gamma; type_of beta; type_of mean_; type_of var]
  = Ok tt ->
  shape beta = shape gamma /\ shape mean_ = shape gamma /\
  shape var = shape gamma /\
  exists n sp, shape x = n :: shape gamma ++ sp /\
               length sp = (ndim x - (ndim gamma + 1))%nat.
Proof.
  unfold FixedBatchNormalization_check_type_forward.
  cbn [length Nat.eqb expect forallb andb rbind].
  unfold ti_ndim. cbn [type_of ti_dtype ti_shape]. intros H.
  pose proof (expect_ok _ H) as Hall. clear H.
  assert (H2 : (length (shape gamma) + 1 <=? length (shape x))%nat = true)
    by (apply Hall; cbn [In]; repeat (first [left; reflexivity | right])).
  assert (H3 : shape_eqb (slice 1 (1 + length (shape gamma)) (shape x))
                 (shape gamma) = true) by (apply Hall; cbn [In]; repeat (first [left; reflexivity | right])).
  assert (H6 : shape_eqb (shape gamma) (shape beta) = true)
    by (apply Hall; cbn [In]; repeat (first [left; reflexivity | right])).
  assert (H8 : shape_eqb (shape mean_) (shape gamma) = true)
    by (apply Hall; cbn [In]; repeat (first [left; reflexivity | right])).
  assert (H10 : shape_eqb (shape var) (shape gamma) = true)
    by (apply Hall; cbn [In]; repeat (first [left; reflexivity | right])).
  apply shape_eqb_eq in H3, H6, H8, H10. apply Nat.leb_le in H2.
  split; [congruence|]. split; [exact H8|]. split; [exact H10|].
  apply slice_channel; assumption.
Qed.

(** ** The fixed variant *)

Lemma skipn_app_exact {A} (l l' : list A) : skipn (length l) (l ++ l') = l'.
Proof. induction l as [|a l IH]; [reflexivity|exact IH]. Qed.

(** Shapes and channels of the inputs of a fixed call that passed the
    type check. *)
Lemma fixed_layout (x gamma beta mean_ var : ndarray Qc) :
  FixedBatchNormalization_check_type_forward
    [type_of x; type_of gamma; type_of beta; type_of mean_; type_of var]
  = Ok tt ->
  shape beta = shape gamma /\ shape mean_ = shape gamma /\
  shape var = shape gamma /\
  compatible (1%nat :: shape gamma
              ++ repeat 1%nat (ndim x - (ndim gamma + 1))) (shape x) = true /\
  forall i, (i < size x)%nat ->
    bidx (1%nat :: shape gamma ++ repeat 1%nat (ndim x - (ndim gamma + 1)))
         (shape x) i = channel_of x gamma i /\
    (channel_of x gamma i < size gamma)%nat.
Proof.
  intros H.
  destruct (fixed_check_shapes _ _ _ _ _ H)
    as (Hb & Hm & Hv & n & sp & Hx & Hsp).
  split; [exact Hb|]. split; [exact Hm|]. split; [exact Hv|].
  rewrite <- Hsp. rewrite Hx.
  split; [apply compatible_expand|].
  intros i Hi.
  assert (HS : spatial_size x gamma = prod sp).
  { unfold spatial_size, ndim. rewrite Hx. cbn [Nat.add skipn].
    rewrite skipn_app_exact. reflexivity. }
  unfold channel_of. rewrite HS. unfold size in *.
  rewrite Hx in Hi. cbn [prod fold_right] in Hi.
  fold (prod (shape gamma ++ sp)) in Hi. rewrite prod_app in Hi.
  apply bidx_channel, Hi.
Qed.

Lemma Qcinv_1 : / 1 = 1.
Proof. apply Qc_is_canon. reflexivity. Qed.

(** C5. A fixed forward call that passes the type check returns, for
    every element of x, gamma * (x - mean) * inverse_std + beta with
    inverse_std = sqrt(1 / (var + eps)) of the element's channel, over
    the full tensor and without a mask; with mean = 0, var = 1 and
    eps = 0 the output is exactly gamma * x + beta. *)
Theorem C5_fixed_forward_output
  (x gamma beta mean_ var : ndarray Qc) (s : FixedBatchNormalization) :
  FixedBatchNormalization_check_type_forward
    [type_of x; type_of gamma; type_of beta; type_of mean_; type_of var]
  = Ok tt ->
  wf var ->
  exists y,
    fst (FixedBatchNormalization_apply sqrt xp
           (x, gamma, beta, mean_, var) s) = Ok y /\
    shape y = shape x /\
    (forall i, (i < size x)%nat ->
       let j := channel_of x gamma i in
       nth i (data y) 0
       = nth j (data gamma) 0
         * ((nth i (data x) 0 - nth j (data mean_) 0)
            * sqrt (/ (nth j (data var) 0 + f_eps s)))
         + nth j (data beta) 0) /\
    (sqrt 1 = 1 -> f_eps s = 0 ->
     (forall j, nth j (data mean_) 0 = 0) ->
     (forall j, (j < size var)%nat -> nth j (data var) 0 = 1) ->
     forall i, (i < size x)%nat ->
       let j := channel_of x gamma i in
       nth i (data y) 0
       = nth j (data gamma) 0 * nth i (data x) 0 + nth j (data beta) 0).
Proof.
  intros Hck Hwf.
  destruct (fixed_layout _ _ _ _ _ Hck) as (Hb & Hm & Hv & Hc & Hidx).
  set (k := (ndim x - (ndim gamma + 1))%nat) in *.
  set (inv_std := amap sqrt (amap Qcinv (amap (fun v => v + f_eps s) var))).
  destruct (@apply_bn_fwd_compat x (expand k mean_) (expand k inv_std)
              (expand k gamma) (expand k beta)
              (1%nat :: shape gamma ++ repeat 1%nat k))
    as (y & Hy & Hsy & _ & Hvy).
  { cbn [expand shape]. rewrite Hm. reflexivity. }
  { cbn [expand shape inv_std amap]. rewrite Hv. reflexivity. }
  { reflexivity. }
  { cbn [expand shape]. rewrite Hb. reflexivity. }
  { exact Hc. }
  assert (Hmain : forall i, (i < size x)%nat ->
     nth i (data y) 0
     = nth (channel_of x gamma i) (data gamma) 0
       * ((nth i (data x) 0 - nth (channel_of x gamma i) (data mean_) 0)
          * sqrt (/ (nth (channel_of x gamma i) (data var) 0 + f_eps s)))
       + nth (channel_of x gamma i) (data beta) 0).
  { intros i Hi. destruct (Hidx i Hi) as (Hj & Hlt).
    rewrite (Hvy i Hi). cbv zeta. rewrite Hj.
    cbn [expand data inv_std amap]. rewrite !map_map.
    rewrite (nth_map_lt _ _ 0).
    2:{ unfold wf, size in Hwf. rewrite Hwf, Hv. exact Hlt. }
    reflexivity. }
  exists y. split.
  { unfold FixedBatchNormalization_apply, bind, lift. rewrite Hck.
    unfold FixedBatchNormalization_forward, bind, get, modify, lift, ret.
    cbn [fst snd]. fold k. fold inv_std. rewrite Hy. reflexivity. }
  split; [exact Hsy|]. split; [exact Hmain|].
  intros Hsq He Hm0 Hv1 i Hi. cbv zeta.
  destruct (Hidx i Hi) as (_ & Hlt).
  rewrite (Hmain i Hi), Hm0, He.
  rewrite Hv1 by (unfold size; rewrite Hv; exact Hlt).
  replace (1 + 0) with 1 by ring. rewrite Qcinv_1, Hsq. ring.
Qed.

(** ** Reduction over the batch and spatial axes *)

Lemma map_const_in {A A'} (f : A -> A') (c : A') (l : list A) :
  (forall a, In a l -> f a = c) -> map f l = repeat c (length l).
Proof.
  induction l as [|a l IH]; intros H; [reflexivity|].
  cbn [map length repeat]. rewrite H by (left; reflexivity).
  rewrite IH; [reflexivity|]. intros b Hb. apply H. right. exact Hb.
Qed.

Lemma keep_mask_channel (M K : nat) :
  keep_mask (1 + M + K) (0%nat :: range (M + 1) (1 + M + K))
  = false :: repeat true M ++ repeat false K.
Proof.
  unfold keep_mask, range.
  replace (1 + M + K - (M + 1))%nat with K by lia.
  replace (1 + M + K)%nat with (1 + (M + K))%nat by lia.
  rewrite (seq_app 1 (M + K) 0). cbn [seq map app Nat.add].
  f_equal. rewrite (seq_app M K 1), map_app. f_equal.
  - rewrite <- (length_seq M 1) at 2. apply map_const_in.
    intros a Ha. apply in_seq in Ha. cbn [existsb].
    destruct (Nat.eqb_spec a 0); [lia|]. cbn [orb negb].
    destruct (existsb (Nat.eqb a) (seq (M + 1) K)) eqn:E; [|reflexivity].
    apply existsb_exists in E as (b & Hb & Hab).
    apply in_seq in Hb. apply Nat.eqb_eq in Hab. lia.
  - rewrite <- (length_seq K (1 + M)) at 2. apply map_const_in.
    intros a Ha. apply in_seq in Ha. cbn [existsb].
    destruct (existsb (Nat.eqb a) (seq (M + 1) K)) eqn:E;
      [rewrite orb_true_r; reflexivity|].
    exfalso. assert (Hx : existsb (Nat.eqb a) (seq (M + 1) K) = true).
    { apply existsb_exists. exists a. split; [apply in_seq; lia|].
      apply Nat.eqb_refl. }
    congruence.
Qed.

Lemma select_all {A} (l : list A) : select l (repeat true (length l)) = l.
Proof. induction l as [|a l IH]; [reflexivity|]. cbn. rewrite IH. reflexivity. Qed.

Lemma select_none {A} (l : list A) : select l (repeat false (length l)) = [].
Proof. induction l as [|a l IH]; [reflexivity|exact IH]. Qed.

Lemma kept_channel (g sp : list nat) :
  kept (repeat true (length g) ++ repeat false (length sp)) (g ++ sp) = g.
Proof.
  unfold kept. rewrite select_app by (rewrite repeat_length; reflexivity).
  rewrite select_all, select_none. apply app_nil_r.
Qed.

Lemma ridx_none (sp : list nat) (j : nat) :
  ridx (repeat false (length sp)) sp j = 0%nat.
Proof.
  revert j; induction sp as [|d sp IH]; intros j; [reflexivity|].
  cbn [length repeat ridx]. rewrite IH. reflexivity.
Qed.

Lemma ridx_expand (g sp : list nat) :
  forall j, (j < prod g * prod sp)%nat ->
    ridx (repeat true (length g) ++ repeat false (length sp)) (g ++ sp) j
    = (j / prod sp)%nat.
Proof.
  induction g as [|d g IH]; intros j Hj.
  - cbn [app length repeat]. rewrite ridx_none. cbn [prod fold_right] in Hj.
    rewrite Nat.div_small by lia. reflexivity.
  - cbn [app length repeat ridx]. rewrite kept_channel, prod_app.
    cbn [prod fold_right] in Hj. fold (prod g) in Hj.
    assert (HS : (0 < prod sp)%nat) by (destruct (prod sp); lia).
    assert (HP : (0 < prod g)%nat) by (destruct (prod g); lia).
    rewrite IH by (apply Nat.mod_upper_bound; lia).
    pose proof (Nat.div_mod_eq j (prod g * prod sp)) as Hdm.
    set (q := (j / (prod g * prod sp))%nat) in *.
    set (r := (j mod (prod g * prod sp))%nat) in *.
    assert (Hjs : (j / prod sp = q * prod g + r / prod sp)%nat).
    { rewrite Hdm.
      replace (prod g * prod sp * q + r)%nat
        with (q * prod g * prod sp + r)%nat by lia.
      rewrite Nat.div_add_l by lia. reflexivity. }
    lia.
Qed.

(** The reduction the fixed backward computation performs, in terms of
    the channel of each element. *)
Lemma sum_axes_channel (a x gamma : ndarray Qc) (n : nat) (sp : list nat) :
  shape a = shape x ->
  shape x = n :: shape gamma ++ sp ->
  sum_axes (0%nat :: range (ndim gamma + 1) (ndim x)) a
  = Ok (mk_ndarray (dtype_of a) (shape gamma)
          (map (fun j => channel_sum x gamma (data a) j)
               (seq 0 (size gamma)))).
Proof.
  intros Ha Hx.
  assert (Hnd : ndim x = (1 + ndim gamma + length sp)%nat).
  { unfold ndim. rewrite Hx. cbn [length]. rewrite length_app. lia. }
  unfold sum_axes.
  assert (Hall : forallb (fun ax => ax <? ndim a)%nat
                   (0%nat :: range (ndim gamma + 1) (ndim x)) = true).
  { apply forallb_forall. intros ax [<-|Hin].
    - apply Nat.ltb_lt. unfold ndim. rewrite Ha, Hx. cbn [length]. lia.
    - unfold range in Hin. apply in_seq in Hin. apply Nat.ltb_lt.
      unfold ndim in *. rewrite Ha. lia. }
  rewrite Hall.
  assert (Hk : keep_mask (ndim a) (0%nat :: range (ndim gamma + 1) (ndim x))
               = false :: repeat true (ndim gamma)
                 ++ repeat false (length sp)).
  { replace (ndim a) with (ndim x) by (unfold ndim; rewrite Ha; reflexivity).
    rewrite Hnd. apply keep_mask_channel. }
  rewrite Hk, Ha, Hx. unfold kept at 1 2. cbn [select].
  fold (kept (repeat true (ndim gamma) ++ repeat false (length sp))
             (shape gamma ++ sp)).
  unfold ndim. rewrite !kept_channel. fold (size gamma).
  f_equal. f_equal. apply map_ext. intros j. unfold channel_sum.
  f_equal. f_equal. unfold size. rewrite Ha, Hx.
  apply map_ext_in. intros i Hi. apply in_seq in Hi.
  cbn [prod fold_right] in Hi. fold (prod (shape gamma ++ sp)) in Hi.
  rewrite prod_app in Hi.
  assert (HGS : (0 < prod (shape gamma) * prod sp)%nat)
    by (destruct (prod (shape gamma) * prod sp)%nat; lia).
  cbn [ridx]. rewrite prod_app. unfold ndim.
  rewrite ridx_expand by (apply Nat.mod_upper_bound; lia).
  unfold channel_of, size, spatial_size, ndim. rewrite Hx.
  cbn [Nat.add skipn]. rewrite skipn_app_exact. reflexivity.
Qed.

(** ** The fixed backward computation *)

Lemma bc_binop_r (f : Qc -> Qc -> Qc) (a q : ndarray Qc) :
  compatible (shape q) (shape a) = true ->
  exists r, binop f a q = Ok r /\ shape r = shape a /\
    forall i, (i < size a)%nat ->
      nth i (data r) 0
      = f (nth i (data a) 0) (nth (bidx (shape q) (shape a) i) (data q) 0).
Proof.
  intros Hc. rewrite (binop_r _ _ _ Hc). eexists. split; [reflexivity|].
  split; [reflexivity|]. intros i Hi. cbn [data].
  rewrite nth_map_seq by exact Hi. reflexivity.
Qed.

Lemma bc_iop_r (f : Qc -> Qc -> Qc) (a q : ndarray Qc) :
  compatible (shape q) (shape a) = true ->
  exists r, iop f a q = Ok r /\ shape r = shape a /\
    forall i, (i < size a)%nat ->
      nth i (data r) 0
      = f (nth i (data a) 0) (nth (bidx (shape q) (shape a) i) (data q) 0).
Proof.
  intros Hc. rewrite (iop_r _ _ _ Hc), <- (binop_r _ _ _ Hc).
  apply bc_binop_r, Hc.
Qed.

Lemma bc_binop_l (f : Qc -> Qc -> Qc) (q a : ndarray Qc) :
  compatible (shape q) (shape a) = true ->
  exists r, binop f q a = Ok r /\ shape r = shape a /\
    forall i, (i < size a)%nat ->
      nth i (data r) 0
      = f (nth (bidx (shape q) (shape a) i) (data q) 0) (nth i (data a) 0).
Proof.
  intros Hc. rewrite (binop_l _ _ _ Hc). eexists. split; [reflexivity|].
  split; [reflexivity|]. intros i Hi. cbn [data].
  rewrite nth_map_seq by exact Hi. reflexivity.
Qed.

Lemma nth_map0 (f : Qc -> Qc) (l : list Qc) (j : nat) :
  f 0 = 0 -> nth j (map f l) 0 = f (nth j l 0).
Proof.
  intros H. rewrite <- (map_nth f l 0 j). rewrite H. reflexivity.
Qed.

Lemma Qcopp_0 : - 0 = 0.
Proof. apply Qc_is_canon. reflexivity. Qed.

(** A gradient object that holds nothing of the forward call recomputes
    inverse_var and inverse_std; one that holds them uses them. *)
Lemma grad_cache (inputs : inputs5) (f : FixedBatchNormalizationGrad) :
  let '(x, gamma, mean_, var, gy) := inputs in
  cache_ok f var sqrt ->
  fst (FixedBatchNormalizationGrad_forward sqrt inputs f)
  = fst (FixedBatchNormalizationGrad_forward sqrt inputs
           (mk_FBNGrad (fg_eps f) (fg_expander f) (fg_axis f)
              (Some (amap sqrt (amap Qcinv
                       (amap (fun a => a + fg_eps f) var))))
              (Some (amap Qcinv (amap (fun a => a + fg_eps f) var)))
              (fg_gamma_over_std f))).
Proof.
  destruct inputs as [[[[x gamma] mean_] var] gy].
  destruct f as [e ex ax [ist|] [iv|] gos]; unfold cache_ok;
    cbn [fg_inv_std fg_inv_var fg_eps fg_expander fg_axis fg_gamma_over_std];
    intros Hc; try reflexivity.
  destruct Hc as [-> ->]. reflexivity.
Qed.

(** C6. The fixed backward computation returns, over the full tensor
    and without a mask: gx = gamma_over_std * gy with
    gamma_over_std = gamma * inverse_std; gbeta, the sum of gy over axis
    0 and the axes behind the channel axes; ggamma, the sum of
    x_hat * gy over the same axes, with x_hat = (x - mean) * inverse_std;
    gmean = - gamma_over_std * gbeta; and
    gvar = - 0.5 * gamma * inverse_var * ggamma; inverse_var = 1 / (var +
    eps) and inverse_std = sqrt(inverse_var) are those of the forward
    call, or are recomputed from var and eps when the object does not
    hold them. *)
Theorem C6_fixed_backward_gradients
  (x gamma mean_ var gy : ndarray Qc) (f : FixedBatchNormalizationGrad)
  (n : nat) (sp : list nat) :
  shape x = n :: shape gamma ++ sp ->
  shape mean_ = shape gamma -> shape var = shape gamma ->
  shape gy = shape x ->
  wf var ->
  fg_expander f = (ndim x - (ndim gamma + 1))%nat ->
  fg_axis f = 0%nat :: range (ndim gamma + 1) (ndim x) ->
  cache_ok f var sqrt ->
  exists gx ggamma gbeta gmean gvar,
    fst (FixedBatchNormalizationGrad_forward sqrt
           (x, gamma, mean_, var, gy) f)
    = Ok (gx, ggamma, gbeta, gmean, gvar) /\
    shape gx = shape x /\ shape ggamma = shape gamma /\
    shape gbeta = shape gamma /\ shape gmean = shape gamma /\
    shape gvar = shape gamma /\
    let inv_var := fun j => / (nth j (data var) 0 + fg_eps f) in
    let inv_std := fun j => sqrt (inv_var j) in
    let x_hat := fun i =>
      (nth i (data x) 0 - nth (channel_of x gamma i) (data mean_) 0)
      * inv_std (channel_of x gamma i) in
    (forall i, (i < size x)%nat ->
       nth i (data gx) 0
       = (nth (channel_of x gamma i) (data gamma) 0
          * inv_std (channel_of x gamma i)) * nth i (data gy) 0) /\
    forall j, (j < size gamma)%nat ->
      nth j (data gbeta) 0 = channel_sum x gamma (data gy) j /\
      nth j (data ggamma) 0
      = channel_sum x gamma
          (map (fun i => x_hat i * nth i (data gy) 0) (seq 0 (size x))) j /\
      nth j (data gmean) 0
      = - (nth j (data gamma) 0 * inv_std j) * nth j (data gbeta) 0 /\
      nth j (data gvar) 0
      = neg_half * nth j (data gamma) 0 * inv_var j * nth j (data ggamma) 0.
Proof.
  intros Hx Hm Hv Hgy Hwf Hex Hax Hc.
  pose proof (@grad_cache (x, gamma, mean_, var, gy) f) as Hcache.
  cbv beta iota in Hcache. rewrite (Hcache Hc). clear Hcache.
  set (IV := amap Qcinv (amap (fun a => a + fg_eps f) var)).
  set (IS := amap sqrt IV).
  set (k := (ndim x - (ndim gamma + 1))%nat) in *.
  assert (Hsp : length sp = k).
  { unfold k, ndim. rewrite Hx. cbn [length]. rewrite length_app. lia. }
  assert (Hcomp : compatible (1%nat :: shape gamma ++ repeat 1%nat k)
                    (shape x) = true)
    by (rewrite Hx, <- Hsp; apply compatible_expand).
  assert (Hidx : forall i, (i < size x)%nat ->
            bidx (1%nat :: shape gamma ++ repeat 1%nat k) (shape x) i
            = channel_of x gamma i /\
            (channel_of x gamma i < size gamma)%nat).
  { intros i Hi. rewrite <- Hsp. rewrite Hx.
    assert (HS : spatial_size x gamma = prod sp).
    { unfold spatial_size, ndim. rewrite Hx. cbn [Nat.add skipn].
      rewrite skipn_app_exact. reflexivity. }
    unfold channel_of. rewrite HS. unfold size in *.
    rewrite Hx in Hi. cbn [prod fold_right] in Hi.
    fold (prod (shape gamma ++ sp)) in Hi. rewrite prod_app in Hi.
    apply bidx_channel, Hi. }
  assert (HIV : forall j, (j < size gamma)%nat ->
            nth j (data IV) 0 = / (nth j (data var) 0 + fg_eps f)).
  { intros j Hj. unfold IV. cbn [amap data]. rewrite map_map.
    apply (@nth_map_lt _ _ (fun a => / (a + fg_eps f)) (data var) 0 0 j).
    unfold wf, size in Hwf. rewrite Hwf, Hv. exact Hj. }
  assert (HIS : forall j, (j < size gamma)%nat ->
            nth j (data IS) 0 = sqrt (/ (nth j (data var) 0 + fg_eps f))).
  { intros j Hj. unfold IS, IV. cbn [amap data]. rewrite !map_map.
    apply (@nth_map_lt _ _ (fun a => sqrt (/ (a + fg_eps f))) (data var)
             0 0 j).
    unfold wf, size in Hwf. rewrite Hwf, Hv. exact Hj. }
  assert (SIV : shape IV = shape gamma) by exact Hv.
  assert (SIS : shape IS = shape gamma) by exact Hv.
  (* the steps of the computation *)
  destruct (@same_binop Qcmult gamma IS (shape gamma) eq_refl SIS)
    as (gos & Egos & Sgos & _ & Vgos).
  destruct (@bc_binop_r Qcminus x (expand k mean_)) as (xm & Exm & Sxm & Vxm).
  { cbn [expand shape]. rewrite Hm. exact Hcomp. }
  destruct (@bc_iop_r Qcmult xm (expand k IS)) as (xh & Exh & Sxh & Vxh).
  { cbn [expand shape]. rewrite SIS, Sxm. exact Hcomp. }
  destruct (@bc_binop_l Qcmult (expand k gos) gy) as (gx & Egx & Sgx & Vgx).
  { cbn [expand shape]. rewrite Sgos, Hgy. exact Hcomp. }
  assert (Sxh' : shape xh = shape x) by congruence.
  pose proof (@sum_axes_channel gy x gamma n sp Hgy Hx) as Egb.
  assert (Hcxg : compatible (shape gy) (shape xh) = true)
    by (rewrite Hgy, Sxh'; apply compatible_refl).
  pose proof (binop_r Qcmult xh gy Hcxg) as Exg.
  set (xg := mk_ndarray (dtype_of xh) (shape xh)
               (map (fun i => nth i (data xh) 0
                              * nth (bidx (shape gy) (shape xh) i) (data gy) 0)
                    (seq 0 (size xh)))) in *.
  pose proof (@sum_axes_channel xg x gamma n sp Sxh' Hx) as Egg.
  set (gbeta := mk_ndarray (dtype_of gy) (shape gamma)
                  (map (fun j => channel_sum x gamma (data gy) j)
                       (seq 0 (size gamma)))) in *.
  set (ggamma := mk_ndarray (dtype_of xg) (shape gamma)
                   (map (fun j => channel_sum x gamma (data xg) j)
                        (seq 0 (size gamma)))) in *.
  destruct (@same_binop Qcmult (amap Qcopp gos) gbeta (shape gamma)
              Sgos eq_refl) as (gmean & Egm & Sgm & _ & Vgm).
  destruct (@same_binop Qcmult (scale neg_half gamma) IV (shape gamma)
              eq_refl SIV) as (t & Et & St & _ & Vt).
  destruct (@same_binop Qcmult t ggamma (shape gamma) St eq_refl)
    as (gvar & Egv & Sgv & _ & Vgv).
  exists gx, ggamma, gbeta, gmean, gvar.
  split.
  { unfold FixedBatchNormalizationGrad_forward, bind, get, modify, lift, ret.
    cbn [fst snd fg_inv_std fg_inv_var fg_expander fg_axis fg_eps
         option_result].
    fold IV. fold IS. rewrite Hex. fold k. rewrite Egos.
    unfold _x_hat. rewrite Exm. cbn [rbind]. rewrite Exh.
    cbn [fst snd fg_axis]. rewrite Egx, Hax, Egb, Exg, Egg, Egm, Et, Egv.
    reflexivity. }
  split; [congruence|]. split; [reflexivity|]. split; [reflexivity|].
  split; [exact Sgm|]. split; [exact Sgv|].
  cbv zeta.
  assert (Hxh : forall i, (i < size x)%nat ->
            nth i (data xh) 0
            = (nth i (data x) 0 - nth (channel_of x gamma i) (data mean_) 0)
              * sqrt (/ (nth (channel_of x gamma i) (data var) 0 + fg_eps f))).
  { intros i Hi. destruct (Hidx i Hi) as (Hj & Hlt).
    rewrite Vxh by (unfold size in *; rewrite Sxm; exact Hi).
    rewrite Vxm by exact Hi.
    cbn [expand shape data]. rewrite Sxm, SIS, Hm, Hj, (HIS _ Hlt).
    reflexivity. }
  split.
  { intros i Hi. destruct (Hidx i Hi) as (Hj & Hlt).
    rewrite Vgx by (unfold size in *; rewrite Hgy; exact Hi).
    cbn [expand shape data]. rewrite Sgos, Hgy, Hj.
    rewrite Vgos by exact Hlt. rewrite (HIS _ Hlt). reflexivity. }
  intros j Hj.
  assert (Hgb : nth j (data gbeta) 0 = channel_sum x gamma (data gy) j).
  { unfold gbeta. cbn [data]. rewrite nth_map_seq by exact Hj. reflexivity. }
  assert (Hgg : nth j (data ggamma) 0
    = channel_sum x gamma
        (map (fun i =>
                (nth i (data x) 0 - nth (channel_of x gamma i) (data mean_) 0)
                * sqrt (/ (nth (channel_of x gamma i) (data var) 0 + fg_eps f))
                * nth i (data gy) 0) (seq 0 (size x))) j).
  { unfold ggamma. cbn [data]. rewrite nth_map_seq by exact Hj.
    unfold xg. cbn [data]. f_equal. unfold size. rewrite Sxh'.
    apply map_ext_in. intros i Hi. apply in_seq in Hi.
    rewrite Hxh by (unfold size; lia).
    rewrite Hgy, <- Sxh', bidx_same by (rewrite Sxh'; lia). reflexivity. }
  split; [exact Hgb|]. split; [exact Hgg|].
  split.
  - rewrite Vgm by exact Hj. cbn [amap data].
    rewrite (nth_map0 Qcopp _ _ Qcopp_0). rewrite Vgos by exact Hj.
    rewrite (HIS _ Hj). reflexivity.
  - rewrite Vgv, Vt by exact Hj. cbn [scale amap data].
    rewrite nth_scale, (HIV _ Hj). reflexivity.
Qed.

(** ** Deciding the side conditions *)

Lemma channel_uniformb_ok (bm : ndarray bool) (B C L : nat) :
  channel_uniformb bm B C L = true -> channel_uniform bm B C L.
Proof.
  unfold channel_uniformb. intros H b c c' l Hb Hc Hc' Hl.
  rewrite forallb_forall in H.
  specialize (H b ltac:(apply in_seq; lia)).
  rewrite forallb_forall in H.
  specialize (H c ltac:(apply in_seq; lia)).
  rewrite forallb_forall in H.
  specialize (H c' ltac:(apply in_seq; lia)).
  rewrite forallb_forall in H.
  specialize (H l ltac:(apply in_seq; lia)).
  apply Bool.eqb_prop, H.
Defined.

Lemma returned {A S T} (d : A) (r : result A * (S * T)) :
  is_ok (fst r) = true ->
  r = (Ok (value d (fst r)), (fst (snd r), snd (snd r))).
Proof.
  destruct r as [[a|e] [s t]]; cbn; intros H.
  - reflexivity.
  - discriminate H.
Defined.

Lemma Qc_eqb_refl (a : Qc) : Qc_eqb a a = true.
Proof. apply Qeq_bool_iff. reflexivity. Qed.

End Proofs.

(** ** The theorems at the sample inputs *)


(** C2 on the sample call: the statistics of both channels are those of
    their first two elements. *)
Lemma C2_sample_statistics :
  exists mean_ var,
    mean (sample_after row_mask None None []) = Some mean_ /\
    inv_std (sample_after row_mask None None []) = Some (amap Qcinv var) /\
    shape mean_ = [2%nat] /\ shape var = [2%nat] /\
    forall c, (c < 2)%nat ->
      (0 < length (active_elements sample_x row_mask_full 1 3 c))%nat ->
      nth c (data mean_) 0
      = mean_list (active_elements sample_x row_mask_full 1 3 c) /\
      nth c (data var) 0
      = var_list (active_elements sample_x row_mask_full 1 3 c)
        + eps (sample_bn row_mask None None).
Proof.
  apply (C2_statistics_over_active_elements Qcinv numpy
           sample_x sample_gamma sample_beta
           (sample_bn row_mask None None) []
           (y := sample_y row_mask None None [])
           (h' := sample_heap_after row_mask None None [])
           (mk := row_mask)).
  - reflexivity.
  - reflexivity.
  - apply (returned empty (sample_run row_mask None None [])).
    vm_compute. reflexivity.
  - vm_compute. reflexivity.
  - apply channel_uniformb_ok. vm_compute. reflexivity.
Defined.

(** C3 on the sample call. *)
Lemma C3_sample_gradients :
  exists mean_ inv gx ggamma gbeta,
    mean (sample_after row_mask None None []) = Some mean_ /\
    inv_std (sample_after row_mask None None []) = Some inv /\
    BatchNormalization_backward numpy
      (sample_after row_mask None None []) sample_gy
    = Ok (gx, ggamma, gbeta) /\
    shape gx = shape sample_x /\
    shape ggamma = [2%nat] /\ shape gbeta = [2%nat] /\
    forall c, (c < 2)%nat ->
      nth c (data gbeta) 0
      = qsum (active_elements sample_gy row_mask_full 1 3 c) /\
      nth c (data ggamma) 0
      = qsum (active 1 3 (fun b l => get3 false row_mask_full b c l)
                (fun b l => get3 0 sample_gy b c l
                            * x_hat_at sample_x mean_ inv b c l)) /\
      forall b l, (b < 1)%nat -> (l < 3)%nat ->
        (get3 false row_mask_full b c l = true ->
         get3 0 gx b c l
         = (nth c (data sample_gamma) 0 * nth c (data inv) 0)
           * (get3 0 sample_gy b c l
              - (x_hat_at sample_x mean_ inv b c l * nth c (data ggamma) 0
                 + nth c (data gbeta) 0)
                * (1 / of_nat (n_active row_mask_full 1 3 0)))) /\
        (get3 false row_mask_full b c l = false -> get3 0 gx b c l = 0).
Proof.
  apply (C3_masked_backward_gradients Qcinv numpy
           sample_x sample_gamma sample_beta sample_gy
           (sample_bn row_mask None None) []
           (y := sample_y row_mask None None [])
           (h' := sample_heap_after row_mask None None [])
           (mk := row_mask)).
  - reflexivity.
  - reflexivity.
  - reflexivity.
  - reflexivity.
  - reflexivity.
  - apply (returned empty (sample_run row_mask None None [])).
    vm_compute. reflexivity.
  - vm_compute. reflexivity.
  - apply channel_uniformb_ok. vm_compute. reflexivity.
  - vm_compute. lia.
Defined.



(** C5 on the sample inputs, and its special case: with a zero mean, a
    unit variance and eps = 0 the output is gamma * x + beta. *)
Lemma C5_sample_output :
  exists y,
    fixed_batch_normalization sample_sqrt numpy
      sample_x sample_gamma sample_beta sample_mean sample_var 0 = Ok y /\
    shape y = shape sample_x /\
    forall i, (i < size sample_x)%nat ->
      nth i (data y) 0
      = nth (channel_of sample_x sample_gamma i) (data sample_gamma) 0
        * nth i (data sample_x) 0
        + nth (channel_of sample_x sample_gamma i) (data sample_beta) 0.
Proof.
  destruct (C5_fixed_forward_output sample_sqrt numpy
              sample_x sample_gamma sample_beta sample_mean
              (var := sample_var) (FixedBatchNormalization_init 0))
    as (y & Hy & Hs & _ & H).
  - vm_compute. reflexivity.
  - reflexivity.
  - exists y. split; [exact Hy|]. split; [exact Hs|].
    apply H.
    + reflexivity.
    + reflexivity.
    + intros [|[|[|j]]]; reflexivity.
    + intros [|[|j]] Hj; [reflexivity | reflexivity | ].
      vm_compute in Hj. lia.
Defined.

(** C6 on the sample inputs, with an object that holds nothing of the
    forward call. *)
Lemma C6_sample_gradients :
  exists gx ggamma gbeta gmean gvar,
    fst (FixedBatchNormalizationGrad_forward sample_sqrt
           (sample_x, sample_gamma, sample_mean, sample_var, sample_gy)
           (FixedBatchNormalizationGrad_init 0 1 [0; 2]%nat None None))
    = Ok (gx, ggamma, gbeta, gmean, gvar) /\
    shape gx = shape sample_x /\ shape ggamma = shape sample_gamma /\
    shape gbeta = shape sample_gamma /\ shape gmean = shape sample_gamma /\
    shape gvar = shape sample_gamma /\
    (forall i, (i < size sample_x)%nat ->
       nth i (data gx) 0
       = (nth (channel_of sample_x sample_gamma i) (data sample_gamma) 0
          * sample_sqrt
              (/ (nth (channel_of sample_x sample_gamma i)
                      (data sample_var) 0 + 0)))
         * nth i (data sample_gy) 0) /\
    forall j, (j < size sample_gamma)%nat ->
      nth j (data gbeta) 0
      = channel_sum sample_x sample_gamma (data sample_gy) j /\
      nth j (data ggamma) 0
      = channel_sum sample_x sample_gamma
          (map (fun i =>
                  (nth i (data sample_x) 0
                   - nth (channel_of sample_x sample_gamma i)
                         (data sample_mean) 0)
                  * sample_sqrt
                      (/ (nth (channel_of sample_x sample_gamma i)
                              (data sample_var) 0 + 0))
                  * nth i (data sample_gy) 0)
               (seq 0 (size sample_x))) j /\
      nth j (data gmean) 0
      = - (nth j (data sample_gamma) 0
           * sample_sqrt (/ (nth j (data sample_var) 0 + 0)))
        * nth j (data gbeta) 0 /\
      nth j (data gvar) 0
      = neg_half * nth j (data sample_gamma) 0
        * / (nth j (data sample_var) 0 + 0) * nth j (data ggamma) 0.
Proof.
  apply (C6_fixed_backward_gradients sample_sqrt
           sample_x sample_gamma sample_mean (var := sample_var) sample_gy
           (FixedBatchNormalizationGrad_init 0 1 [0; 2]%nat None None)
           (n := 1%nat) [3%nat]).
  - reflexivity.
  - reflexivity.
  - reflexivity.
  - reflexivity.
  - reflexivity.
  - reflexivity.
  - reflexivity.
  - exact I.
Defined.

(** C7 on a beta that is longer than gamma, and on a float64 var for a
    float32 x. *)
Lemma C7_sample_rejections :
  BatchNormalization_apply Qcinv numpy
    (sample_x, sample_gamma, long_beta) (sample_bn row_mask None None, [])
  = (Raise InvalidType, (sample_bn row_mask None None, [])) /\
  FixedBatchNormalization_apply sample_sqrt numpy
    (sample_x, sample_gamma, sample_beta, sample_mean, double_var)
    (FixedBatchNormalization_init 0)
  = (Raise InvalidType, FixedBatchNormalization_init 0).
Proof.
  split.
  - apply (proj1 (C7_invalid_inputs_raise_before_computation
                    Qcinv sample_sqrt numpy)).
    intros (H & _). discriminate H.
  - apply (proj2 (C7_invalid_inputs_raise_before_computation
                    Qcinv sample_sqrt numpy)).
    intros (_ & _ & H). discriminate H.
Defined.

(** C8 without cuDNN: the call with decay = 2 and a lone running_var
    returns an output. *)
Lemma C8_sample_odd_configuration :
  exists y,
    fst (batch_normalization Qcinv numpy false
           sample_x sample_gamma sample_beta odd_kwargs [sample_running_var])
    = Ok y.
Proof.
  apply (C8_decay_and_running_pair_not_validated Qcinv numpy false
           sample_x sample_gamma sample_beta odd_kwargs [sample_running_var]
           (B := 1%nat) (C := 2%nat) (L := 3%nat)
           (mk := row_mask) (bm := row_mask_full)).
  - reflexivity.
  - reflexivity.
  - reflexivity.
  - discriminate.
  - reflexivity.
  - reflexivity.
  - reflexivity.
  - reflexivity.
  - reflexivity.
  - reflexivity.
  - vm_compute. reflexivity.
  - apply channel_uniformb_ok. vm_compute. reflexivity.
Defined.

(** C9 on an x, and on a gy, with two axes. *)
Lemma C9_sample_two_axes :
  fst (BatchNormalization_forward Qcinv numpy
         (flat_x, sample_gamma, sample_beta)
         (sample_bn row_mask None None, []))
  = Raise ValueError /\
  BatchNormalizationGrad_forward numpy sample_grad
    (sample_x, sample_gamma, flat_x) = Raise ValueError.
Proof.
  split.
  - apply (proj1 (C9_masked_forward_needs_three_axes Qcinv numpy)).
    vm_compute. discriminate.
  - apply (proj2 (C9_masked_forward_needs_three_axes Qcinv numpy)).
    vm_compute. discriminate.
Defined.

(** ** The claims that fail, at the sample inputs *)

(** C2 as the specification words it fails for the mask that marks
    positions 0 and 1 of channel 0 and positions 1 and 2 of channel 1:
    the rows the code selects are (1, 2) and (5, 6), whose first column
    has mean 3, while the active elements of channel 0 are 1 and 2,
    with mean 3/2. *)
Lemma C2_fails_for_channel_dependent_mask :
  ~ statistics_claim Qcinv numpy sample_x sample_gamma sample_beta
      (sample_bn mixed_mask None None) [].
Proof.
  intros H.
  destruct (H (sample_y mixed_mask None None [])
              (sample_after mixed_mask None None [])
              (sample_heap_after mixed_mask None None [])
              1%nat 2%nat 3%nat mixed_mask mixed_mask 2%nat)
    as (mean_ & var & Hm & _ & Hc).
  - reflexivity.
  - reflexivity.
  - apply (returned empty (sample_run mixed_mask None None [])).
    vm_compute. reflexivity.
  - vm_compute. reflexivity.
  - intros [|[|c]] Hc; [vm_compute; reflexivity | vm_compute; reflexivity
                        | lia].
  - lia.
  - destruct (Hc 0%nat) as (Hc0 & _); [lia|].
    assert (E : match mean (sample_after mixed_mask None None []) with
                | Some m => Qc_eqb (nth 0 (data m) 0)
                              (mean_list
                                 (active_elements sample_x mixed_mask 1 3 0))
                | None => true
                end = false) by (vm_compute; reflexivity).
    rewrite Hm, Hc0, Qc_eqb_refl in E. discriminate E.
Qed.

(** C3 as the specification words it fails for the same mask: the code
    returns gbeta = (1 + 3, 0 + 1) for the rows (1, 0) and (3, 1) it
    selects from gy, while the active elements of gy in channel 0 are 1
    and 0, with sum 1. *)
Lemma C3_fails_for_channel_dependent_mask :
  ~ backward_sums_claim Qcinv numpy sample_x sample_gamma sample_beta
      sample_gy (sample_bn mixed_mask None None) [].
Proof.
  intros H.
  destruct (H (sample_y mixed_mask None None [])
              (sample_after mixed_mask None None [])
              (sample_heap_after mixed_mask None None [])
              1%nat 2%nat 3%nat mixed_mask mixed_mask)
    as (mean_ & inv & gx & ggamma & gbeta & _ & _ & Hb & Hc).
  - reflexivity.
  - reflexivity.
  - reflexivity.
  - reflexivity.
  - reflexivity.
  - apply (returned empty (sample_run mixed_mask None None [])).
    vm_compute. reflexivity.
  - vm_compute. reflexivity.
  - destruct (Hc 0%nat) as (Hc0 & _); [lia|].
    assert (E : match BatchNormalization_backward numpy
                        (sample_after mixed_mask None None []) sample_gy with
                | Ok (_, _, gb) =>
                    Qc_eqb (nth 0 (data gb) 0)
                      (qsum (active_elements sample_gy mixed_mask 1 3 0))
                | Raise _ => true
                end = false) by (vm_compute; reflexivity).
    rewrite Hb, Hc0, Qc_eqb_refl in E. discriminate E.
Qed.

(** C8 as the specification words it fails: the call with decay = 2
    and a running_var without a running_mean returns an output instead
    of raising an error. *)
Lemma C8_no_error_for_odd_configuration :
  ~ config_error_claim Qcinv numpy false sample_x sample_gamma sample_beta
      odd_kwargs [sample_running_var].
Proof.
  intros H. destruct H as (e & He).
  - left. intros (_ & Hd). vm_compute in Hd. discriminate Hd.
  - apply (f_equal (fun r => is_ok (fst r))) in He.
    vm_compute in He. discriminate He.
Qed.

(** * Further properties of the code *)

Section Further.

Variable rsqrt : Qc -> Qc.
Variable sqrt : Qc -> Qc.
Variable xp : backend.
Variable should_use_cudnn : bool.

(** ** The cuDNN helpers *)

(** X20.  [_BNMode.get_cudnn_mode] and [_get_mode] derive the cuDNN mode
    of the same inputs in two ways: wherever the assertion of the method
    holds (cudnn_dim_ok) they agree, and where it does not the method
    fails. *)
Theorem get_cudnn_mode_agrees_with_get_mode (x gamma : ndarray Qc) :
  BNMode_get_cudnn_mode (BNMode_init x gamma)
  = if cudnn_dim_ok (BNMode_init x gamma)
    then Some (_get_mode x gamma) else None.
Proof.
  unfold BNMode_get_cudnn_mode, BNMode_init, _get_mode.
  cbn [cudnn_dim_ok is_for_conv2d].
  destruct (ndim x =? 4)%nat eqn:E4, (ndim gamma =? 1)%nat eqn:E1,
           (ndim x =? 2)%nat eqn:E2; cbn [andb orb]; try reflexivity.
Qed.

(** X21.  [_as4darray] returns an array with four axes that shares the
    buffer, the dtype and the number of elements of its argument, and it
    leaves an array that has four axes as it is; it fails only for an
    array with one, two, three or more than four axes whose first axis is
    empty. *)
Theorem as4darray_shape {A} (arr : ndarray A) :
  match _as4darray arr with
  | Ok r => ndim r = 4%nat /\ size r = size arr /\ data r = data arr /\
            dtype_of r = dtype_of arr /\ (ndim arr = 4%nat -> r = arr)
  | Raise e => e = ValueError /\ ndim arr <> 0%nat /\ ndim arr <> 4%nat /\
               nth 0 (shape arr) 1%nat = 0%nat
  end.
Proof.
  unfold _as4darray, ndim, size.
  destruct arr as [dt s buf]. cbn [shape data dtype_of].
  destruct s as [|n0 [|n1 [|n2 [|n3 [|n4 s]]]]]; cbn [length nth].
  - repeat split; try reflexivity. discriminate.
  - destruct (Nat.eqb_spec n0 0) as [->|Hn].
    + repeat split; discriminate.
    + repeat split; try reflexivity; try discriminate.
      all: cbn [prod fold_right shape]; rewrite ?Nat.mul_1_r; reflexivity.
  - destruct (Nat.eqb_spec n0 0) as [->|Hn].
    + repeat split; discriminate.
    + repeat split; try reflexivity; try discriminate.
      all: cbn [prod fold_right shape]; rewrite ?Nat.mul_1_r; reflexivity.
  - destruct (Nat.eqb_spec n0 0) as [->|Hn].
    + repeat split; discriminate.
    + repeat split; try reflexivity; try discriminate.
      all: cbn [prod fold_right shape]; rewrite ?Nat.mul_1_r; reflexivity.
  - repeat split; reflexivity.
  - destruct (Nat.eqb_spec n0 0) as [->|Hn].
    + repeat split; discriminate.
    + repeat split; try reflexivity; try discriminate.
      all: cbn [prod fold_right shape]; rewrite ?Nat.mul_1_r; reflexivity.
Qed.

(** X22.  [_as4darray] is idempotent: applied to an array it returned, it
    returns that array. *)
Theorem as4darray_idempotent {A} (arr r : ndarray A) :
  _as4darray arr = Ok r -> _as4darray r = Ok r.
Proof.
  intros H.
  assert (Hr : exists a b c d, shape r = [a; b; c; d]).
  { unfold _as4darray in H.
    destruct (shape arr) as [|n0 [|n1 [|n2 [|n3 [|n4 s]]]]] eqn:Es.
    - injection H as <-. cbn [shape]. eauto.
    - destruct (n0 =? 0)%nat; [discriminate|]. injection H as <-.
      cbn [shape]. eauto.
    - destruct (n0 =? 0)%nat; [discriminate|]. injection H as <-.
      cbn [shape]. eauto.
    - destruct (n0 =? 0)%nat; [discriminate|]. injection H as <-.
      cbn [shape]. eauto.
    - injection H as <-. eauto.
    - destruct (n0 =? 0)%nat; [discriminate|]. injection H as <-.
      cbn [shape]. eauto. }
  destruct Hr as (a & b & c & d & Hr).
  unfold _as4darray. rewrite Hr. reflexivity.
Qed.

(** ** Calls that cannot succeed *)

Lemma forward_without_mask x gamma beta (f : BatchNormalization) (h : heap) :
  mask f = None ->
  fst (BatchNormalization_forward rsqrt xp (x, gamma, beta) (f, h))
  = Raise (if (ndim x =? 3)%nat then IndexError else ValueError).
Proof.
  intros Hm.
  unfold BatchNormalization_forward, bind, upd_self, modify, get, lift, ret,
    alloc.
  cbn [fst snd set_retained running_mean mask].
  rewrite Hm. cbn [on_mask rbind].
  destruct (Nat.eqb_spec (ndim x) 3) as [H3|H3].
  - assert (Hs : exists B C L, shape x = [B; C; L]).
    { unfold ndim in H3.
      destruct (shape x) as [|B [|C [|L [|n s]]]]; try discriminate H3.
      eauto. }
    destruct Hs as (B & C & L & Hs).
    rewrite (transpose_3d 0 x Hs).
    destruct (running_mean f); reflexivity.
  - rewrite (transpose_not_3d 0 x H3).
    destruct (running_mean f); reflexivity.
Qed.

(** X9.  A call of batch_normalization without the mask argument (its
    default is None) never returns an output: the type check, the
    constructor or the forward computation raises an error whatever the
    arrays and the other arguments are. *)
Theorem batch_normalization_needs_mask x gamma beta (kw : kwargs) (h : heap) :
  kw_mask kw = None ->
  exists e,
    fst (batch_normalization rsqrt xp should_use_cudnn x gamma beta kw h)
    = Raise e.
Proof.
  intros Hm. unfold batch_normalization.
  destruct (kw_train kw); [eexists; reflexivity|].
  unfold BatchNormalization_init.
  destruct (should_use_cudnn && Qcltb (kw_eps kw) cudnn_min_eps);
    [eexists; reflexivity|].
  unfold BatchNormalization_apply, bind, lift.
  destruct (BatchNormalization_check_type_forward _) as [[]|e];
    [|eexists; reflexivity].
  rewrite Hm.
  match goal with
  | |- context [BatchNormalization_forward rsqrt xp ?i (?f, ?h)] =>
      pose proof (@forward_without_mask x gamma beta f h eq_refl) as E;
      destruct (BatchNormalization_forward rsqrt xp i (f, h)) as [r s]
  end.
  cbn [fst] in *. rewrite E. eexists. reflexivity.
Qed.

(** A mask that cannot be broadcast to the shape of x. *)
Lemma forward_mask_not_broadcastable x gamma beta (f : BatchNormalization)
  (h : heap) (m : ndarray bool) :
  mask f = Some m ->
  broadcastable (shape m) (shape x) = false ->
  fst (BatchNormalization_forward rsqrt xp (x, gamma, beta) (f, h))
  = Raise ValueError.
Proof.
  intros Hm Hb.
  unfold BatchNormalization_forward, bind, upd_self, modify, get, lift, ret,
    alloc.
  cbn [fst snd set_retained running_mean mask].
  rewrite Hm. cbn [on_mask rbind]. unfold broadcast_to at 1. rewrite Hb.
  cbn [rbind].
  destruct (running_mean f); reflexivity.
Qed.

(** X12.  A BatchNormalization object serves one forward call.  The call
    replaces the mask attribute by the broadcast mask with its last two
    axes exchanged; unless the channel axis and the last axis of x have
    the same length, a second forward call on the object, with an x of the
    same shape, raises ValueError when it broadcasts that mask. *)
Theorem forward_object_is_single_use
  x gamma beta f h y f' h' B C L mk x2 gamma2 beta2 (h2 : heap) :
  shape x = [B; C; L] ->
  mask f = Some mk ->
  BatchNormalization_forward rsqrt xp (x, gamma, beta) (f, h)
  = (Ok y, (f', h')) ->
  C <> L ->
  shape x2 = [B; C; L] ->
  fst (BatchNormalization_forward rsqrt xp (x2, gamma2, beta2) (f', h2))
  = Raise ValueError.
Proof.
  intros Hx Hm H HCL Hx2.
  edestruct forward_inv
    as (bm & xT & mT & ax & y0 & m & h1 & om & Hinv);
    [exact Hx | exact Hm | exact H |].
  cbv zeta in Hinv.
  destruct Hinv as (Hbm & HxT & HmT & _ & _ & _ & Hmask & _).
  pose proof (broadcast_to_shape _ _ _ Hbm) as Hsb.
  rewrite (transpose_3d false bm Hsb) in HmT. injection HmT as HmT.
  apply (@forward_mask_not_broadcastable x2 gamma2 beta2 f' h2 mT Hmask).
  rewrite Hx2. subst mT. cbn [shape]. unfold broadcastable, pad.
  cbn [length Nat.leb Nat.sub repeat app compatible andb].
  rewrite Nat.eqb_refl. cbn [orb andb].
  destruct (Nat.eqb_spec L C) as [E|_]; [congruence|].
  destruct (Nat.eqb_spec C L) as [E|_]; [congruence|].
  cbn [orb].
  destruct (Nat.eqb_spec L 1) as [E1|_]; [|reflexivity].
  destruct (Nat.eqb_spec C 1) as [E2|_]; [congruence|reflexivity].
Qed.

(** X11.  When the mask marks no position, the forward call still returns
    (in numpy with NaN statistics), but the backward computation raises
    ZeroDivisionError: [active_gy.size // gamma.size] is 0 and [1. / 0] is
    evaluated on Python numbers. *)
Theorem backward_without_active_elements
  x gamma beta gy f h y f' h' B C L mk bm :
  shape x = [B; C; L] -> shape gy = [B; C; L] ->
  mask f = Some mk ->
  BatchNormalization_forward rsqrt xp (x, gamma, beta) (f, h)
  = (Ok y, (f', h')) ->
  broadcast_to false mk (shape x) = Ok bm ->
  channel_uniform bm B C L ->
  n_active bm B L 0 = 0%nat ->
  BatchNormalization_backward xp f' gy = Raise ZeroDivisionError.
Proof.
  intros Hx Hgy Hm H Hbm Hu Hn.
  edestruct forward_inv
    as (bm' & xT & mT & ax & y0 & m & h1 & om & Hinv);
    [exact Hx | exact Hm | exact H |].
  cbv zeta in Hinv.
  destruct Hinv as (Hbm' & HxT & HmT & Hax & _ & _ & Hmask & _ & Hret & _
                    & _ & Hfd & _).
  rewrite Hx in Hbm. rewrite Hbm in Hbm'. injection Hbm' as <-.
  pose proof (broadcast_to_shape _ _ _ Hbm) as Hsb.
  edestruct masked_rows_shape as (n & _ & HC & _); [exact Hax|].
  assert (Hg : size gamma <> 0%nat).
  { unfold floordiv in Hfd. destruct (size gamma); [discriminate|lia]. }
  destruct (@rows_uniform_ok gy bm mT B C L Hgy Hsb Hu HC HmT)
    as (gyT & ag & HgyT & HC2 & Hag & Hsag & _).
  unfold BatchNormalization_backward. rewrite Hret.
  cbn [option_result fst snd].
  unfold BatchNormalizationGrad_forward.
  cbn [BatchNormalizationGrad_init g_mask].
  rewrite HgyT. cbn [rbind]. rewrite Hmask, HC2, Hag. cbn [rbind].
  assert (Hs : size ag = 0%nat).
  { unfold size. rewrite Hsag, Hn. reflexivity. }
  rewrite Hs. rewrite (floordiv_ok 0 Hg). cbn [rbind].
  rewrite Nat.Div0.div_0_l. reflexivity.
Qed.

(** ** The selection of the active rows *)

(** The number of elements the mask selects is the sum of the numbers
    of active positions of the channels. *)
Lemma selected_count (a : ndarray Qc) (bm : ndarray bool) (B C L : nat) :
  shape a = [B; C; L] -> shape bm = [B; C; L] ->
  length (select (build3 B L C (fun i k j => get3 0 a i j k))
                 (build3 B L C (fun i k j => get3 false bm i j k)))
  = list_sum (map (n_active bm B L) (seq 0 C)).
Proof.
  intros Ha Hbm.
  rewrite length_select by (rewrite !length_build3; reflexivity).
  unfold build3. rewrite count_rows. f_equal.
  apply map_ext. intros c. unfold n_active.
  rewrite length_active_count. reflexivity.
Qed.

(** The steps of the forward call up to the selection of the active
    rows, on the supported layout. *)
Ltac forward_to_rows Hm Hx Hbm :=
  unfold BatchNormalization_forward, bind, upd_self, modify, get, lift, ret,
    alloc;
  cbn [fst snd set_retained running_mean mask];
  rewrite Hm, Hx; cbn [on_mask rbind]; rewrite Hbm; cbn [rbind];
  rewrite (transpose_3d 0 _ Hx); cbn [on_mask rbind];
  rewrite (transpose_3d false _ (broadcast_to_shape _ _ _ Hbm));
  cbn [on_mask rbind shape];
  match goal with
  | |- context [broadcast_to false ?m [?B; ?L; ?C]] =>
      replace (broadcast_to false m [B; L; C]) with (Ok m)
        by (symmetry; apply (@broadcast_to_same _ false m);
            unfold wf, size; cbn [data shape prod fold_right];
            apply length_build3)
  end;
  cbn [rbind nth].

(** X10.  A mask that selects a number of elements that is not a multiple
    of the number of channels: the selected elements cannot be arranged in
    rows of C, and the forward call raises ValueError at
    [active_x[self.mask].reshape(-1, C)]. *)
Theorem forward_ragged_selection
  x gamma beta (f : BatchNormalization) (h : heap) B C L mk bm :
  shape x = [B; C; L] ->
  mask f = Some mk ->
  broadcast_to false mk [B; C; L] = Ok bm ->
  (list_sum (map (n_active bm B L) (seq 0 C)) mod C <> 0)%nat ->
  fst (BatchNormalization_forward rsqrt xp (x, gamma, beta) (f, h))
  = Raise ValueError.
Proof.
  intros Hx Hm Hbm Hr.
  pose proof (broadcast_to_shape _ _ _ Hbm) as Hsb.
  assert (Hrows : forall dt dt',
    masked_rows
      (mk_ndarray dt [B; L; C] (build3 B L C (fun i k j => get3 0 x i j k)))
      (Some (mk_ndarray dt' [B; L; C]
               (build3 B L C (fun i k j => get3 false bm i j k)))) C
    = Raise ValueError).
  { intros dt dt'. unfold masked_rows, bool_index.
    cbn [option_result rbind shape data dtype_of].
    rewrite shape_eqb_refl. cbn [rbind]. unfold reshape_rows.
    destruct C as [|C']; [reflexivity|].
    unfold size. cbn [shape prod fold_right].
    rewrite (selected_count x bm Hx Hsb), Nat.mul_1_r.
    destruct (Nat.eqb_spec
                (list_sum (map (n_active bm B L) (seq 0 (S C'))) mod S C') 0)
      as [E|E]; [contradiction|reflexivity]. }
  forward_to_rows Hm Hx Hbm.
  destruct (running_mean f); cbn [fst snd]; rewrite Hrows; reflexivity.
Qed.

(** ** Running statistics supplied by the caller *)

(** The forward call run step by step from the results of its steps,
    when running_mean is an array of the caller. *)
Lemma forward_supplied x gamma beta f h B C L mk om bm ax y0 m lm rm0 r1 :
  shape x = [B; C; L] ->
  mask f = Some mk ->
  running_mean f = Some lm ->
  broadcast_to false mk [B; C; L] = Ok bm ->
  masked_rows
    (mk_ndarray (dtype_of x) [B; L; C]
       (build3 B L C (fun i k j => get3 0 x i j k)))
    (Some (mk_ndarray (dtype_of bm) [B; L; C]
             (build3 B L C (fun i k j => get3 false bm i j k)))) C
  = Ok ax ->
  _apply_bn_fwd xp x
    (expand (ndim x - (ndim gamma + 1)) (mean_axis0 ax))
    (expand (ndim x - (ndim gamma + 1))
       (amap rsqrt (amap (fun v => v + eps f) (var_axis0 ax))))
    (expand (ndim x - (ndim gamma + 1)) gamma)
    (expand (ndim x - (ndim gamma + 1)) beta) = Ok y0 ->
  floordiv (size ax) (size gamma) = Ok m ->
  nth_error h lm = Some rm0 ->
  iop Qcplus (scale (decay f) rm0) (scale (1 - decay f) (mean_axis0 ax))
  = Ok r1 ->
  match running_var f with
  | None =>
      fst (BatchNormalization_forward rsqrt xp (x, gamma, beta) (f, h))
      = Raise TypeError /\
      snd (snd (BatchNormalization_forward rsqrt xp (x, gamma, beta) (f, h)))
      = update h lm r1
  | Some lv =>
      forall v0 v1 y,
        nth_error (update h lm r1) lv = Some v0 ->
        iop Qcplus (scale (decay f) v0)
            (scale ((1 - decay f) * adjust m)
                   (amap (fun v => v + eps f) (var_axis0 ax))) = Ok v1 ->
        orig_mask f = Some om ->
        iop Qcmult y0 (astype_float (dtype_of y0) om) = Ok y ->
        fst (BatchNormalization_forward rsqrt xp (x, gamma, beta) (f, h))
        = Ok y /\
        snd (snd (BatchNormalization_forward rsqrt xp (x, gamma, beta)
                    (f, h)))
        = update (update h lm r1) lv v1
  end.
Proof.
  intros Hx Hm Hrm Hbm Hax Hy0 Hfd Hlm Hr1.
  destruct (running_var f) as [lv|] eqn:Hrv.
  - intros v0 v1 y Hv0 Hv1 Hom Hy.
    forward_to_rows Hm Hx Hbm. rewrite Hrm. cbn [fst snd].
    rewrite Hax.
    cbn [fst snd set_mask set_mean set_inv_std set_plan set_running_var
         set_running_mean set_retained eps decay running_mean
         running_var orig_mask].
    rewrite Hy0. rewrite size_expand, Hfd.
    unfold inplace. cbn [fst snd]. rewrite Hrm, Hrv, Hlm.
    cbv beta iota. cbn [fst snd].
    erewrite nth_error_update_eq by exact Hlm.
    rewrite Hr1. cbv beta iota. cbn [fst snd].
    rewrite update_update.
    rewrite Hv0. cbv beta iota. cbn [fst snd].
    erewrite nth_error_update_eq by exact Hv0.
    fold (adjust m). rewrite Hv1. cbv beta iota. cbn [fst snd].
    rewrite update_update, Hom. cbn [option_result]. rewrite Hy.
    split; reflexivity.
  - forward_to_rows Hm Hx Hbm. rewrite Hrm. cbn [fst snd].
    rewrite Hax.
    cbn [fst snd set_mask set_mean set_inv_std set_plan set_running_var
         set_running_mean set_retained eps decay running_mean
         running_var orig_mask].
    rewrite Hy0. rewrite size_expand, Hfd.
    unfold inplace. cbn [fst snd]. rewrite Hrm, Hrv, Hlm.
    cbv beta iota. cbn [fst snd].
    erewrite nth_error_update_eq by exact Hlm.
    rewrite Hr1. cbv beta iota. cbn [fst snd].
    rewrite update_update. split; reflexivity.
Qed.

(** The statistics of a block of rows whose columns are known. *)
Lemma stats_of_columns (ax : ndarray Qc) (n C c : nat) (e : Qc)
  (l : list Qc) :
  shape ax = [n; C] -> (c < C)%nat -> column n C (data ax) c = l ->
  nth c (data (mean_axis0 ax)) 0 = mean_list l /\
  nth c (data (amap (fun v => v + e) (var_axis0 ax))) 0 = var_list l + e.
Proof.
  intros Hs Hc Hcol.
  unfold mean_axis0, var_axis0, rows_cols, amap. rewrite Hs.
  cbn [data shape dtype_of]. rewrite map_map.
  rewrite !nth_map_seq by exact Hc. rewrite Hcol. split; reflexivity.
Qed.

(** The steps of a forward call with a mask that does not depend on the
    channel and a running_mean of the caller, up to the first update of
    the running statistics. *)
Lemma forward_supplied_steps x gamma beta f (h : heap) B C L mk bm lm rm0 :
  shape x = [B; C; L] -> shape gamma = [C] -> shape beta = [C] ->
  C <> 0%nat ->
  broadcast_to false mk [B; C; L] = Ok bm ->
  channel_uniform bm B C L ->
  nth_error h lm = Some rm0 -> shape rm0 = [C] ->
  exists ax y0 r1,
    masked_rows
      (mk_ndarray (dtype_of x) [B; L; C]
         (build3 B L C (fun i k j => get3 0 x i j k)))
      (Some (mk_ndarray (dtype_of bm) [B; L; C]
               (build3 B L C (fun i k j => get3 false bm i j k)))) C
    = Ok ax /\
    _apply_bn_fwd xp x
      (expand (ndim x - (ndim gamma + 1)) (mean_axis0 ax))
      (expand (ndim x - (ndim gamma + 1))
         (amap rsqrt (amap (fun v => v + eps f) (var_axis0 ax))))
      (expand (ndim x - (ndim gamma + 1)) gamma)
      (expand (ndim x - (ndim gamma + 1)) beta) = Ok y0 /\
    floordiv (size ax) (size gamma) = Ok (n_active bm B L 0) /\
    iop Qcplus (scale (decay f) rm0) (scale (1 - decay f) (mean_axis0 ax))
    = Ok r1 /\
    shape ax = [n_active bm B L 0; C] /\
    shape y0 = [B; C; L] /\
    shape r1 = [C] /\
    forall c, (c < C)%nat ->
      nth c (data (mean_axis0 ax)) 0
      = mean_list (active_elements x bm B L c) /\
      nth c (data (amap (fun v => v + eps f) (var_axis0 ax))) 0
      = var_list (active_elements x bm B L c) + eps f /\
      nth c (data r1) 0
      = decay f * nth c (data rm0) 0
        + (1 - decay f) * nth c (data (mean_axis0 ax)) 0.
Proof.
  intros Hx Hg Hb HC Hbm Hu Hlm Hrm0.
  pose proof (broadcast_to_shape _ _ _ Hbm) as Hsb.
  destruct (@rows_uniform_ok x bm _ B C L Hx Hsb Hu HC
              (transpose_3d false bm Hsb))
    as (xT & ax & HxT & _ & Hax & Hsax & Hcol).
  rewrite (transpose_3d 0 x Hx) in HxT. injection HxT as <-.
  assert (He : (ndim x - (ndim gamma + 1) = 1)%nat)
    by (unfold ndim; rewrite Hx, Hg; reflexivity).
  rewrite He.
  destruct (@apply_bn_fwd_compat xp x
              (expand 1 (mean_axis0 ax))
              (expand 1 (amap rsqrt (amap (fun v => v + eps f) (var_axis0 ax))))
              (expand 1 gamma) (expand 1 beta) [1; C; 1]%nat)
    as (y0 & Hy0 & Hs0 & _ & _).
  { cbn [shape expand]. erewrite shape_mean_axis0 by exact Hsax. reflexivity. }
  { cbn [shape expand amap]. erewrite shape_var_axis0 by exact Hsax.
    reflexivity. }
  { cbn [shape expand]. rewrite Hg. reflexivity. }
  { cbn [shape expand]. rewrite Hb. reflexivity. }
  { rewrite Hx. apply compatible_channel. }
  destruct (@iop_broadcastable Qcplus (scale (decay f) rm0)
              (scale (1 - decay f) (mean_axis0 ax))) as (r1 & Hr1).
  { cbn [scale amap shape]. rewrite Hrm0.
    erewrite shape_mean_axis0 by exact Hsax. apply broadcastable_refl. }
  destruct (@running_step (decay f) (1 - decay f) rm0 (mean_axis0 ax) r1 C
              Hrm0 (shape_mean_axis0 _ Hsax) Hr1) as (Sr1 & Vr1).
  exists ax, y0, r1.
  split; [exact Hax|]. split; [exact Hy0|].
  split.
  { rewrite floordiv_ok
      by (unfold size; rewrite Hg; cbn [prod fold_right]; lia).
    f_equal. unfold size. rewrite Hsax, Hg. cbn [prod fold_right].
    rewrite !Nat.mul_1_r. apply Nat.div_mul. exact HC. }
  split; [exact Hr1|]. split; [exact Hsax|].
  split; [congruence|]. split; [exact Sr1|].
  intros c Hc.
  destruct (@stats_of_columns ax _ C c (eps f) _ Hsax Hc (Hcol c Hc))
    as (E1 & E2).
  split; [exact E1|]. split; [exact E2|]. apply Vr1, Hc.
Qed.

(** X7.  A running_mean without a running_var.  The docstring of
    batch_normalization asks for both or neither; the code does not check
    it.  The forward call updates running_mean in place and then raises
    TypeError at [self.running_var *= self.decay]: the caller gets no
    output, and its running_mean has already been replaced by decay *
    running_mean + (1 - decay) * mean.  The mask marks at least one
    position: the mean of an empty selection is NaN in numpy. *)
Theorem forward_running_mean_without_running_var
  x gamma beta f (h : heap) B C L mk bm lm rm0 :
  shape x = [B; C; L] -> shape gamma = [C] -> shape beta = [C] ->
  mask f = Some mk ->
  running_mean f = Some lm -> running_var f = None ->
  nth_error h lm = Some rm0 -> shape rm0 = [C] ->
  broadcast_to false mk [B; C; L] = Ok bm ->
  channel_uniform bm B C L ->
  (0 < n_active bm B L 0)%nat -> C <> 0%nat ->
  fst (BatchNormalization_forward rsqrt xp (x, gamma, beta) (f, h))
  = Raise TypeError /\
  exists rm1,
    snd (snd (BatchNormalization_forward rsqrt xp (x, gamma, beta) (f, h)))
    = update h lm rm1 /\
    shape rm1 = [C] /\
    forall c, (c < C)%nat ->
      nth c (data rm1) 0
      = decay f * nth c (data rm0) 0
        + (1 - decay f) * mean_list (active_elements x bm B L c).
Proof.
  intros Hx Hg Hb Hm Hrm Hrv Hlm Hrm0 Hbm Hu _ HC.
  destruct (@forward_supplied_steps x gamma beta f h B C L mk bm lm rm0
              Hx Hg Hb HC Hbm Hu Hlm Hrm0)
    as (ax & y0 & r1 & Hax & Hy0 & Hfd & Hr1 & _ & _ & Sr1 & Hv).
  pose proof (@forward_supplied x gamma beta f h B C L mk mk bm ax y0 _ lm
                rm0 r1 Hx Hm Hrm Hbm Hax Hy0 Hfd Hlm Hr1) as Hrun.
  rewrite Hrv in Hrun. destruct Hrun as (Hfst & Hsnd).
  split; [exact Hfst|]. exists r1.
  split; [exact Hsnd|]. split; [exact Sr1|].
  intros c Hc. destruct (Hv c Hc) as (E1 & _ & E3).
  rewrite E3, E1. reflexivity.
Qed.

(** X6.  With a running_mean and a running_var of the caller, each an
    array of the heap shaped like gamma (the same array for both or not),
    a forward call on the supported layout with a mask that does not
    depend on the channel returns an output. *)
Theorem forward_returns_with_running_statistics
  x gamma beta f (h : heap) B C L mk bm lm lv rm0 rv0 :
  shape x = [B; C; L] -> shape gamma = [C] -> shape beta = [C] ->
  C <> 0%nat ->
  mask f = Some mk -> orig_mask f = Some mk ->
  running_mean f = Some lm -> running_var f = Some lv ->
  nth_error h lm = Some rm0 -> nth_error h lv = Some rv0 ->
  shape rm0 = [C] -> shape rv0 = [C] ->
  broadcast_to false mk [B; C; L] = Ok bm ->
  channel_uniform bm B C L ->
  exists y,
    fst (BatchNormalization_forward rsqrt xp (x, gamma, beta) (f, h)) = Ok y.
Proof.
  intros Hx Hg Hb HC Hm Hom Hrm Hrv Hlm Hlv Hrm0 Hrv0 Hbm Hu.
  destruct (@forward_supplied_steps x gamma beta f h B C L mk bm lm rm0
              Hx Hg Hb HC Hbm Hu Hlm Hrm0)
    as (ax & y0 & r1 & Hax & Hy0 & Hfd & Hr1 & Hsax & Sy0 & Sr1 & _).
  pose proof (@forward_supplied x gamma beta f h B C L mk mk bm ax y0 _ lm
                rm0 r1 Hx Hm Hrm Hbm Hax Hy0 Hfd Hlm Hr1) as Hrun.
  rewrite Hrv in Hrun.
  assert (Hv0 : exists v0, nth_error (update h lm r1) lv = Some v0
                           /\ shape v0 = [C]).
  { destruct (Nat.eq_dec lm lv) as [<-|Hne].
    - exists r1. split; [eapply nth_error_update_eq, Hlm|exact Sr1].
    - exists rv0. rewrite nth_error_update_neq by exact Hne. auto. }
  destruct Hv0 as (v0 & Hv0 & Sv0).
  destruct (@iop_broadcastable Qcplus (scale (decay f) v0)
              (scale ((1 - decay f) * adjust (n_active bm B L 0))
                     (amap (fun v => v + eps f) (var_axis0 ax))))
    as (v1 & Hv1).
  { cbn [scale amap shape]. rewrite Sv0.
    erewrite shape_var_axis0 by exact Hsax. apply broadcastable_refl. }
  destruct (@iop_broadcastable Qcmult y0 (astype_float (dtype_of y0) mk))
    as (y & Hy).
  { cbn [astype_float shape]. rewrite Sy0.
    unfold broadcast_to in Hbm.
    destruct (broadcastable (shape mk) [B; C; L]); [reflexivity|discriminate]. }
  exists y. apply (Hrun v0 v1 y Hv0 Hv1 Hom Hy).
Qed.

(** X8.  The same array as running_mean and as running_var.  Both pairs
    of in-place updates then work on it, one after the other: it ends as
    decay * (decay * r + (1 - decay) * mean) + (1 - decay) * adjust * var,
    for its value r before the call, the batch mean and the batch
    variance with eps added.  The mask marks at least one position, as
    for X7. *)
Theorem forward_running_statistics_aliased
  x gamma beta f (h : heap) B C L mk bm lm rm0 :
  shape x = [B; C; L] -> shape gamma = [C] -> shape beta = [C] ->
  mask f = Some mk -> orig_mask f = Some mk ->
  running_mean f = Some lm -> running_var f = Some lm ->
  nth_error h lm = Some rm0 -> shape rm0 = [C] ->
  broadcast_to false mk [B; C; L] = Ok bm ->
  channel_uniform bm B C L ->
  (0 < n_active bm B L 0)%nat -> C <> 0%nat ->
  exists y r2,
    fst (BatchNormalization_forward rsqrt xp (x, gamma, beta) (f, h)) = Ok y /\
    snd (snd (BatchNormalization_forward rsqrt xp (x, gamma, beta) (f, h)))
    = update h lm r2 /\
    forall c, (c < C)%nat ->
      nth c (data r2) 0
      = decay f * (decay f * nth c (data rm0) 0
                   + (1 - decay f)
                     * mean_list (active_elements x bm B L c))
        + (1 - decay f) * adjust (n_active bm B L 0)
          * (var_list (active_elements x bm B L c) + eps f).
Proof.
  intros Hx Hg Hb Hm Hom Hrm Hrv Hlm Hrm0 Hbm Hu _ HC.
  destruct (@forward_supplied_steps x gamma beta f h B C L mk bm lm rm0
              Hx Hg Hb HC Hbm Hu Hlm Hrm0)
    as (ax & y0 & r1 & Hax & Hy0 & Hfd & Hr1 & Hsax & Sy0 & Sr1 & Hv).
  pose proof (@forward_supplied x gamma beta f h B C L mk mk bm ax y0 _ lm
                rm0 r1 Hx Hm Hrm Hbm Hax Hy0 Hfd Hlm Hr1) as Hrun.
  rewrite Hrv in Hrun.
  assert (Hv0 : nth_error (update h lm r1) lm = Some r1)
    by (eapply nth_error_update_eq, Hlm).
  destruct (@iop_broadcastable Qcplus (scale (decay f) r1)
              (scale ((1 - decay f) * adjust (n_active bm B L 0))
                     (amap (fun v => v + eps f) (var_axis0 ax))))
    as (v1 & Hv1).
  { cbn [scale amap shape]. rewrite Sr1.
    erewrite shape_var_axis0 by exact Hsax. apply broadcastable_refl. }
  destruct (@running_step (decay f)
              ((1 - decay f) * adjust (n_active bm B L 0)) r1
              (amap (fun v => v + eps f) (var_axis0 ax)) v1 C Sr1)
    as (_ & Vv1).
  { cbn [amap shape]. eapply shape_var_axis0, Hsax. }
  { exact Hv1. }
  destruct (@iop_broadcastable Qcmult y0 (astype_float (dtype_of y0) mk))
    as (y & Hy).
  { cbn [astype_float shape]. rewrite Sy0.
    unfold broadcast_to in Hbm.
    destruct (broadcastable (shape mk) [B; C; L]); [reflexivity|discriminate]. }
  destruct (Hrun r1 v1 y Hv0 Hv1 Hom Hy) as (Hfst & Hsnd).
  exists y, v1. split; [exact Hfst|].
  split; [exact (eq_trans Hsnd (update_update h lm r1 v1))|].
  intros c Hc. destruct (Hv c Hc) as (E1 & E2 & E3).
  rewrite (Vv1 c Hc), E3, E1, E2. reflexivity.
Qed.

(** ** The values of the output *)

(** Every element of the output of a successful forward call on the
    supported layout. *)
Lemma forward_values x gamma beta f h y f' h' B C L mk bm :
  shape x = [B; C; L] -> shape gamma = [C] -> shape beta = [C] ->
  mask f = Some mk -> orig_mask f = Some mk ->
  BatchNormalization_forward rsqrt xp (x, gamma, beta) (f, h)
  = (Ok y, (f', h')) ->
  broadcast_to false mk [B; C; L] = Ok bm ->
  exists mean_ inv,
    mean f' = Some mean_ /\ inv_std f' = Some inv /\
    shape y = [B; C; L] /\
    forall b c l, (b < B)%nat -> (c < C)%nat -> (l < L)%nat ->
      get3 0 y b c l
      = (nth c (data gamma) 0 * x_hat_at x mean_ inv b c l
         + nth c (data beta) 0) * of_bool (get3 false bm b c l).
Proof.
  intros Hx Hg Hb Hm Hom H Hbm.
  edestruct forward_inv as (bm' & xT & mT & ax & y0 & m & h1 & om & Hinv);
    [exact Hx | exact Hm | exact H |].
  cbv zeta in Hinv.
  destruct Hinv as (_ & _ & _ & Hax & Hmean & Hinv & _ & _ & _ & _ & Hy0 & _
                    & _ & _ & Hom' & Hy).
  rewrite Hom in Hom'. injection Hom' as <-.
  edestruct masked_rows_shape as (n & Hsax & _ & _); [exact Hax|].
  assert (He : (ndim x - (ndim gamma + 1) = 1)%nat)
    by (unfold ndim; rewrite Hx, Hg; reflexivity).
  rewrite He in Hy0.
  set (mean_ := mean_axis0 ax) in *.
  set (inv := amap rsqrt (amap (fun v => v + eps f) (var_axis0 ax))) in *.
  destruct (@apply_bn_fwd_compat xp x (expand 1 mean_) (expand 1 inv)
              (expand 1 gamma) (expand 1 beta) [1; C; 1]%nat)
    as (y0' & Hy0' & Hs0 & _ & Hv0).
  { apply shape_expand1. eapply shape_mean_axis0, Hsax. }
  { apply shape_expand1. unfold inv. cbn [amap shape].
    eapply shape_var_axis0, Hsax. }
  { apply shape_expand1, Hg. }
  { apply shape_expand1, Hb. }
  { rewrite Hx. apply compatible_channel. }
  rewrite Hy0 in Hy0'. injection Hy0' as <-.
  rewrite Hx in Hs0.
  destruct (@mask_mul y0 (dtype_of y0) mk bm B C L Hs0 Hbm)
    as (r & Hr & Sr & Vr).
  rewrite Hy in Hr. injection Hr as <-.
  exists mean_, inv. split; [exact Hmean|]. split; [exact Hinv|].
  split; [exact Sr|].
  intros b c l Hlb Hlc Hll. rewrite (Vr b c l Hlb Hlc Hll). f_equal.
  rewrite (get3_nth 0 y0 b c l Hs0).
  assert (Hi : ((b * C + c) * L + l < size x)%nat)
    by (unfold size; rewrite Hx; cbn [prod fold_right];
        apply offset3_lt; assumption).
  rewrite (Hv0 _ Hi). cbv zeta. rewrite Hx.
  rewrite (bidx_channel3 B b Hlc Hll).
  unfold x_hat_at. rewrite (get3_nth 0 x b c l Hx). reflexivity.
Qed.

(** X1.  At every position the mask marks, the output of a successful
    forward call is gamma * x_hat + beta with x_hat = (x - mean) *
    inverse_std, for the statistics of the position's channel that the
    call has stored. *)
Theorem forward_output_at_active_positions
  x gamma beta f h y f' h' B C L mk bm :
  shape x = [B; C; L] -> shape gamma = [C] -> shape beta = [C] ->
  mask f = Some mk -> orig_mask f = Some mk ->
  BatchNormalization_forward rsqrt xp (x, gamma, beta) (f, h)
  = (Ok y, (f', h')) ->
  broadcast_to false mk [B; C; L] = Ok bm ->
  exists mean_ inv,
    mean f' = Some mean_ /\ inv_std f' = Some inv /\
    forall b c l, (b < B)%nat -> (c < C)%nat -> (l < L)%nat ->
      get3 false bm b c l = true ->
      get3 0 y b c l
      = nth c (data gamma) 0
        * ((get3 0 x b c l - nth c (data mean_) 0) * nth c (data inv) 0)
        + nth c (data beta) 0.
Proof.
  intros Hx Hg Hb Hm Hom H Hbm.
  destruct (@forward_values x gamma beta f h y f' h' B C L mk bm
              Hx Hg Hb Hm Hom H Hbm) as (mean_ & inv & Hmean & Hinv & _ & Hv).
  exists mean_, inv. split; [exact Hmean|]. split; [exact Hinv|].
  intros b c l Hlb Hlc Hll Hact.
  rewrite (Hv b c l Hlb Hlc Hll), Hact. unfold x_hat_at. cbn [of_bool].
  ring.
Qed.

(** ** Sums over the active elements *)

Lemma of_nat_S (n : nat) : of_nat (S n) = of_nat n + 1.
Proof.
  unfold of_nat. apply Qc_is_canon. cbn [this Qcplus Q2Qc].
  rewrite !Qred_correct. rewrite Nat2Z.inj_succ. unfold Z.succ.
  rewrite inject_Z_plus. reflexivity.
Qed.

Lemma of_nat_neq_0 (n : nat) : n <> 0%nat -> of_nat n <> 0.
Proof.
  intros Hn H. unfold of_nat in H.
  apply Q2Qc_eq_iff in H. unfold Qeq in H. cbn in H. lia.
Qed.

Lemma qsum_app (l l' : list Qc) : qsum (l ++ l') = qsum l + qsum l'.
Proof.
  unfold qsum. induction l as [|a l IH]; cbn [app fold_right].
  - ring.
  - rewrite IH. ring.
Qed.

Lemma qsum_affine (a c : Qc) (l : list Qc) :
  qsum (map (fun v => a * v + c) l) = a * qsum l + of_nat (length l) * c.
Proof.
  unfold qsum. induction l as [|v l IH].
  - cbn [map fold_right length]. change (of_nat 0) with (Q2Qc 0). ring.
  - cbn [map fold_right length]. rewrite IH, of_nat_S. ring.
Qed.

Lemma qsum_add {I} (F G : I -> Qc) (l : list I) :
  qsum (map (fun i => F i + G i) l) = qsum (map F l) + qsum (map G l).
Proof.
  unfold qsum. induction l as [|i l IH]; cbn [map fold_right].
  - ring.
  - rewrite IH. ring.
Qed.

(** The deviations from the mean of a list that is not empty sum to 0,
    whatever they are scaled by. *)
Lemma qsum_centred (w : Qc) (l : list Qc) :
  l <> [] -> qsum (map (fun v => (v - mean_list l) * w) l) = 0.
Proof.
  intros Hl.
  rewrite (map_ext _ (fun v => w * v + - (mean_list l * w)))
    by (intros v; ring).
  rewrite qsum_affine. unfold mean_list.
  assert (Hn : of_nat (length l) <> 0).
  { apply of_nat_neq_0. destruct l; [congruence|discriminate]. }
  field. exact Hn.
Qed.

(** Selection through [pick] looks at the selected positions only. *)
Lemma pick_ext_active {A} (B L : nat) (p : nat -> nat -> bool)
  (F G : nat -> nat -> list A) :
  (forall b l, (b < B)%nat -> (l < L)%nat -> p b l = true -> F b l = G b l) ->
  pick B L p F = pick B L p G.
Proof.
  intros H. unfold pick.
  apply flat_map_ext_in'. intros b Hb. apply in_seq in Hb.
  apply flat_map_ext_in'. intros l Hl. apply in_seq in Hl.
  destruct (p b l) eqn:E; [|reflexivity]. apply H; [lia|lia|exact E].
Qed.

Lemma active_ext_active {A} (B L : nat) (p : nat -> nat -> bool)
  (F G : nat -> nat -> A) :
  (forall b l, (b < B)%nat -> (l < L)%nat -> p b l = true -> F b l = G b l) ->
  active B L p F = active B L p G.
Proof.
  intros H. rewrite !active_pick. apply pick_ext_active.
  intros b l Hb Hl E. rewrite (H b l Hb Hl E). reflexivity.
Qed.

(** The sum over all positions of values that vanish where the mask is
    False is the sum over the active positions. *)
Lemma qsum_positions_masked (B L : nat) (p : nat -> nat -> bool)
  (G : nat -> nat -> Qc) :
  qsum (positions B L (fun b l => G b l * of_bool (p b l)))
  = qsum (active B L p G).
Proof.
  rewrite active_pick. unfold positions, pick.
  assert (Hrow : forall b ll,
    qsum (map (fun l => G b l * of_bool (p b l)) ll)
    = qsum (flat_map (fun l => if p b l then [G b l] else []) ll)).
  { intros b ll. induction ll as [|l ll IHl]; [reflexivity|].
    cbn [map flat_map]. rewrite qsum_app, <- IHl.
    unfold qsum. cbn [fold_right].
    destruct (p b l); cbn [of_bool fold_right]; ring. }
  induction (seq 0 B) as [|b lb IHb]; [reflexivity|].
  cbn [flat_map]. rewrite !qsum_app, IHb, Hrow. reflexivity.
Qed.

Lemma positions_ext {A} (B L : nat) (F G : nat -> nat -> A) :
  (forall b l, (b < B)%nat -> (l < L)%nat -> F b l = G b l) ->
  positions B L F = positions B L G.
Proof.
  intros H. unfold positions.
  apply flat_map_ext_in'. intros b Hb. apply in_seq in Hb.
  apply map_ext_in. intros l Hl. apply in_seq in Hl. apply H; lia.
Qed.

(** With a mask that does not depend on the channel, every channel has
    the active positions of channel 0. *)
Lemma n_active_uniform (bm : ndarray bool) (B C L c : nat) :
  channel_uniform bm B C L -> (c < C)%nat ->
  n_active bm B L c = n_active bm B L 0.
Proof.
  intros Hu Hc. unfold n_active. f_equal. apply active_ext.
  - intros b l Hb Hl. apply Hu; lia.
  - reflexivity.
Qed.

Lemma length_active_elements (a : ndarray Qc) (bm : ndarray bool)
  (B L c : nat) :
  length (active_elements a bm B L c) = n_active bm B L c.
Proof. unfold active_elements, n_active. apply length_active. Qed.

(** The statistics a successful forward call has stored, for a mask
    that does not depend on the channel. *)
Lemma forward_statistics x gamma beta f h y f' h' B C L mk bm :
  shape x = [B; C; L] ->
  mask f = Some mk ->
  BatchNormalization_forward rsqrt xp (x, gamma, beta) (f, h)
  = (Ok y, (f', h')) ->
  broadcast_to false mk [B; C; L] = Ok bm ->
  channel_uniform bm B C L ->
  exists mean_ inv,
    mean f' = Some mean_ /\ inv_std f' = Some inv /\
    forall c, (c < C)%nat ->
      nth c (data mean_) 0 = mean_list (active_elements x bm B L c).
Proof.
  intros Hx Hm H Hbm Hu.
  edestruct forward_inv as (bm' & xT & mT & ax & y0 & m & h1 & om & Hinv);
    [exact Hx | exact Hm | exact H |].
  cbv zeta in Hinv.
  destruct Hinv as (Hbm' & HxT & HmT & Hax & Hmean & Hinv & _).
  rewrite Hbm in Hbm'. injection Hbm' as <-.
  pose proof (broadcast_to_shape _ _ _ Hbm) as Hsb.
  edestruct forward_rows_uniform as (Hsax & HC & Hcol);
    [exact Hx | exact Hsb | exact Hu | exact HxT | exact HmT | exact Hax |].
  eexists. eexists. split; [exact Hmean|]. split; [exact Hinv|].
  intros c Hc.
  destruct (@stats_of_columns ax _ C c 0 _ Hsax Hc (Hcol c Hc)) as (E & _).
  exact E.
Qed.

(** X3.  The normalised values of the active elements of a channel are
    centred: the outputs of a channel sum to k * beta, for the number k of
    active positions, whatever gamma and the computed inverse_std are. *)
Theorem forward_output_channel_sum
  x gamma beta f h y f' h' B C L mk bm :
  shape x = [B; C; L] -> shape gamma = [C] -> shape beta = [C] ->
  mask f = Some mk -> orig_mask f = Some mk ->
  BatchNormalization_forward rsqrt xp (x, gamma, beta) (f, h)
  = (Ok y, (f', h')) ->
  broadcast_to false mk [B; C; L] = Ok bm ->
  channel_uniform bm B C L ->
  (0 < n_active bm B L 0)%nat ->
  forall c, (c < C)%nat ->
    qsum (positions B L (fun b l => get3 0 y b c l))
    = of_nat (n_active bm B L 0) * nth c (data beta) 0.
Proof.
  intros Hx Hg Hb Hm Hom H Hbm Hu Hk c Hc.
  destruct (@forward_values x gamma beta f h y f' h' B C L mk bm
              Hx Hg Hb Hm Hom H Hbm) as (mean_ & inv & Hmean & Hinv & _ & Hv).
  destruct (@forward_statistics x gamma beta f h y f' h' B C L mk bm
              Hx Hm H Hbm Hu) as (mean' & inv' & Hmean' & _ & Hmu).
  rewrite Hmean in Hmean'. injection Hmean' as <-.
  rewrite (@positions_ext _ B L _
             (fun b l => (nth c (data gamma) 0 * x_hat_at x mean_ inv b c l
                          + nth c (data beta) 0)
                         * of_bool (get3 false bm b c l)))
    by (intros b l Hlb Hll; apply Hv; assumption).
  rewrite qsum_positions_masked.
  set (l := active_elements x bm B L c).
  assert (Hlen : length l = n_active bm B L 0).
  { unfold l. rewrite length_active_elements.
    apply (n_active_uniform Hu Hc). }
  assert (E : active B L (fun b l0 => get3 false bm b c l0)
                (fun b l0 => nth c (data gamma) 0 * x_hat_at x mean_ inv b c l0
                             + nth c (data beta) 0)
              = map (fun v => nth c (data gamma) 0 * nth c (data inv) 0 * v
                              + (nth c (data beta) 0
                                 - nth c (data gamma) 0 * mean_list l
                                   * nth c (data inv) 0)) l).
  { unfold l, active_elements. rewrite map_active. apply active_ext.
    - reflexivity.
    - intros b l0 _ _. unfold x_hat_at. rewrite (Hmu c Hc).
      unfold active_elements. ring. }
  rewrite E, qsum_affine, Hlen. unfold mean_list. rewrite Hlen.
  field. apply of_nat_neq_0. lia.
Qed.

Lemma qsum_affine2 {I} (a1 a2 c : Qc) (F1 F2 : I -> Qc) (l : list I) :
  qsum (map (fun i => a1 * F1 i + a2 * F2 i + c) l)
  = a1 * qsum (map F1 l) + a2 * qsum (map F2 l) + of_nat (length l) * c.
Proof.
  unfold qsum. induction l as [|i l IH].
  - cbn [map fold_right length]. change (of_nat 0) with (Q2Qc 0). ring.
  - cbn [map fold_right length]. rewrite IH, of_nat_S. ring.
Qed.

(** X4.  The gradient with respect to x sums to 0 over every channel: the
    output of a channel does not change when all its active inputs are
    shifted by the same amount. *)
Theorem backward_gx_channel_sum
  x gamma beta gy f h y f' h' B C L mk bm :
  shape x = [B; C; L] -> shape gamma = [C] -> shape gy = [B; C; L] ->
  mask f = Some mk -> orig_mask f = Some mk ->
  BatchNormalization_forward rsqrt xp (x, gamma, beta) (f, h)
  = (Ok y, (f', h')) ->
  broadcast_to false mk [B; C; L] = Ok bm ->
  channel_uniform bm B C L ->
  (0 < n_active bm B L 0)%nat ->
  exists gx ggamma gbeta,
    BatchNormalization_backward xp f' gy = Ok (gx, ggamma, gbeta) /\
    forall c, (c < C)%nat ->
      qsum (positions B L (fun b l => get3 0 gx b c l)) = 0.
Proof.
  intros Hx Hg Hgy Hm Hom H Hbm Hu Hk.
  edestruct forward_inv
    as (bm' & xT & mT & ax & y0 & m & h1 & om & Hinv);
    [exact Hx | exact Hm | exact H |].
  cbv zeta in Hinv.
  destruct Hinv as (Hbm' & HxT & HmT & Hax & Hmean & Hinv & Hmask & Homask
                    & Hret & Hexp & _).
  rewrite Hbm in Hbm'. injection Hbm' as <-.
  pose proof (broadcast_to_shape _ _ _ Hbm) as Hsb.
  edestruct forward_rows_uniform as (Hsax & HC & Hcol);
    [exact Hx | exact Hsb | exact Hu | exact HxT | exact HmT | exact Hax |].
  assert (He : expander f' = 1%nat)
    by (rewrite Hexp; unfold ndim; rewrite Hx, Hg; reflexivity).
  set (mean_ := mean_axis0 ax) in *.
  set (inv := amap rsqrt (amap (fun v => v + eps f) (var_axis0 ax))) in *.
  assert (Hms : shape mean_ = [C]) by (eapply shape_mean_axis0, Hsax).
  assert (His : shape inv = [C])
    by (unfold inv; cbn [amap shape]; eapply shape_var_axis0, Hsax).
  set (g := BatchNormalizationGrad_init
              (eps f') (mode f') (expander f') (axis f')
              (mean f') (inv_std f') (active_len f')
              (orig_mask f') (mask f')).
  destruct (@grad_forward_spec xp g x gamma gy mean_ inv mk bm mT B C L)
    as (gx & ggamma & gbeta & Hgrad & Sgx & Sgg & Sgb & Hv);
    try assumption;
    try solve [ exact He | exact Hmean | exact Hinv | exact Hmask
              | unfold g; cbn [BatchNormalizationGrad_init g_orig_mask];
                congruence
              | lia ].
  exists gx, ggamma, gbeta. split.
  { unfold BatchNormalization_backward. rewrite Hret.
    cbn [option_result fst snd]. exact Hgrad. }
  intros c Hc. destruct (Hv c Hc) as (Hgb & _ & Hgx).
  set (k := n_active bm B L 0) in *.
  set (p := fun b l => get3 false bm b c l).
  set (gs := nth c (data gamma) 0 * nth c (data inv) 0).
  set (gg := nth c (data ggamma) 0) in *.
  set (gb := nth c (data gbeta) 0) in *.
  set (w := 1 / of_nat k).
  rewrite (@positions_ext _ B L _
             (fun b l => (gs * (get3 0 gy b c l
                                - (x_hat_at x mean_ inv b c l * gg + gb) * w))
                         * of_bool (p b l)))
    by (intros b l Hlb Hll; apply Hgx; assumption).
  rewrite qsum_positions_masked.
  set (idx := active B L p (fun b l => (b, l))).
  assert (Hlen : length idx = k).
  { unfold idx, k. rewrite <- (n_active_uniform Hu Hc). unfold n_active.
    apply length_active. }
  assert (E : active B L p
                (fun b l => gs * (get3 0 gy b c l
                                  - (x_hat_at x mean_ inv b c l * gg + gb) * w))
              = map (fun i => gs * get3 0 gy (fst i) c (snd i)
                              + (- (gs * w * gg))
                                * x_hat_at x mean_ inv (fst i) c (snd i)
                              + - (gs * w * gb)) idx).
  { unfold idx. rewrite map_active. apply active_ext; [reflexivity|].
    intros b l _ _. cbn [fst snd]. ring. }
  rewrite E, qsum_affine2, Hlen.
  assert (E1 : qsum (map (fun i => get3 0 gy (fst i) c (snd i)) idx) = gb).
  { unfold idx. rewrite map_active. cbn [fst snd].
    rewrite Hgb. reflexivity. }
  assert (E2 : qsum (map (fun i => x_hat_at x mean_ inv (fst i) c (snd i))
                         idx) = 0).
  { unfold idx. rewrite map_active. cbn [fst snd]. unfold x_hat_at.
    destruct (@stats_of_columns ax _ C c 0 _ Hsax Hc (Hcol c Hc)) as (Emu & _).
    fold mean_ in Emu. rewrite Emu.
    set (l := active B L (fun b l => get3 false bm b c l)
                (fun b l => get3 0 x b c l)).
    assert (Hl : length l = k).
    { unfold l, k. rewrite <- (n_active_uniform Hu Hc). unfold n_active.
      apply length_active. }
    assert (Hne : l <> []).
    { intros El. assert (H0 : length l = 0%nat) by (rewrite El; reflexivity).
      rewrite Hl in H0. unfold k in H0. lia. }
    rewrite <- (map_active (fun v => (v - mean_list l) * nth c (data inv) 0)).
    apply qsum_centred. exact Hne. }
  rewrite E1, E2. unfold w. field. apply of_nat_neq_0. unfold k. lia.
Qed.

(** ** The two array back ends *)





(** ** The fixed variant: backward after forward *)

(** What a successful fixed forward call leaves in the function
    object. *)
Lemma fixed_apply_state (x gamma beta mean_ var : ndarray Qc)
  (s s' : FixedBatchNormalization) (y : ndarray Qc) :
  FixedBatchNormalization_apply sqrt xp (x, gamma, beta, mean_, var) s
  = (Ok y, s') ->
  s' = mk_FBN (f_eps s)
         (Some (amap sqrt (amap Qcinv (amap (fun v => v + f_eps s) var))))
         (Some (amap Qcinv (amap (fun v => v + f_eps s) var)))
         (ndim x - (ndim gamma + 1))
         (0%nat :: range (ndim gamma + 1) (ndim x))
         (Some (x, gamma, mean_, var)).
Proof.
  unfold FixedBatchNormalization_apply, FixedBatchNormalization_forward,
    bind, lift, get, modify, ret.
  destruct (FixedBatchNormalization_check_type_forward _); [|discriminate].
  cbn [fst snd].
  destruct (_apply_bn_fwd _ _ _ _ _ _); [|discriminate].
  intros [= _ <-]. reflexivity.
Qed.

(** X17.  The cache of the fixed variant is transparent.  After a
    successful forward call, backward hands the inverse_std and
    inverse_var it stored to FixedBatchNormalizationGrad; the gradients
    are those the gradient function computes when it holds nothing and
    recomputes both from var and eps. *)
Theorem fixed_backward_after_forward
  (x gamma beta mean_ var gy : ndarray Qc)
  (s s' : FixedBatchNormalization) (y : ndarray Qc) :
  FixedBatchNormalization_apply sqrt xp (x, gamma, beta, mean_, var) s
  = (Ok y, s') ->
  FixedBatchNormalization_backward sqrt s' gy
  = fst (FixedBatchNormalizationGrad_forward sqrt
           (x, gamma, mean_, var, gy)
           (FixedBatchNormalizationGrad_init (f_eps s)
              (ndim x - (ndim gamma + 1))
              (0%nat :: range (ndim gamma + 1) (ndim x)) None None)).
Proof.
  intros H. rewrite (fixed_apply_state _ _ _ _ _ _ H).
  unfold FixedBatchNormalization_backward.
  cbn [f_retained option_result f_eps f_expander f_axis f_inv_std f_inv_var].
  pose proof (@grad_cache sqrt (x, gamma, mean_, var, gy)) as Hc.
  cbv beta iota in Hc.
  rewrite Hc.
  2:{ unfold cache_ok, FixedBatchNormalizationGrad_init.
      cbn [fg_inv_std fg_inv_var fg_eps]. split; reflexivity. }
  symmetry. rewrite Hc.
  2:{ unfold cache_ok, FixedBatchNormalizationGrad_init.
      cbn [fg_inv_std fg_inv_var]. exact I. }
  reflexivity.
Qed.

(** ** The type checks, beyond the invariants above *)

Lemma dkind_eqb_eq (a b : dkind) : dkind_eqb a b = true -> a = b.
Proof. destruct a, b; simpl; congruence. Qed.

Lemma dkind_eqb_refl (a : dkind) : dkind_eqb a a = true.
Proof. destruct a; reflexivity. Qed.

Lemma slice_of_layout (n : nat) (g sp : list nat) :
  slice 1 (1 + length g) (n :: g ++ sp) = g.
Proof.
  unfold slice. cbn [skipn].
  replace (1 + length g - 1)%nat with (length g) by lia.
  rewrite firstn_app, Nat.sub_diag, firstn_all. cbn [firstn].
  apply app_nil_r.
Qed.

(** X13.  The type check of the masked variant accepts exactly the inputs
    with a floating-point x whose axes 1 .. gamma.ndim are the shape of
    gamma, and a gamma and a beta of the dtype of x and of one shape: an
    integer x, or an x whose channel axes differ from the shape of gamma,
    raises InvalidType like the violations of the other invariants, with
    the function object and the heap untouched; an accepted x has the
    shape (n,) + gamma.shape + spatial. *)
Theorem masked_check_accepts_exactly (x gamma beta : ndarray Qc)
  (s : BNState) :
  (kind (dtype_of x) = kind_f /\
   (exists n sp, shape x = n :: shape gamma ++ sp) /\
   dtype_of gamma = dtype_of x /\ dtype_of beta = dtype_of x /\
   shape gamma = shape beta ->
   BatchNormalization_apply rsqrt xp (x, gamma, beta) s
   = BatchNormalization_forward rsqrt xp (x, gamma, beta) s) /\
  (~ (kind (dtype_of x) = kind_f /\
      (exists n sp, shape x = n :: shape gamma ++ sp) /\
      dtype_of gamma = dtype_of x /\ dtype_of beta = dtype_of x /\
      shape gamma = shape beta) ->
   BatchNormalization_apply rsqrt xp (x, gamma, beta) s
   = (Raise InvalidType, s)).
Proof.
  unfold BatchNormalization_apply, bind, lift.
  unfold BatchNormalization_check_type_forward.
  cbn [length Nat.eqb expect forallb andb rbind].
  unfold ti_ndim. cbn [type_of ti_dtype ti_shape].
  split.
  - intros (Hk & (n & sp & Hx) & Hdg & Hdb & Hs).
    unfold expect. cbn [forallb].
    rewrite Hk, Hdg, Hdb, Hx, slice_of_layout, <- Hs. cbn [dkind_eqb].
    rewrite !dtype_eqb_refl, !shape_eqb_refl.
    replace (length (shape gamma) + 1
             <=? length (n :: shape gamma ++ sp))%nat
      with true
      by (symmetry; apply Nat.leb_le; cbn [length]; rewrite length_app; lia).
    cbn [andb]. destruct (BatchNormalization_forward _ _ _ _); reflexivity.
  - intros Hn. rewrite expect_false; [reflexivity|].
    destruct (dkind_eqb (kind (dtype_of x)) kind_f) eqn:Ek;
      [|cbn [In]; tauto].
    destruct (length (shape gamma) + 1 <=? length (shape x))%nat eqn:En;
      [|cbn [In]; tauto].
    destruct (shape_eqb (slice 1 (1 + length (shape gamma)) (shape x))
                (shape gamma)) eqn:Esl; [|cbn [In]; tauto].
    destruct (dtype_eqb (dtype_of gamma) (dtype_of x)) eqn:Eg;
      [|cbn [In]; tauto].
    destruct (dtype_eqb (dtype_of beta) (dtype_of x)) eqn:Eb;
      [|cbn [In]; tauto].
    destruct (shape_eqb (shape gamma) (shape beta)) eqn:Es;
      [|cbn [In]; tauto].
    exfalso. apply Hn.
    apply Nat.leb_le in En.
    destruct (@slice_channel (shape x) (shape gamma)
                (shape_eqb_eq _ _ Esl) En) as (n & sp & Hx & _).
    repeat split; eauto using dkind_eqb_eq, dtype_eqb_eq, shape_eqb_eq.
Qed.

(** ** The cuDNN mode of a masked call *)

Ltac advance H :=
  cbv beta iota in H;
  match type of H with
  | (let (_, _) := ?c in _) = _ =>
      let E := fresh "E" in
      destruct c as [[?|?] ?] eqn:E; [|discriminate H]
  | match ?c with Ok _ => _ | Raise _ => _ end = _ =>
      let E := fresh "E" in
      destruct c eqn:E; [|discriminate H]
  end.

Ltac advance_inplace H :=
  cbv beta iota in H;
  match type of H with
  | (let (_, _) := ?c in _) = _ =>
      let E := fresh "E" in
      destruct c as [[[]|?] ?] eqn:E; [|discriminate H];
      apply inplace_ok in E; destruct E as (? & ? & ? & _ & _ & _ & ->)
  end.

(** The plan a successful forward call has stored, and the layout it
    has met on the way. *)
Lemma forward_plan x gamma beta f h y f' h' :
  BatchNormalization_forward rsqrt xp (x, gamma, beta) (f, h)
  = (Ok y, (f', h')) ->
  ndim x = 3%nat /\
  mode f' = Some (BNMode_init x gamma) /\
  expander f' = (ndim x - (ndim gamma + 1))%nat /\
  axis f' = 0%nat :: range (ndim gamma + 1) (ndim x) /\
  eps f' = eps f /\ decay f' = decay f /\ active_len f' = active_len f.
Proof.
  intros H.
  unfold BatchNormalization_forward in H.
  unfold bind, upd_self, modify, get, lift, ret in H.
  cbn [fst snd running_mean set_retained mask] in H.
  match type of H with
  | (let (_, _) := ?c in _) = _ =>
      assert (Hinit : exists rm rv h1,
        c = (Ok tt, (set_running_var rv (set_running_mean rm
                       (set_retained (Some (x, gamma)) f)), h1)))
  end.
  { destruct f as [rm0 rv0 al0 m0 om0 e0 d0 mn0 is0 md0 ex0 ax0 rt0].
    cbn [running_mean running_var]. destruct rm0 as [l|].
    - exists (Some l), rv0, h. reflexivity.
    - eexists. eexists. eexists. unfold alloc, upd_heap. cbn [fst snd].
      reflexivity. }
  destruct Hinit as (rm & rv & h1 & Heq).
  rewrite Heq in H. clear Heq. cbn [fst snd] in H.
  advance H. advance H.
  assert (H3 : ndim x = 3%nat).
  { destruct (Nat.eq_dec (ndim x) 3) as [E3|E3]; [exact E3|].
    match goal with
    | E : transpose_0_2_1 _ x = Ok _ |- _ =>
        rewrite (transpose_not_3d 0 x E3) in E; discriminate E
    end. }
  advance H. advance H. advance H.
  cbn [eps set_mean set_mask set_plan] in H.
  advance H. advance H.
  cbn [running_mean running_var decay eps set_inv_std set_mean set_mask
       set_plan orig_mask] in H.
  advance_inplace H. advance_inplace H. advance_inplace H. advance_inplace H.
  cbn [fst snd orig_mask set_inv_std set_mean set_mask set_plan] in H.
  advance H. advance H.
  injection H as <- <- <-.
  split; [exact H3|]. repeat split.
Qed.

(** X19.  A masked call never qualifies for cuDNN.  A forward call that
    returns has stored a mode whose cudnn_dim_ok is False, because x has
    three axes and cuDNN is used for two or four: can_use_cudnn is False
    on every back end, and get_cudnn_mode would fail its assertion. *)
Theorem masked_forward_never_uses_cudnn
  x gamma beta f h y f' h' (cudnn_5000 : bool) :
  BatchNormalization_forward rsqrt xp (x, gamma, beta) (f, h)
  = (Ok y, (f', h')) ->
  exists md,
    mode f' = Some md /\
    cudnn_dim_ok md = false /\
    BNMode_can_use_cudnn cudnn_5000 xp md = false /\
    BNMode_get_cudnn_mode md = None.
Proof.
  intros H.
  destruct (@forward_plan x gamma beta f h y f' h' H) as (H3 & Hmode & _).
  exists (BNMode_init x gamma). split; [exact Hmode|].
  assert (Hd : cudnn_dim_ok (BNMode_init x gamma) = false).
  { unfold BNMode_init. cbn [cudnn_dim_ok]. rewrite H3. reflexivity. }
  split; [exact Hd|]. split.
  - unfold BNMode_can_use_cudnn. rewrite Hd.
    destruct (negb (is_numpy xp) && cudnn_5000); reflexivity.
  - unfold BNMode_get_cudnn_mode. rewrite Hd. reflexivity.
Qed.

(** ** The values of x at masked positions *)

Lemma select_build3 {A} (B L C : nat) (F : nat -> nat -> nat -> A)
  (M : nat -> nat -> nat -> bool) :
  select (build3 B L C F) (build3 B L C M)
  = flat_map (fun i =>
      flat_map (fun k =>
        flat_map (fun j => if M i k j then [F i k j] else []) (seq 0 C))
        (seq 0 L)) (seq 0 B).
Proof.
  unfold build3.
  rewrite select_flat_map
    by (intros i; rewrite !(@length_flat_map_const _ _ _ _ C);
        [reflexivity
        | intros; rewrite length_map; apply length_seq
        | intros; rewrite length_map; apply length_seq]).
  apply flat_map_ext_in'. intros i _.
  rewrite select_flat_map by (intros k; rewrite !length_map; reflexivity).
  apply flat_map_ext_in'. intros k _.
  apply select_map_map.
Qed.

(** The rows the forward call selects depend on x at the active
    positions only. *)
Lemma masked_rows_agree (x x' : ndarray Qc) (bm : ndarray bool)
  (dt : dtype) (B C L : nat) :
  dtype_of x' = dtype_of x ->
  (forall b c l, (b < B)%nat -> (c < C)%nat -> (l < L)%nat ->
     get3 false bm b c l = true -> get3 0 x' b c l = get3 0 x b c l) ->
  masked_rows
    (mk_ndarray (dtype_of x') [B; L; C]
       (build3 B L C (fun i k j => get3 0 x' i j k)))
    (Some (mk_ndarray dt [B; L; C]
             (build3 B L C (fun i k j => get3 false bm i j k)))) C
  = masked_rows
      (mk_ndarray (dtype_of x) [B; L; C]
         (build3 B L C (fun i k j => get3 0 x i j k)))
      (Some (mk_ndarray dt [B; L; C]
               (build3 B L C (fun i k j => get3 false bm i j k)))) C.
Proof.
  intros Hd Hxx. unfold masked_rows, bool_index.
  cbn [option_result rbind shape data dtype_of].
  rewrite shape_eqb_refl, Hd. rewrite !select_build3.
  replace (flat_map (fun i => flat_map (fun k => flat_map (fun j =>
             if get3 false bm i j k then [get3 0 x' i j k] else [])
             (seq 0 C)) (seq 0 L)) (seq 0 B))
    with (flat_map (fun i => flat_map (fun k => flat_map (fun j =>
             if get3 false bm i j k then [get3 0 x i j k] else [])
             (seq 0 C)) (seq 0 L)) (seq 0 B)); [reflexivity|].
  apply flat_map_ext_in'. intros i Hi. apply in_seq in Hi.
  apply flat_map_ext_in'. intros k Hk. apply in_seq in Hk.
  apply flat_map_ext_in'. intros j Hj. apply in_seq in Hj.
  destruct (get3 false bm i j k) eqn:E; [|reflexivity].
  rewrite (Hxx i j k) by (lia || exact E). reflexivity.
Qed.

(** X2.  Padding does not leak.  Two forward calls from the same state, on
    inputs x and x' that agree wherever the mask is True, store the same
    statistics, leave the same running statistics and return the same
    output: the values of x at the masked positions influence nothing the
    caller can observe. *)
Theorem forward_ignores_masked_inputs
  x x' gamma beta f h y y' f1 h1 f2 h2 B C L mk bm :
  shape x = [B; C; L] -> shape x' = [B; C; L] ->
  dtype_of x' = dtype_of x ->
  shape gamma = [C] -> shape beta = [C] ->
  mask f = Some mk -> orig_mask f = Some mk ->
  broadcast_to false mk [B; C; L] = Ok bm ->
  (forall b c l, (b < B)%nat -> (c < C)%nat -> (l < L)%nat ->
     get3 false bm b c l = true -> get3 0 x' b c l = get3 0 x b c l) ->
  BatchNormalization_forward rsqrt xp (x, gamma, beta) (f, h)
  = (Ok y, (f1, h1)) ->
  BatchNormalization_forward rsqrt xp (x', gamma, beta) (f, h)
  = (Ok y', (f2, h2)) ->
  mean f2 = mean f1 /\ inv_std f2 = inv_std f1 /\ h2 = h1 /\
  forall b c l, (b < B)%nat -> (c < C)%nat -> (l < L)%nat ->
    get3 0 y' b c l = get3 0 y b c l.
Proof.
  intros Hx Hx' Hd Hg Hb Hm Hom Hbm Hxx H1 H2.
  pose proof (broadcast_to_shape _ _ _ Hbm) as Hsb.
  edestruct forward_inv
    as (bm1 & xT1 & mT1 & ax1 & y01 & m1 & g1 & om1 & I1);
    [exact Hx | exact Hm | exact H1 |].
  edestruct forward_inv
    as (bm2 & xT2 & mT2 & ax2 & y02 & m2 & g2 & om2 & I2);
    [exact Hx' | exact Hm | exact H2 |].
  cbv zeta in I1, I2.
  destruct I1 as (Hbm1 & HxT1 & HmT1 & Hax1 & Hmean1 & Hinv1 & _ & _ & _ & _
                  & _ & Hfd1 & Hri1 & Hru1 & _).
  destruct I2 as (Hbm2 & HxT2 & HmT2 & Hax2 & Hmean2 & Hinv2 & _ & _ & _ & _
                  & _ & Hfd2 & Hri2 & Hru2 & _).
  rewrite Hbm in Hbm1, Hbm2. injection Hbm1 as <-. injection Hbm2 as <-.
  rewrite (transpose_3d 0 x Hx) in HxT1. injection HxT1 as <-.
  rewrite (transpose_3d 0 x' Hx') in HxT2. injection HxT2 as <-.
  rewrite (transpose_3d false bm Hsb) in HmT1, HmT2.
  injection HmT1 as <-. injection HmT2 as <-.
  rewrite (@masked_rows_agree x x' bm (dtype_of bm) B C L Hd Hxx) in Hax2.
  rewrite Hax1 in Hax2. injection Hax2 as <-.
  rewrite Hfd1 in Hfd2. injection Hfd2 as <-.
  assert (Emean : mean f2 = mean f1) by congruence.
  assert (Einv : inv_std f2 = inv_std f1) by congruence.
  assert (Eh : h2 = h1).
  { unfold running_init in Hri1, Hri2.
    assert (Ei : running_mean f2 = running_mean f1 /\
                 running_var f2 = running_var f1 /\ g2 = g1).
    { destruct (running_mean f).
      - destruct Hri1 as (-> & -> & ->). destruct Hri2 as (-> & -> & ->).
        auto.
      - destruct Hri1 as (-> & -> & ->). destruct Hri2 as (-> & -> & ->).
        auto. }
    destruct Ei as (Erm & Erv & ->). rewrite Erm, Erv in Hru2.
    destruct Hru1 as (lm & lv & r0 & r1 & v0 & v1 & Ea & Eb & Ec & Ed & Ee
                      & Ef & ->).
    destruct Hru2 as (lm' & lv' & r0' & r1' & v0' & v1' & Ea' & Eb' & Ec'
                      & Ed' & Ee' & Ef' & ->).
    rewrite Ea in Ea'. injection Ea' as <-.
    rewrite Eb in Eb'. injection Eb' as <-.
    rewrite Ec in Ec'. injection Ec' as <-.
    rewrite Ed in Ed'. injection Ed' as <-.
    rewrite Ee in Ee'. injection Ee' as <-.
    rewrite Ef in Ef'. injection Ef' as <-.
    reflexivity. }
  split; [exact Emean|]. split; [exact Einv|]. split; [exact Eh|].
  destruct (@forward_values x gamma beta f h y f1 h1 B C L mk bm
              Hx Hg Hb Hm Hom H1 Hbm) as (mu & iv & Hmu & Hiv & _ & V1).
  destruct (@forward_values x' gamma beta f h y' f2 h2 B C L mk bm
              Hx' Hg Hb Hm Hom H2 Hbm) as (mu' & iv' & Hmu' & Hiv' & _ & V2).
  assert (mu' = mu) by congruence. assert (iv' = iv) by congruence.
  subst mu' iv'.
  intros b c l Hlb Hlc Hll. rewrite V1, V2 by assumption.
  destruct (get3 false bm b c l) eqn:E; cbn [of_bool].
  - unfold x_hat_at. rewrite (Hxx b c l Hlb Hlc Hll E). reflexivity.
  - ring.
Qed.

(** ** The fixed variant: the gradients of x and of mean *)

Lemma channel_sum_scaled (x gamma : ndarray Qc) (q v : list Qc) (j : nat) :
  length v = size x ->
  channel_sum x gamma
    (map (fun i => nth (channel_of x gamma i) q 0 * nth i v 0)
         (seq 0 (size x))) j
  = nth j q 0 * channel_sum x gamma v j.
Proof.
  intros Hv.
  replace (channel_sum x gamma v j)
    with (channel_sum x gamma (map (fun i => nth i v 0) (seq 0 (size x))) j)
    by (rewrite <- Hv, map_nth_seq; reflexivity).
  unfold channel_sum. rewrite !select_map_map.
  induction (seq 0 (size x)) as [|i l IH]; cbn [flat_map].
  - unfold qsum. cbn [fold_right]. ring.
  - rewrite !qsum_app, IH.
    destruct (Nat.eqb_spec (channel_of x gamma i) j) as [->|_];
      unfold qsum; cbn [fold_right]; ring.
Qed.

(** X18.  The output of the fixed variant depends on x and mean through x
    - mean only, and the gradients show it: for every channel, gmean is
    minus the sum of gx over the elements of the channel. *)
Theorem fixed_gmean_is_minus_sum_of_gx
  (x gamma mean_ var gy gx ggamma gbeta gmean gvar : ndarray Qc)
  (f : FixedBatchNormalizationGrad) (n : nat) (sp : list nat) :
  shape x = n :: shape gamma ++ sp ->
  shape var = shape gamma ->
  shape gy = shape x -> wf gy ->
  fg_expander f = (ndim x - (ndim gamma + 1))%nat ->
  fg_axis f = 0%nat :: range (ndim gamma + 1) (ndim x) ->
  cache_ok f var sqrt ->
  fst (FixedBatchNormalizationGrad_forward sqrt
         (x, gamma, mean_, var, gy) f)
  = Ok (gx, ggamma, gbeta, gmean, gvar) ->
  forall j, (j < size gamma)%nat ->
    nth j (data gmean) 0 = - channel_sum x gamma (data gx) j.
Proof.
  intros Hx Hv Hgy Hwf Hex Hax Hc H.
  pose proof (@grad_cache sqrt (x, gamma, mean_, var, gy) f) as Hcache.
  cbv beta iota in Hcache. rewrite (Hcache Hc) in H. clear Hcache.
  set (IV := amap Qcinv (amap (fun a => a + fg_eps f) var)) in *.
  set (IS := amap sqrt IV) in *.
  set (k := (ndim x - (ndim gamma + 1))%nat) in *.
  assert (Hsp : length sp = k).
  { unfold k, ndim. rewrite Hx. cbn [length]. rewrite length_app. lia. }
  assert (Hcomp : compatible (1%nat :: shape gamma ++ repeat 1%nat k)
                    (shape x) = true)
    by (rewrite Hx, <- Hsp; apply compatible_expand).
  assert (Hidx : forall i, (i < size x)%nat ->
            bidx (1%nat :: shape gamma ++ repeat 1%nat k) (shape x) i
            = channel_of x gamma i).
  { intros i Hi. rewrite <- Hsp. rewrite Hx.
    assert (HS : spatial_size x gamma = prod sp).
    { unfold spatial_size, ndim. rewrite Hx. cbn [Nat.add skipn].
      rewrite skipn_app_exact. reflexivity. }
    unfold channel_of. rewrite HS. unfold size in *.
    rewrite Hx in Hi. cbn [prod fold_right] in Hi.
    fold (prod (shape gamma ++ sp)) in Hi. rewrite prod_app in Hi.
    apply bidx_channel, Hi. }
  assert (SIS : shape IS = shape gamma) by exact Hv.
  destruct (@same_binop Qcmult gamma IS (shape gamma) eq_refl SIS)
    as (gos & Egos & Sgos & _ & Vgos).
  assert (Egx : binop Qcmult (expand k gos) gy
                = Ok (mk_ndarray (dtype_of gos) (shape gy)
                        (map (fun i => nth (channel_of x gamma i) (data gos) 0
                                       * nth i (data gy) 0)
                             (seq 0 (size x))))).
  { rewrite binop_l by (cbn [expand shape]; rewrite Sgos, Hgy; exact Hcomp).
    cbn [expand shape data dtype_of]. f_equal. f_equal.
    unfold size. rewrite Hgy. apply map_ext_in. intros i Hi.
    apply in_seq in Hi. rewrite Sgos, Hidx by (unfold size; lia).
    reflexivity. }
  pose proof (@sum_axes_channel gy x gamma n sp Hgy Hx) as Egb.
  set (gb := mk_ndarray (dtype_of gy) (shape gamma)
               (map (fun j => channel_sum x gamma (data gy) j)
                    (seq 0 (size gamma)))) in *.
  destruct (@same_binop Qcmult (amap Qcopp gos) gb (shape gamma)
              Sgos eq_refl) as (gm & Egm & _ & _ & Vgm).
  unfold FixedBatchNormalizationGrad_forward, bind, get, modify, lift, ret
    in H.
  cbn [fst snd fg_inv_std fg_inv_var fg_expander fg_axis fg_eps
       option_result] in H.
  fold IV in H. fold IS in H. rewrite Hex in H. fold k in H.
  rewrite Egos in H. cbn [fst snd fg_axis] in H.
  destruct (_x_hat x (expand k mean_) (expand k IS)) as [xh|] eqn:Exh;
    [|discriminate H].
  cbn [fst snd fg_axis] in H. rewrite Egx, Hax, Egb in H.
  cbn [fst snd] in H.
  destruct (binop Qcmult xh gy) as [xg|] eqn:Exg; [|discriminate H].
  cbn [fst snd] in H.
  destruct (sum_axes (0%nat :: range (ndim gamma + 1) (ndim x)) xg)
    as [gg|] eqn:Egg; [|discriminate H].
  cbn [fst snd] in H. rewrite Egm in H. cbn [fst snd] in H.
  destruct (binop Qcmult (scale neg_half gamma) IV) as [t|] eqn:Et;
    [|discriminate H].
  cbn [fst snd] in H.
  destruct (binop Qcmult t gg) as [gv|] eqn:Egv; [|discriminate H].
  cbn [fst snd] in H. injection H as <- _ _ <- _.
  intros j Hj. cbn [data].
  rewrite Vgm by exact Hj. cbn [amap data gb].
  rewrite (nth_map0 Qcopp _ _ Qcopp_0).
  rewrite nth_map_seq by exact Hj.
  rewrite (@channel_sum_scaled x gamma (data gos) (data gy) j)
    by (unfold wf in Hwf; rewrite Hwf; unfold size; rewrite Hgy; reflexivity).
  ring.
Qed.


(** ** Training and inference agree *)

(** X5.  When [v ** (-0.5)] and [sqrt(1 / v)] are the same function, the
    output of a masked forward call is the output of the fixed variant for
    the batch statistics the call computed (its mean, and its variance
    before eps is added), multiplied by the mask. *)
Theorem masked_output_is_fixed_output_masked
  x gamma beta f h y f' h' B C L mk (s : FixedBatchNormalization) :
  (forall v, rsqrt v = sqrt (/ v)) ->
  shape x = [B; C; L] -> shape gamma = [C] -> shape beta = [C] ->
  kind (dtype_of x) = kind_f ->
  dtype_of gamma = dtype_of x -> dtype_of beta = dtype_of x ->
  mask f = Some mk -> orig_mask f = Some mk ->
  f_eps s = eps f ->
  BatchNormalization_forward rsqrt xp (x, gamma, beta) (f, h)
  = (Ok y, (f', h')) ->
  exists mean_ var y0,
    mean f' = Some mean_ /\
    inv_std f' = Some (amap rsqrt (amap (fun v => v + eps f) var)) /\
    fst (FixedBatchNormalization_apply sqrt xp
           (x, gamma, beta, mean_, var) s) = Ok y0 /\
    iop Qcmult y0 (astype_float (dtype_of y0) mk) = Ok y.
Proof.
  intros Hrs Hx Hg Hb Hk Hdg Hdb Hm Hom Heps H.
  edestruct forward_inv as (bm & xT & mT & ax & y0 & m & h1 & om & Hinv);
    [exact Hx | exact Hm | exact H |].
  cbv zeta in Hinv.
  destruct Hinv as (_ & HxT & _ & Hax & Hmean & Hinv & _ & _ & _ & _ & Hy0 & _
                    & _ & _ & Hom' & Hy).
  rewrite Hom in Hom'. injection Hom' as <-.
  edestruct masked_rows_shape as (n & Hsax & _ & _); [exact Hax|].
  rewrite (transpose_3d 0 x Hx) in HxT. injection HxT as <-.
  assert (Hdax : dtype_of ax = dtype_of x).
  { unfold masked_rows, bool_index, reshape_rows in Hax.
    cbn [option_result rbind shape data dtype_of] in Hax.
    destruct (shape_eqb _ _); [|discriminate Hax]. cbn [rbind] in Hax.
    destruct C; [discriminate Hax|].
    match type of Hax with
    | (if ?b then _ else _) = _ => destruct b; [|discriminate Hax]
    end.
    injection Hax as <-. reflexivity. }
  exists (mean_axis0 ax), (var_axis0 ax), y0.
  split; [exact Hmean|]. split; [exact Hinv|]. split; [|exact Hy].
  unfold FixedBatchNormalization_apply, bind, lift.
  assert (Hck : FixedBatchNormalization_check_type_forward
                  [type_of x; type_of gamma; type_of beta;
                   type_of (mean_axis0 ax); type_of (var_axis0 ax)] = Ok tt).
  { unfold FixedBatchNormalization_check_type_forward.
    cbn [length Nat.eqb expect forallb andb rbind].
    unfold ti_ndim. cbn [type_of ti_dtype ti_shape].
    rewrite (shape_mean_axis0 _ Hsax), (shape_var_axis0 _ Hsax).
    unfold mean_axis0, var_axis0, rows_cols. rewrite Hsax.
    cbn [dtype_of]. rewrite Hdax, Hk, Hdg, Hdb, Hx, Hg, Hb.
    unfold expect. cbn [forallb dkind_eqb length Nat.add Nat.leb slice
                        skipn firstn Nat.sub].
    rewrite !dtype_eqb_refl, !shape_eqb_refl. reflexivity. }
  rewrite Hck.
  unfold FixedBatchNormalization_forward, bind, lift, get, modify, ret.
  cbn [fst snd]. rewrite Heps.
  replace (amap sqrt (amap Qcinv (amap (fun v => v + eps f) (var_axis0 ax))))
    with (amap rsqrt (amap (fun v => v + eps f) (var_axis0 ax))).
  - rewrite Hy0. reflexivity.
  - unfold amap. cbn [dtype_of shape data]. f_equal.
    rewrite !map_map. apply map_ext. intros v. apply Hrs.
Qed.

(** ** The values of gy at masked positions *)

(** X23.  The backward computation ignores the gradient that arrives at
    masked positions: after a successful forward call with a mask that
    does not depend on the channel, two upstream gradients that agree
    wherever the mask is True give the same gbeta, the same ggamma and
    the same gx. *)
Theorem backward_ignores_masked_gradients
  x gamma beta gy gy' f h y f' h' B C L mk bm :
  shape x = [B; C; L] -> shape gamma = [C] ->
  shape gy = [B; C; L] -> shape gy' = [B; C; L] ->
  mask f = Some mk -> orig_mask f = Some mk ->
  BatchNormalization_forward rsqrt xp (x, gamma, beta) (f, h)
  = (Ok y, (f', h')) ->
  broadcast_to false mk [B; C; L] = Ok bm ->
  channel_uniform bm B C L ->
  (0 < n_active bm B L 0)%nat ->
  (forall b c l, (b < B)%nat -> (c < C)%nat -> (l < L)%nat ->
     get3 false bm b c l = true -> get3 0 gy' b c l = get3 0 gy b c l) ->
  exists gx ggamma gbeta gx' ggamma' gbeta',
    BatchNormalization_backward xp f' gy = Ok (gx, ggamma, gbeta) /\
    BatchNormalization_backward xp f' gy' = Ok (gx', ggamma', gbeta') /\
    forall c, (c < C)%nat ->
      nth c (data gbeta') 0 = nth c (data gbeta) 0 /\
      nth c (data ggamma') 0 = nth c (data ggamma) 0 /\
      forall b l, (b < B)%nat -> (l < L)%nat ->
        get3 0 gx' b c l = get3 0 gx b c l.
Proof.
  intros Hx Hg Hgy Hgy' Hm Hom H Hbm Hu Hk Hag.
  edestruct forward_inv
    as (bm' & xT & mT & ax & y0 & m & h1 & om & Hinv);
    [exact Hx | exact Hm | exact H |].
  cbv zeta in Hinv.
  destruct Hinv as (Hbm' & HxT & HmT & Hax & Hmean & Hinv & Hmask & Homask
                    & Hret & Hexp & _).
  rewrite Hbm in Hbm'. injection Hbm' as <-.
  edestruct masked_rows_shape as (n & Hsax & HC & _); [exact Hax|].
  assert (He : expander f' = 1%nat)
    by (rewrite Hexp; unfold ndim; rewrite Hx, Hg; reflexivity).
  set (mean_ := mean_axis0 ax) in *.
  set (inv := amap rsqrt (amap (fun v => v + eps f) (var_axis0 ax))) in *.
  assert (Hms : shape mean_ = [C]) by (eapply shape_mean_axis0, Hsax).
  assert (His : shape inv = [C])
    by (unfold inv; cbn [amap shape]; eapply shape_var_axis0, Hsax).
  set (g := BatchNormalizationGrad_init
              (eps f') (mode f') (expander f') (axis f')
              (mean f') (inv_std f') (active_len f')
              (orig_mask f') (mask f')).
  assert (Hgo : g_orig_mask g = Some mk)
    by (unfold g; cbn [BatchNormalizationGrad_init g_orig_mask]; congruence).
  destruct (@grad_forward_spec xp g x gamma gy mean_ inv mk bm mT B C L)
    as (gx & gg & gb & Hgrad & _ & _ & _ & Hv);
    try assumption; try solve [exact He | exact Hmean | exact Hinv | lia].
  destruct (@grad_forward_spec xp g x gamma gy' mean_ inv mk bm mT B C L)
    as (gx' & gg' & gb' & Hgrad' & _ & _ & _ & Hv');
    try assumption; try solve [exact He | exact Hmean | exact Hinv | lia].
  exists gx, gg, gb, gx', gg', gb'.
  unfold BatchNormalization_backward. rewrite Hret.
  cbn [option_result fst snd].
  split; [exact Hgrad|]. split; [exact Hgrad'|].
  intros c Hc.
  destruct (Hv c Hc) as (Hgb & Hgg & Hgx).
  destruct (Hv' c Hc) as (Hgb' & Hgg' & Hgx').
  assert (Eb : nth c (data gb') 0 = nth c (data gb) 0).
  { rewrite Hgb, Hgb'. unfold active_elements. f_equal.
    apply active_ext_active. intros b l Hlb Hll E. apply Hag; assumption. }
  assert (Eg : nth c (data gg') 0 = nth c (data gg) 0).
  { rewrite Hgg, Hgg'. f_equal.
    apply active_ext_active. intros b l Hlb Hll E.
    rewrite (Hag b c l Hlb Hc Hll E). reflexivity. }
  split; [exact Eb|]. split; [exact Eg|].
  intros b l Hlb Hll. rewrite (Hgx b l Hlb Hll), (Hgx' b l Hlb Hll), Eb, Eg.
  destruct (get3 false bm b c l) eqn:E; cbn [of_bool].
  - rewrite (Hag b c l Hlb Hc Hll E). reflexivity.
  - ring.
Qed.

End Further.

(** ** Results of concrete runs *)

Lemma returned_state {A S} (d : A) (r : result A * S) :
  is_ok (fst r) = true -> r = (Ok (value d (fst r)), snd r).
Proof.
  destruct r as [[a|e] s]; cbn; intros H.
  - reflexivity.
  - discriminate H.
Defined.

Lemma returned5 {A B C D E} (d : A * B * C * D * E)
  (r : result (A * B * C * D * E)) :
  is_ok r = true ->
  r = Ok (fst (fst (fst (fst (value d r)))), snd (fst (fst (fst (value d r)))),
          snd (fst (fst (value d r))), snd (fst (value d r)),
          snd (value d r)).
Proof.
  destruct r as [[[[[a b] c] d'] e]|e]; cbn; intros H.
  - reflexivity.
  - discriminate H.
Defined.

(** ** The further theorems at the sample inputs *)

(** X22 on the sample inputs. *)
Lemma as4darray_idempotent_sample :
  _as4darray sample_gamma_4d = Ok sample_gamma_4d.
Proof.
  apply (as4darray_idempotent sample_gamma). reflexivity.
Defined.

(** X9 on the sample inputs. *)
Lemma batch_normalization_needs_mask_sample :
  exists e,
    fst (batch_normalization Qcinv numpy false
           sample_x sample_gamma sample_beta default_kwargs []) = Raise e.
Proof.
  apply (batch_normalization_needs_mask Qcinv numpy false
           sample_x sample_gamma sample_beta default_kwargs []).
  reflexivity.
Defined.

(** X12 on the sample inputs. *)
Lemma forward_object_is_single_use_sample :
  fst (BatchNormalization_forward Qcinv numpy
         (sample_x, sample_gamma, sample_beta)
         (sample_after row_mask None None [],
          sample_heap_after row_mask None None []))
  = Raise ValueError.
Proof.
  apply (forward_object_is_single_use Qcinv numpy
           sample_x sample_gamma sample_beta
           (sample_bn row_mask None None) []
           (y := sample_y row_mask None None [])
           (h' := sample_heap_after row_mask None None [])
           (B := 1%nat) (C := 2%nat) (L := 3%nat) (mk := row_mask)
           sample_x sample_gamma sample_beta
           (sample_heap_after row_mask None None [])).
  - reflexivity.
  - reflexivity.
  - apply (returned empty (sample_run row_mask None None [])).
    vm_compute. reflexivity.
  - discriminate.
  - reflexivity.
Defined.

(** X11 on the sample inputs. *)
Lemma backward_without_active_elements_sample :
  BatchNormalization_backward numpy
    (fst (snd (BatchNormalization_forward Qcinv numpy
                 (sample_x, sample_gamma, sample_beta)
                 (sample_bn empty_mask None None, [])))) sample_gy
  = Raise ZeroDivisionError.
Proof.
  apply (backward_without_active_elements Qcinv numpy
           sample_x sample_gamma sample_beta sample_gy
           (sample_bn empty_mask None None) []
           (y := sample_y empty_mask None None [])
           (h' := sample_heap_after empty_mask None None [])
           (B := 1%nat) (C := 2%nat) (L := 3%nat)
           (mk := empty_mask) (bm := empty_mask_full)).
  - reflexivity.
  - reflexivity.
  - reflexivity.
  - apply (returned empty (sample_run empty_mask None None [])).
    vm_compute. reflexivity.
  - vm_compute. reflexivity.
  - apply channel_uniformb_ok. vm_compute. reflexivity.
  - vm_compute. reflexivity.
Defined.

(** X10 on the sample inputs. *)
Lemma forward_ragged_selection_sample :
  fst (BatchNormalization_forward Qcinv numpy
         (sample_x, sample_gamma, sample_beta)
         (sample_bn lone_mask None None, []))
  = Raise ValueError.
Proof.
  apply (forward_ragged_selection Qcinv numpy
           sample_x sample_gamma sample_beta
           (sample_bn lone_mask None None) []
           (B := 1%nat) (C := 2%nat) (L := 3%nat)
           (mk := lone_mask) (bm := lone_mask)).
  - reflexivity.
  - reflexivity.
  - vm_compute. reflexivity.
  - vm_compute. discriminate.
Defined.

(** X7 on the sample inputs. *)
Lemma forward_running_mean_without_running_var_sample :
  fst (sample_run row_mask (Some 0%nat) None sample_heap) = Raise TypeError /\
  exists rm1,
    snd (snd (sample_run row_mask (Some 0%nat) None sample_heap))
    = update sample_heap 0 rm1 /\
    shape rm1 = [2%nat] /\
    forall c, (c < 2)%nat ->
      nth c (data rm1) 0
      = decay (sample_bn row_mask (Some 0%nat) None)
        * nth c (data sample_running_mean) 0
        + (1 - decay (sample_bn row_mask (Some 0%nat) None))
          * mean_list (active_elements sample_x row_mask_full 1 3 c).
Proof.
  apply (forward_running_mean_without_running_var Qcinv numpy
           sample_x sample_gamma sample_beta
           (sample_bn row_mask (Some 0%nat) None) sample_heap
           (B := 1%nat) (C := 2%nat) (L := 3%nat)
           (mk := row_mask) (bm := row_mask_full)
           (lm := 0%nat) (rm0 := sample_running_mean)).
  - reflexivity.
  - reflexivity.
  - reflexivity.
  - reflexivity.
  - reflexivity.
  - reflexivity.
  - reflexivity.
  - reflexivity.
  - vm_compute. reflexivity.
  - apply channel_uniformb_ok. vm_compute. reflexivity.
  - vm_compute. lia.
  - discriminate.
Defined.

(** X6 on the sample inputs. *)
Lemma forward_returns_with_running_statistics_sample :
  exists y,
    fst (sample_run row_mask (Some 0%nat) (Some 1%nat) sample_heap) = Ok y.
Proof.
  apply (forward_returns_with_running_statistics Qcinv numpy
           sample_x sample_gamma sample_beta
           (sample_bn row_mask (Some 0%nat) (Some 1%nat)) sample_heap
           (B := 1%nat) (C := 2%nat) (L := 3%nat)
           (mk := row_mask) (bm := row_mask_full)
           (lm := 0%nat) (lv := 1%nat)
           (rm0 := sample_running_mean) (rv0 := sample_running_var)).
  - reflexivity.
  - reflexivity.
  - reflexivity.
  - discriminate.
  - reflexivity.
  - reflexivity.
  - reflexivity.
  - reflexivity.
  - reflexivity.
  - reflexivity.
  - reflexivity.
  - reflexivity.
  - vm_compute. reflexivity.
  - apply channel_uniformb_ok. vm_compute. reflexivity.
Defined.

(** X8 on the sample inputs. *)
Lemma forward_running_statistics_aliased_sample :
  exists y r2,
    fst (sample_run row_mask (Some 0%nat) (Some 0%nat) sample_heap) = Ok y /\
    snd (snd (sample_run row_mask (Some 0%nat) (Some 0%nat) sample_heap))
    = update sample_heap 0 r2 /\
    forall c, (c < 2)%nat ->
      nth c (data r2) 0
      = decay (sample_bn row_mask (Some 0%nat) (Some 0%nat))
        * (decay (sample_bn row_mask (Some 0%nat) (Some 0%nat))
           * nth c (data sample_running_mean) 0
           + (1 - decay (sample_bn row_mask (Some 0%nat) (Some 0%nat)))
             * mean_list (active_elements sample_x row_mask_full 1 3 c))
        + (1 - decay (sample_bn row_mask (Some 0%nat) (Some 0%nat)))
          * adjust (n_active row_mask_full 1 3 0)
          * (var_list (active_elements sample_x row_mask_full 1 3 c)
             + eps (sample_bn row_mask (Some 0%nat) (Some 0%nat))).
Proof.
  apply (forward_running_statistics_aliased Qcinv numpy
           sample_x sample_gamma sample_beta
           (sample_bn row_mask (Some 0%nat) (Some 0%nat)) sample_heap
           (B := 1%nat) (C := 2%nat) (L := 3%nat)
           (mk := row_mask) (bm := row_mask_full)
           (lm := 0%nat) (rm0 := sample_running_mean)).
  - reflexivity.
  - reflexivity.
  - reflexivity.
  - reflexivity.
  - reflexivity.
  - reflexivity.
  - reflexivity.
  - reflexivity.
  - reflexivity.
  - vm_compute. reflexivity.
  - apply channel_uniformb_ok. vm_compute. reflexivity.
  - vm_compute. lia.
  - discriminate.
Defined.

(** X1 on the sample inputs. *)
Lemma forward_output_at_active_positions_sample :
  exists mean_ inv,
    mean (sample_after row_mask None None []) = Some mean_ /\
    inv_std (sample_after row_mask None None []) = Some inv /\
    forall b c l, (b < 1)%nat -> (c < 2)%nat -> (l < 3)%nat ->
      get3 false row_mask_full b c l = true ->
      get3 0 (sample_y row_mask None None []) b c l
      = nth c (data sample_gamma) 0
        * ((get3 0 sample_x b c l - nth c (data mean_) 0)
           * nth c (data inv) 0)
        + nth c (data sample_beta) 0.
Proof.
  apply (forward_output_at_active_positions Qcinv numpy
           sample_x sample_gamma sample_beta
           (sample_bn row_mask None None) []
           (h' := sample_heap_after row_mask None None [])
           (mk := row_mask)).
  - reflexivity.
  - reflexivity.
  - reflexivity.
  - reflexivity.
  - reflexivity.
  - apply (returned empty (sample_run row_mask None None [])).
    vm_compute. reflexivity.
  - vm_compute. reflexivity.
Defined.

(** X3 on the sample inputs. *)
Lemma forward_output_channel_sum_sample :
  qsum (positions 1 3
          (fun b l => get3 0 (sample_y row_mask None None []) b 1 l))
  = of_nat (n_active row_mask_full 1 3 0) * nth 1 (data sample_beta) 0.
Proof.
  apply (forward_output_channel_sum Qcinv numpy
           sample_x sample_gamma sample_beta
           (sample_bn row_mask None None) []
           (f' := sample_after row_mask None None [])
           (h' := sample_heap_after row_mask None None [])
           (C := 2%nat) (mk := row_mask)).
  - reflexivity.
  - reflexivity.
  - reflexivity.
  - reflexivity.
  - reflexivity.
  - apply (returned empty (sample_run row_mask None None [])).
    vm_compute. reflexivity.
  - vm_compute. reflexivity.
  - apply channel_uniformb_ok. vm_compute. reflexivity.
  - vm_compute. lia.
  - lia.
Defined.

(** X4 on the sample inputs. *)
Lemma backward_gx_channel_sum_sample :
  exists gx ggamma gbeta,
    BatchNormalization_backward numpy
      (sample_after row_mask None None []) sample_gy
    = Ok (gx, ggamma, gbeta) /\
    forall c, (c < 2)%nat ->
      qsum (positions 1 3 (fun b l => get3 0 gx b c l)) = 0.
Proof.
  apply (backward_gx_channel_sum Qcinv numpy
           sample_x sample_gamma sample_beta sample_gy
           (sample_bn row_mask None None) []
           (y := sample_y row_mask None None [])
           (h' := sample_heap_after row_mask None None [])
           (mk := row_mask) (bm := row_mask_full)).
  - reflexivity.
  - reflexivity.
  - reflexivity.
  - reflexivity.
  - reflexivity.
  - apply (returned empty (sample_run row_mask None None [])).
    vm_compute. reflexivity.
  - vm_compute. reflexivity.
  - apply channel_uniformb_ok. vm_compute. reflexivity.
  - vm_compute. lia.
Defined.



(** X17 on the sample inputs. *)
Lemma fixed_backward_after_forward_sample :
  FixedBatchNormalization_backward sample_sqrt (snd fixed_run) sample_gy
  = fst (FixedBatchNormalizationGrad_forward sample_sqrt
           (sample_x, sample_gamma, sample_mean, sample_var, sample_gy)
           (FixedBatchNormalizationGrad_init
              (f_eps (FixedBatchNormalization_init 0))
              (ndim sample_x - (ndim sample_gamma + 1))
              (0%nat :: range (ndim sample_gamma + 1) (ndim sample_x))
              None None)).
Proof.
  apply (fixed_backward_after_forward sample_sqrt numpy
           sample_x sample_gamma sample_beta sample_mean sample_var sample_gy
           (FixedBatchNormalization_init 0)
           (y := value empty (fst fixed_run))).
  apply (returned_state empty fixed_run). vm_compute. reflexivity.
Defined.

(** X13 on the sample inputs. *)
Lemma masked_check_accepts_exactly_sample :
  BatchNormalization_apply Qcinv numpy
    (sample_x, sample_gamma, sample_beta) (sample_bn row_mask None None, [])
  = BatchNormalization_forward Qcinv numpy
      (sample_x, sample_gamma, sample_beta)
      (sample_bn row_mask None None, []) /\
  BatchNormalization_apply Qcinv numpy
    (int_x, sample_gamma, sample_beta) (sample_bn row_mask None None, [])
  = (Raise InvalidType, (sample_bn row_mask None None, [])).
Proof.
  split.
  - apply (proj1 (masked_check_accepts_exactly Qcinv numpy
                    sample_x sample_gamma sample_beta
                    (sample_bn row_mask None None, []))).
    split; [reflexivity|]. split; [exists 1%nat, [3%nat]; reflexivity|].
    split; [reflexivity|]. split; reflexivity.
  - apply (proj2 (masked_check_accepts_exactly Qcinv numpy
                    int_x sample_gamma sample_beta
                    (sample_bn row_mask None None, []))).
    intros (Hk & _). discriminate Hk.
Defined.

(** X19 on the sample inputs. *)
Lemma masked_forward_never_uses_cudnn_sample :
  exists md,
    mode (sample_after row_mask None None []) = Some md /\
    cudnn_dim_ok md = false /\
    BNMode_can_use_cudnn true numpy md = false /\
    BNMode_get_cudnn_mode md = None.
Proof.
  apply (masked_forward_never_uses_cudnn Qcinv numpy
           sample_x sample_gamma sample_beta
           (sample_bn row_mask None None) []
           (y := sample_y row_mask None None [])
           (h' := sample_heap_after row_mask None None []) true).
  apply (returned empty (sample_run row_mask None None [])).
  vm_compute. reflexivity.
Defined.

(** X2 on the sample inputs. *)
Lemma forward_ignores_masked_inputs_sample :
  mean (fst (snd (BatchNormalization_forward Qcinv numpy
                    (sample_x_padded, sample_gamma, sample_beta)
                    (sample_bn row_mask None None, []))))
  = mean (sample_after row_mask None None []) /\
  inv_std (fst (snd (BatchNormalization_forward Qcinv numpy
                       (sample_x_padded, sample_gamma, sample_beta)
                       (sample_bn row_mask None None, []))))
  = inv_std (sample_after row_mask None None []) /\
  snd (snd (BatchNormalization_forward Qcinv numpy
              (sample_x_padded, sample_gamma, sample_beta)
              (sample_bn row_mask None None, [])))
  = sample_heap_after row_mask None None [] /\
  forall b c l, (b < 1)%nat -> (c < 2)%nat -> (l < 3)%nat ->
    get3 0 (value empty
              (fst (BatchNormalization_forward Qcinv numpy
                      (sample_x_padded, sample_gamma, sample_beta)
                      (sample_bn row_mask None None, [])))) b c l
    = get3 0 (sample_y row_mask None None []) b c l.
Proof.
  apply (forward_ignores_masked_inputs Qcinv numpy
           sample_x sample_x_padded sample_gamma sample_beta
           (sample_bn row_mask None None) []
           (mk := row_mask) (bm := row_mask_full)).
  - reflexivity.
  - reflexivity.
  - reflexivity.
  - reflexivity.
  - reflexivity.
  - reflexivity.
  - reflexivity.
  - vm_compute. reflexivity.
  - intros b c l Hb Hc Hl.
    destruct b as [|b]; [|lia].
    destruct c as [|[|c]]; [| |lia];
      (destruct l as [|[|[|l]]]; [| | |lia]);
      intros E; try reflexivity; vm_compute in E; discriminate E.
  - apply (returned empty (sample_run row_mask None None [])).
    vm_compute. reflexivity.
  - apply (returned empty
             (BatchNormalization_forward Qcinv numpy
                (sample_x_padded, sample_gamma, sample_beta)
                (sample_bn row_mask None None, []))).
    vm_compute. reflexivity.
Defined.

(** X18 on the sample inputs. *)
Lemma fixed_gmean_is_minus_sum_of_gx_sample :
  nth 1 (data (snd (fst fixed_grads))) 0
  = - channel_sum sample_x sample_gamma
        (data (fst (fst (fst (fst fixed_grads))))) 1.
Proof.
  apply (fixed_gmean_is_minus_sum_of_gx sample_sqrt
           sample_x sample_gamma sample_mean sample_var
           (gy := sample_gy)
           (ggamma := snd (fst (fst (fst fixed_grads))))
           (gbeta := snd (fst (fst fixed_grads)))
           (gvar := snd fixed_grads)
           (FixedBatchNormalizationGrad_init 0 1 [0; 2]%nat None None)
           (n := 1%nat) [3%nat]).
  - reflexivity.
  - reflexivity.
  - reflexivity.
  - reflexivity.
  - reflexivity.
  - reflexivity.
  - exact I.
  - apply (returned5 (empty, empty, empty, empty, empty)).
    vm_compute. reflexivity.
  - vm_compute. lia.
Defined.

(** X5 on the sample inputs. *)
Lemma masked_output_is_fixed_output_masked_sample :
  exists mean_ var y0,
    mean (sample_after row_mask None None []) = Some mean_ /\
    inv_std (sample_after row_mask None None [])
    = Some (amap Qcinv
              (amap (fun v => v + eps (sample_bn row_mask None None)) var)) /\
    fst (FixedBatchNormalization_apply sample_sqrt numpy
           (sample_x, sample_gamma, sample_beta, mean_, var)
           (FixedBatchNormalization_init default_eps)) = Ok y0 /\
    iop Qcmult y0 (astype_float (dtype_of y0) row_mask)
    = Ok (sample_y row_mask None None []).
Proof.
  apply (masked_output_is_fixed_output_masked Qcinv sample_sqrt numpy
           sample_x sample_gamma sample_beta
           (sample_bn row_mask None None) []
           (h' := sample_heap_after row_mask None None [])
           (B := 1%nat) (C := 2%nat) (L := 3%nat) (mk := row_mask)
           (FixedBatchNormalization_init default_eps)).
  - intros v. reflexivity.
  - reflexivity.
  - reflexivity.
  - reflexivity.
  - reflexivity.
  - reflexivity.
  - reflexivity.
  - reflexivity.
  - reflexivity.
  - reflexivity.
  - apply (returned empty (sample_run row_mask None None [])).
    vm_compute. reflexivity.
Defined.

(** X23 on the sample inputs. *)
Lemma backward_ignores_masked_gradients_sample :
  exists gx ggamma gbeta gx' ggamma' gbeta',
    BatchNormalization_backward numpy
      (sample_after row_mask None None []) sample_gy
    = Ok (gx, ggamma, gbeta) /\
    BatchNormalization_backward numpy
      (sample_after row_mask None None []) sample_gy_padded
    = Ok (gx', ggamma', gbeta') /\
    forall c, (c < 2)%nat ->
      nth c (data gbeta') 0 = nth c (data gbeta) 0 /\
      nth c (data ggamma') 0 = nth c (data ggamma) 0 /\
      forall b l, (b < 1)%nat -> (l < 3)%nat ->
        get3 0 gx' b c l = get3 0 gx b c l.
Proof.
  apply (backward_ignores_masked_gradients Qcinv numpy
           sample_x sample_gamma sample_beta sample_gy sample_gy_padded
           (sample_bn row_mask None None) []
           (y := sample_y row_mask None None [])
           (h' := sample_heap_after row_mask None None [])
           (mk := row_mask) (bm := row_mask_full)).
  - reflexivity.
  - reflexivity.
  - reflexivity.
  - reflexivity.
  - reflexivity.
  - reflexivity.
  - apply (returned empty (sample_run row_mask None None [])).
    vm_compute. reflexivity.
  - vm_compute. reflexivity.
  - apply channel_uniformb_ok. vm_compute. reflexivity.
  - vm_compute. lia.
  - intros b c l Hb Hc Hl.
    destruct b as [|b]; [|lia].
    destruct c as [|[|c]]; [| |lia];
      (destruct l as [|[|[|l]]]; [| | |lia]);
      intros E; try reflexivity; vm_compute in E; discriminate E.
Defined.
